(** * graphql-transport-ws: the wire codec and the connection, verified

    A shallow embedding of the Go package [gws]:

    - [payload.go] (the message codec): [operationMessage], its hand-written
      [MarshalJSON] / [marshalPayload] and its [UnmarshalJSON];
    - [conn.go]: [Conn], [write] and [Close], [Dial] and its options.

    Go strings and [[]byte] are sequences of 8-bit values; both are modelled
    by [string], whose characters are 8-bit [ascii] values.  The parts of
    [encoding/json] that the codec calls are modelled in the module
    [GoJSON], over exactly these byte strings. *)

From Stdlib Require Import ZArith NArith List String Ascii Bool Lia Permutation.
From stdpp Require Import base option list gmap strings pretty.

Set Warnings "-register-all,-abstract-large-number".

Open Scope string_scope.

(** ** Byte-string helpers *)

Abbreviation bytes := string.

(** The double quote, written by its code so that literals stay readable. *)
Definition dquote : ascii := "034"%char.
Definition backslash : ascii := "092"%char.

(** [bq s] is the Go raw literal written between back quotes, with the
    apostrophe standing for the double quote (no literal of the package
    contains an apostrophe). *)
Fixpoint bq (s : string) : bytes :=
  match s with
  | EmptyString => EmptyString
  | String c s' => String (if Ascii.eqb c "'" then dquote else c) (bq s')
  end.

Definition byte (c : ascii) : N := N_of_ascii c.
Definition chr (n : N) : ascii := ascii_of_N n.

Definition str1 (c : ascii) : bytes := String c EmptyString.

(** [s[:len(s)-len(rest)]]: the part of [s] consumed before [rest]. *)
Definition consumed (s rest : bytes) : bytes :=
  substring 0 (String.length s - String.length rest) s.

Fixpoint concat_bytes (l : list bytes) : bytes :=
  match l with
  | [] => ""
  | x :: l' => x ++ concat_bytes l'
  end.

(** ** Go values shared by the packages *)

(** The [error] values that the modelled code can produce.  Messages and
    byte offsets of the [encoding/json] errors are not kept. *)
Inductive error : Type :=
| SyntaxError                                      (* *json.SyntaxError *)
| UnmarshalTypeError (Value : string) (Field : string)  (* *json.UnmarshalTypeError *)
| UnsupportedTypeError (Type_ : string)            (* *json.UnsupportedTypeError *)
| Errorf (msg : string)                            (* fmt.Errorf *)
| TransportError (msg : string).                   (* an error of the WebSocket library *)

Inductive result (A : Type) : Type :=
| Ok (a : A)
| Err (e : error).
Arguments Ok {A} a.
Arguments Err {A} e.

(** Values held in an [interface{}]: what [encoding/json] stores when it
    decodes into an empty interface ([nil], [bool], [float64], [string],
    [[]interface{}], [map[string]interface{}]), an [int], which callers
    put in the variables of a request, and a channel as the representative
    of the values that [json.Marshal] rejects.  A [float64] is kept as the
    JSON number literal that denotes it: [strconv.ParseFloat] and
    [strconv.FormatFloat] are outside the model, and nothing below depends
    on the value of a number.  Slices and maps are non-nil; a map is an
    association list with one entry per key. *)
Inductive any : Type :=
| a_nil
| a_bool (b : bool)
| a_float64 (lit : bytes)
| a_int (n : Z)
| a_string (s : string)
| a_slice (l : list any)
| a_map (m : list (string * any))
| a_chan.

(** ** encoding/json, as far as the codec uses it *)

Module GoJSON.

(** *** unicode/utf8 *)

Definition RuneError : N := 65533.          (* U+FFFD *)

Definition is_cont (c : ascii) : bool :=
  (128 <=? byte c)%N && (byte c <=? 191)%N.

Definition in_range (lo hi : N) (c : ascii) : bool :=
  (lo <=? byte c)%N && (byte c <=? hi)%N.

(** [utf8.DecodeRune]: the rune at the head of [s] and its width in bytes;
    [(RuneError, 1)] on an invalid encoding, [(RuneError, 0)] on empty input. *)
Definition DecodeRune (s : bytes) : N * nat :=
  match s with
  | EmptyString => (RuneError, 0)
  | String c0 s1 =>
    let b0 := byte c0 in
    if (b0 <? 128)%N then (b0, 1)
    else
      let two lo hi :=
        match s1 with
        | String c1 _ =>
          if in_range lo hi c1
          then (((b0 mod 32) * 64 + (byte c1 mod 64))%N, 2)
          else (RuneError, 1)
        | _ => (RuneError, 1)
        end in
      let three lo hi :=
        match s1 with
        | String c1 (String c2 _) =>
          if in_range lo hi c1 && is_cont c2
          then (((b0 mod 16) * 4096 + (byte c1 mod 64) * 64 + (byte c2 mod 64))%N, 3)
          else (RuneError, 1)
        | _ => (RuneError, 1)
        end in
      let four lo hi :=
        match s1 with
        | String c1 (String c2 (String c3 _)) =>
          if in_range lo hi c1 && is_cont c2 && is_cont c3
          then (((b0 mod 8) * 262144 + (byte c1 mod 64) * 4096
                 + (byte c2 mod 64) * 64 + (byte c3 mod 64))%N, 4)
          else (RuneError, 1)
        | _ => (RuneError, 1)
        end in
      if (b0 <? 194)%N then (RuneError, 1)
      else if (b0 <? 224)%N then two 128%N 191%N
      else if (b0 =? 224)%N then three 160%N 191%N
      else if (b0 =? 237)%N then three 128%N 159%N
      else if (b0 <? 240)%N then three 128%N 191%N
      else if (b0 =? 240)%N then four 144%N 191%N
      else if (b0 <? 244)%N then four 128%N 191%N
      else if (b0 =? 244)%N then four 128%N 143%N
      else (RuneError, 1)
  end.

Definition is_surrogate (r : N) : bool := (55296 <=? r)%N && (r <? 57344)%N.

(** [utf8.EncodeRune] / [utf8.AppendRune]. *)
Definition EncodeRune (r : N) : bytes :=
  let r := if is_surrogate r || (1114111 <? r)%N then RuneError else r in
  if (r <? 128)%N then str1 (chr r)
  else if (r <? 2048)%N then
    String (chr (192 + r / 64)) (str1 (chr (128 + r mod 64)))
  else if (r <? 65536)%N then
    String (chr (224 + r / 4096))
      (String (chr (128 + (r / 64) mod 64)) (str1 (chr (128 + r mod 64))))
  else
    String (chr (240 + r / 262144))
      (String (chr (128 + (r / 4096) mod 64))
         (String (chr (128 + (r / 64) mod 64)) (str1 (chr (128 + r mod 64))))).

(** [utf16.DecodeRune]. *)
Definition utf16_DecodeRune (r1 r2 : N) : N :=
  if (55296 <=? r1)%N && (r1 <? 56320)%N && (56320 <=? r2)%N && (r2 <? 57344)%N
  then ((r1 - 55296) * 1024 + (r2 - 56320) + 65536)%N
  else RuneError.

(** *** The scanner ([scanner.go]) and string unquoting ([decode.go]) *)

Definition isSpace (c : ascii) : bool :=
  match byte c with
  | 32%N | 9%N | 13%N | 10%N => true
  | _ => false
  end.

Fixpoint skip_ws (s : bytes) : bytes :=
  match s with
  | String c s' => if isSpace c then skip_ws s' else s
  | EmptyString => EmptyString
  end.

Definition hexval (c : ascii) : option N :=
  let n := byte c in
  if in_range 48 57 c then Some (n - 48)%N
  else if in_range 97 102 c then Some (n - 87)%N
  else if in_range 65 70 c then Some (n - 55)%N
  else None.

(** [getu4] on the four characters that follow [\u]. *)
Definition getu4 (h1 h2 h3 h4 : ascii) : option N :=
  match hexval h1, hexval h2, hexval h3, hexval h4 with
  | Some a, Some b, Some c, Some d => Some (a * 4096 + b * 256 + c * 16 + d)%N
  | _, _, _, _ => None
  end.

(** The low half of a surrogate pair, when [s] starts with a [\uXXXX]
    escape: the rune it denotes and what follows it. *)
Definition next_u4 (s : bytes) : option N :=
  match s with
  | String e (String u (String g1 (String g2 (String g3 (String g4 _))))) =>
    if Ascii.eqb e backslash && Ascii.eqb u "u" then getu4 g1 g2 g3 g4 else None
  | _ => None
  end.

(** The character that a one-letter escape stands for. *)
Definition simple_escape (e : ascii) : option ascii :=
  match byte e with
  | 34%N | 92%N | 47%N => Some e
  | 98%N => Some (chr 8)
  | 102%N => Some (chr 12)
  | 110%N => Some (chr 10)
  | 114%N => Some (chr 13)
  | 116%N => Some (chr 9)
  | _ => None
  end.

Definition emit (o : bytes) (r : option (bytes * bytes)) : option (bytes * bytes) :=
  match r with
  | Some (v, rest) => Some (o ++ v, rest)
  | None => None
  end.

(** The body of a string literal, from just after the opening quote:
    the scanner's validation ([stateInString], [stateInStringEsc],
    [stateInStringEscU...]) together with [unquoteBytes].  The result is
    the unquoted value and the input after the closing quote; [None] is a
    syntax error.  [skip] counts the continuation bytes of a multi-byte
    rune still to be copied, and [drop] the bytes of the low surrogate
    escape already consumed through look-ahead. *)
Fixpoint string_body (skip drop : nat) (s : bytes) : option (bytes * bytes) :=
  match s with
  | EmptyString => None
  | String c s' =>
    match drop with
    | S drop' => string_body skip drop' s'
    | O =>
      match skip with
      | S skip' => emit (str1 c) (string_body skip' 0 s')
      | O =>
        if Ascii.eqb c dquote then Some (EmptyString, s')
        else if Ascii.eqb c backslash then
          match s' with
          | EmptyString => None
          | String e s'' =>
            if Ascii.eqb e "u" then
              match s'' with
              | String h1 (String h2 (String h3 (String h4 s3))) =>
                match getu4 h1 h2 h3 h4 with
                | None => None
                | Some rr =>
                  if is_surrogate rr then
                    match next_u4 s3 with
                    | Some rr1 =>
                      let dec := utf16_DecodeRune rr rr1 in
                      if (dec =? RuneError)%N
                      then emit (EncodeRune RuneError) (string_body 0 0 s3)
                      else emit (EncodeRune dec) (string_body 0 6 s3)
                    | None => emit (EncodeRune RuneError) (string_body 0 0 s3)
                    end
                  else emit (EncodeRune rr) (string_body 0 0 s3)
                end
              | _ => None
              end
            else
              match simple_escape e with
              | Some d => emit (str1 d) (string_body 0 0 s'')
              | None => None
              end
          end
        else if (byte c <? 32)%N then None
        else if (byte c <? 128)%N then emit (str1 c) (string_body 0 0 s')
        else
          match DecodeRune s with
          | (r, size) =>
            if (r =? RuneError)%N && Nat.eqb size 1
            then emit (EncodeRune RuneError) (string_body 0 0 s')
            else emit (str1 c) (string_body (size - 1) 0 s')
          end
      end
    end
  end.

Definition isDigit (c : ascii) : bool := in_range 48 57 c.

Fixpoint skip_digits (s : bytes) : bytes :=
  match s with
  | String c s' => if isDigit c then skip_digits s' else s
  | EmptyString => EmptyString
  end.

(** One or more digits. *)
Definition digits1 (s : bytes) : option bytes :=
  match s with
  | String c s' => if isDigit c then Some (skip_digits s') else None
  | EmptyString => None
  end.

(** A number literal, phase by phase ([stateNeg], [state0] and [state1],
    [stateDot] and [stateDot0], [stateE], [stateESign] and [stateE0]):
    each phase returns the input after it, or [None] on a syntax error. *)
Definition num_sign (s : bytes) : bytes :=
  match s with
  | String c s' => if Ascii.eqb c "-" then s' else s
  | EmptyString => s
  end.

Definition num_int (s : bytes) : option bytes :=
  match s with
  | String c s' =>
    if Ascii.eqb c "0" then Some s'
    else if isDigit c then Some (skip_digits s')
    else None
  | EmptyString => None
  end.

Definition num_frac (s : bytes) : option bytes :=
  match s with
  | String c s' => if Ascii.eqb c "." then digits1 s' else Some s
  | EmptyString => Some s
  end.

Definition num_exp (s : bytes) : option bytes :=
  match s with
  | String c s' =>
    if Ascii.eqb c "e" || Ascii.eqb c "E" then
      match s' with
      | String g s'' =>
        if Ascii.eqb g "+" || Ascii.eqb g "-" then digits1 s'' else digits1 s'
      | EmptyString => None
      end
    else Some s
  | EmptyString => Some s
  end.

Definition number_rest (s : bytes) : option bytes :=
  match num_int (num_sign s) with
  | Some s2 =>
    match num_frac s2 with
    | Some s3 => num_exp s3
    | None => None
    end
  | None => None
  end.

(** [strip_prefix p s]: [s] without its prefix [p], when it has it. *)
Fixpoint strip_prefix (p s : bytes) : option bytes :=
  match p with
  | EmptyString => Some s
  | String a p' =>
    match s with
    | String b s' => if Ascii.eqb a b then strip_prefix p' s' else None
    | EmptyString => None
    end
  end.

(** A decoded JSON text.  Array elements and object members keep the
    bytes they were read from, which is what [json.RawMessage] stores;
    strings and keys are kept unquoted; numbers keep their literal. *)
Inductive json : Type :=
| JNull
| JBool (b : bool)
| JNumber (lit : bytes)
| JString (s : bytes)
| JArray (elems : list (bytes * json))
| JObject (members : list (bytes * (bytes * json))).

(** Outcome of scanning: a value and the remaining input, a syntax error,
    or not enough fuel. *)
Inductive scan (A : Type) : Type :=
| Scanned (a : A) (rest : bytes)
| Invalid
| Starved.
Arguments Scanned {A} a rest.
Arguments Invalid {A}.
Arguments Starved {A}.

Definition maxNestingDepth : nat := 10000.

(** [value fuel depth s] reads one JSON value at the head of [s] (no
    leading white space); [elems] reads the elements of an array after
    its opening bracket and [members] the members of an object after its
    opening brace, both from the first non-space character. *)
Fixpoint value (fuel depth : nat) (s : bytes) : scan json :=
  match fuel with
  | O => Starved
  | S fuel' =>
    match s with
    | EmptyString => Invalid
    | String c s' =>
      if Ascii.eqb c "{" then
        if Nat.ltb maxNestingDepth (S depth) then Invalid
        else
          match skip_ws s' with
          | String c1 r1 =>
            if Ascii.eqb c1 "}" then Scanned (JObject []) r1
            else
              match members fuel' (S depth) (String c1 r1) with
              | Scanned ms r => Scanned (JObject ms) r
              | Invalid => Invalid
              | Starved => Starved
              end
          | EmptyString => Invalid
          end
      else if Ascii.eqb c "[" then
        if Nat.ltb maxNestingDepth (S depth) then Invalid
        else
          match skip_ws s' with
          | String c1 r1 =>
            if Ascii.eqb c1 "]" then Scanned (JArray []) r1
            else
              match elems fuel' (S depth) (String c1 r1) with
              | Scanned es r => Scanned (JArray es) r
              | Invalid => Invalid
              | Starved => Starved
              end
          | EmptyString => Invalid
          end
      else if Ascii.eqb c dquote then
        match string_body 0 0 s' with
        | Some (v, r) => Scanned (JString v) r
        | None => Invalid
        end
      else if Ascii.eqb c "t" then
        match strip_prefix "true" s with
        | Some r => Scanned (JBool true) r
        | None => Invalid
        end
      else if Ascii.eqb c "f" then
        match strip_prefix "false" s with
        | Some r => Scanned (JBool false) r
        | None => Invalid
        end
      else if Ascii.eqb c "n" then
        match strip_prefix "null" s with
        | Some r => Scanned JNull r
        | None => Invalid
        end
      else if Ascii.eqb c "-" || isDigit c then
        match number_rest s with
        | Some r => Scanned (JNumber (consumed s r)) r
        | None => Invalid
        end
      else Invalid
    end
  end

with elems (fuel depth : nat) (s : bytes) : scan (list (bytes * json)) :=
  match fuel with
  | O => Starved
  | S fuel' =>
    match value fuel' depth s with
    | Scanned v r =>
      match skip_ws r with
      | String c r1 =>
        if Ascii.eqb c "," then
          match elems fuel' depth (skip_ws r1) with
          | Scanned es r2 => Scanned ((consumed s r, v) :: es) r2
          | Invalid => Invalid
          | Starved => Starved
          end
        else if Ascii.eqb c "]" then Scanned [(consumed s r, v)] r1
        else Invalid
      | EmptyString => Invalid
      end
    | Invalid => Invalid
    | Starved => Starved
    end
  end

with members (fuel depth : nat) (s : bytes) : scan (list (bytes * (bytes * json))) :=
  match fuel with
  | O => Starved
  | S fuel' =>
    match s with
    | String q s1 =>
      if Ascii.eqb q dquote then
        match string_body 0 0 s1 with
        | Some (k, r1) =>
          match skip_ws r1 with
          | String c r2 =>
            if Ascii.eqb c ":" then
              let r3 := skip_ws r2 in
              match value fuel' depth r3 with
              | Scanned v r4 =>
                match skip_ws r4 with
                | String c' r5 =>
                  if Ascii.eqb c' "," then
                    match members fuel' depth (skip_ws r5) with
                    | Scanned ms r6 => Scanned ((k, (consumed r3 r4, v)) :: ms) r6
                    | Invalid => Invalid
                    | Starved => Starved
                    end
                  else if Ascii.eqb c' "}" then Scanned [(k, (consumed r3 r4, v))] r5
                  else Invalid
                | EmptyString => Invalid
                end
              | Invalid => Invalid
              | Starved => Starved
              end
            else Invalid
          | EmptyString => Invalid
          end
        | None => Invalid
        end
      else Invalid
    | EmptyString => Invalid
    end
  end.

(** Fuel that the scanner cannot exhaust (see [value_not_starved]). *)
Definition fuel_for (s : bytes) : nat := 2 * String.length s + 1.

(** The value of a complete JSON text that sits [depth] levels down in
    another one, white space allowed around it. *)
Definition parse_at (depth : nat) (s : bytes) : option json :=
  let s0 := skip_ws s in
  match value (fuel_for s0) depth s0 with
  | Scanned v r => if String.eqb (skip_ws r) "" then Some v else None
  | Invalid | Starved => None
  end.

(** [checkValid] followed by the decoder's walk over the text: the value
    of a complete JSON text.  [None] is a [*json.SyntaxError]. *)
Definition parse (s : bytes) : option json := parse_at 0 s.

(** *** Decoding into Go values ([decode.go]) *)

Definition kind_name (v : json) : string :=
  match v with
  | JNull => "null"
  | JBool _ => "bool"
  | JNumber _ => "number"
  | JString _ => "string"
  | JArray _ => "array"
  | JObject _ => "object"
  end.

Definition upper (c : ascii) : ascii :=
  if in_range 97 122 c then chr (byte c - 32) else c.

(** [foldName]: ASCII letters are upper-cased, and the two non-ASCII
    runes whose case orbit contains an ASCII letter are mapped to it:
    U+017F (long s) to S and U+212A (Kelvin sign) to K.  Every other
    non-ASCII rune folds to a non-ASCII rune, which no field name of the
    package contains; its bytes are kept as they are. *)
Fixpoint foldName (s : bytes) : bytes :=
  match s with
  | EmptyString => EmptyString
  | String c s' =>
    if (byte c <? 128)%N then String (upper c) (foldName s')
    else
      match s' with
      | String c1 s1 =>
        if (byte c =? 197)%N && (byte c1 =? 191)%N then String "S" (foldName s1)
        else
          match s1 with
          | String c2 s2 =>
            if (byte c =? 226)%N && (byte c1 =? 132)%N && (byte c2 =? 170)%N
            then String "K" (foldName s2)
            else String c (foldName s')
          | EmptyString => String c (foldName s')
          end
      | EmptyString => String c (foldName s')
      end
  end.

(** The struct field that an object key selects: an exact match, else a
    match under case folding. *)
Definition lookup_field (names : list string) (key : bytes) : option string :=
  match find (String.eqb key) names with
  | Some f => Some f
  | None => find (fun f => String.eqb (foldName key) (foldName f)) names
  end.

(** [decodeState.saveError]: the first error is the one reported. *)
Definition saveError (saved new : option error) : option error :=
  match saved with
  | Some e => Some e
  | None => new
  end.

(** A JSON value stored into a field of kind [string]. *)
Definition store_string (field : string) (v : json) (cur : string)
  : string * option error :=
  match v with
  | JString s => (s, None)
  | JNull => (cur, None)
  | _ => (cur, Some (UnmarshalTypeError (kind_name v) field))
  end.

(** [decodeState.object] on a struct: [store f (raw, v) s] decodes the
    member value [v], read from the bytes [raw], into the field named [f]
    of [s].  Members are taken in the order of the text, unknown keys are
    skipped, and decoding goes on after a type error. *)
Definition unmarshal_struct {S : Type} (names : list string)
    (store : string -> bytes * json -> S -> S * option error)
    (v : json) (s : S) : S * option error :=
  match v with
  | JNull => (s, None)
  | JObject ms =>
    fold_left
      (fun (acc : S * option error) (m : bytes * (bytes * json)) =>
         match lookup_field names (fst m) with
         | None => acc
         | Some f =>
           let r := store f (snd m) (fst acc) in
           (fst r, saveError (snd acc) (snd r))
         end)
      ms (s, None)
  | _ => (s, Some (UnmarshalTypeError (kind_name v) ""))
  end.

(** [json.Unmarshal(b, &s)] for a struct: [checkValid], then the walk. *)
Definition Unmarshal {S : Type} (names : list string)
    (store : string -> bytes * json -> S -> S * option error)
    (b : bytes) (s : S) : S * option error :=
  match parse b with
  | None => (s, Some SyntaxError)
  | Some v => unmarshal_struct names store v s
  end.

(** [m[k] = v] on an association list. *)
Fixpoint map_set {V : Type} (k : string) (v : V) (m : list (string * V))
  : list (string * V) :=
  match m with
  | [] => [(k, v)]
  | (k', v') :: m' =>
    if String.eqb k k' then (k, v) :: m' else (k', v') :: map_set k v m'
  end.

(** [decodeState.valueInterface]: a JSON value decoded into an empty
    interface. *)
Fixpoint valueInterface (v : json) : any :=
  match v with
  | JNull => a_nil
  | JBool b => a_bool b
  | JNumber lit => a_float64 lit
  | JString s => a_string s
  | JArray es => a_slice (map (fun e => match e with (_, x) => valueInterface x end) es)
  | JObject ms =>
    a_map (fold_left
             (fun acc m => match m with (k, (_, x)) => map_set k (valueInterface x) acc end)
             ms [])
  end.

(** A JSON value stored into a field of type [map[string]interface{}]. *)
Definition store_map (field : string) (v : json) (cur : option (list (string * any)))
  : option (list (string * any)) * option error :=
  match v with
  | JNull => (None, None)
  | JObject ms =>
    (Some (fold_left
             (fun acc m => match m with (k, (_, x)) => map_set k (valueInterface x) acc end)
             ms (match cur with Some m => m | None => [] end)),
     None)
  | _ => (cur, Some (UnmarshalTypeError (kind_name v) field))
  end.

(** A JSON value stored into a field of type [[]json.RawMessage]: the
    elements of the slice present before are overwritten. *)
Definition store_raw_slice (field : string) (v : json) (cur : option (list bytes))
  : option (list bytes) * option error :=
  match v with
  | JNull => (None, None)
  | JArray es => (Some (map fst es), None)
  | _ => (cur, Some (UnmarshalTypeError (kind_name v) field))
  end.

(** *** Encoding ([encode.go]) *)

Definition hexdigit (n : N) : ascii :=
  if (n <? 10)%N then chr (48 + n) else chr (87 + n).

Definition htmlSafe (c : ascii) : bool :=
  in_range 32 127 c
  && negb (Ascii.eqb c dquote) && negb (Ascii.eqb c backslash)
  && negb (Ascii.eqb c "&") && negb (Ascii.eqb c "<") && negb (Ascii.eqb c ">").

(** The characters of a string between the quotes that [appendString]
    writes, HTML escaping on.  [skip] counts the continuation bytes of a
    rune still to be copied, [drop] those of a rune written as an escape. *)
Fixpoint escape (skip drop : nat) (s : bytes) : bytes :=
  match s with
  | EmptyString => EmptyString
  | String c s' =>
    match drop with
    | S drop' => escape skip drop' s'
    | O =>
      match skip with
      | S skip' => String c (escape skip' 0 s')
      | O =>
        if (byte c <? 128)%N then
          if htmlSafe c then String c (escape 0 0 s')
          else
            (match byte c with
             | 92%N | 34%N => String backslash (str1 c)
             | 8%N => String backslash "b"
             | 12%N => String backslash "f"
             | 10%N => String backslash "n"
             | 13%N => String backslash "r"
             | 9%N => String backslash "t"
             | b => String backslash
                      (String "u" (String "0" (String "0"
                         (String (hexdigit (b / 16)) (str1 (hexdigit (b mod 16)))))))
             end) ++ escape 0 0 s'
        else
          match DecodeRune s with
          | (r, size) =>
            if (r =? RuneError)%N && Nat.eqb size 1
            then String backslash "ufffd" ++ escape 0 0 s'
            else if (r =? 8232)%N || (r =? 8233)%N
            then String backslash "u202" ++ str1 (hexdigit (r mod 16)) ++ escape 0 2 s'
            else String c (escape (size - 1) 0 s')
          end
      end
    end
  end.

Definition appendString (s : string) : bytes :=
  String dquote (escape 0 0 s) ++ str1 dquote.

Fixpoint join (sep : bytes) (l : list bytes) : bytes :=
  match l with
  | [] => ""
  | [x] => x
  | x :: l' => x ++ sep ++ join sep l'
  end.

(** The results of encoding the parts of a value, in order: the first
    error stops the encoder. *)
Fixpoint sequence {A : Type} (l : list (result A)) : result (list A) :=
  match l with
  | [] => Ok []
  | Ok a :: l' =>
    match sequence l' with
    | Ok r => Ok (a :: r)
    | Err e => Err e
    end
  | Err e :: _ => Err e
  end.

Fixpoint insert_sorted {V : Type} (kv : string * V) (l : list (string * V))
  : list (string * V) :=
  match l with
  | [] => [kv]
  | kv' :: l' =>
    if String.leb (fst kv) (fst kv') then kv :: l else kv' :: insert_sorted kv l'
  end.

(** Map entries are written in the order of their keys. *)
Definition sort_keys {V : Type} (l : list (string * V)) : list (string * V) :=
  fold_right insert_sorted [] l.

Definition member_bytes (kv : string * result bytes) : result bytes :=
  match snd kv with
  | Ok b => Ok (appendString (fst kv) ++ ":" ++ b)
  | Err e => Err e
  end.

(** The encoding of the value of an [interface{}]. *)
Fixpoint encode_any (v : any) : result bytes :=
  match v with
  | a_nil => Ok "null"
  | a_bool b => Ok (if b then "true" else "false")
  | a_float64 lit => Ok lit
  | a_int n => Ok (pretty n)
  | a_string s => Ok (appendString s)
  | a_slice l =>
    match sequence (map encode_any l) with
    | Ok bs => Ok ("[" ++ join "," bs ++ "]")
    | Err e => Err e
    end
  | a_map m =>
    match sequence (map member_bytes
                      (sort_keys (map (fun kv => match kv with (k, x) => (k, encode_any x) end) m))) with
    | Ok bs => Ok ("{" ++ join "," bs ++ "}")
    | Err e => Err e
    end
  | a_chan => Err (UnsupportedTypeError "chan")
  end.

(** [json.Marshal] of a non-nil [map[string]interface{}]. *)
Definition Marshal (m : list (string * any)) : result bytes := encode_any (a_map m).

End GoJSON.

(** ** payload.go: the message codec *)

Definition reqType := string.

(** Client -> Server *)
Definition gqlConnectionInit : reqType := "connection_init".
Definition gqlStart : reqType := "start".
Definition gqlStop : reqType := "stop".
Definition gqlConnectionTerminate : reqType := "connection_terminate".

(** Server -> Client *)
Definition gqlConnectionError : reqType := "connection_error".
Definition gqlConnectionAck : reqType := "connection_ack".
Definition gqlData : reqType := "data".
Definition gqlError : reqType := "error".
Definition gqlComplete : reqType := "complete".
Definition gqlConnectionKeepAlive : reqType := "connection_keep_alive".

(** [Request]: a payload sent from the client.  [Variables] is [None] for
    the nil map. *)
Record Request : Type := {
  Query : string;
  Variables : option (list (string * any));
  OperationName : string
}.

(** [Response]: a payload returned from the server.  [json.RawMessage] is
    a byte slice; no code of the package tells a nil [Data] from an empty
    one, and both are the empty byte string here.  [Errors] is [None] for
    the nil slice. *)
Record Response : Type := {
  Data : bytes;
  Errors : option (list bytes)
}.

Record ServerError : Type := {
  Msg : string
}.

(** [func (e *ServerError) Error() string]. *)
Definition ServerError_Error (e : ServerError) : string :=
  "internal server error: " ++ Msg e.

(** The [payload] interface: its implementers are [*Request], [*Response],
    [*ServerError] and [unknown].  The pointers are taken to be non-nil. *)
Inductive payload : Type :=
| PRequest (v : Request)
| PResponse (v : Response)
| PServerError (v : ServerError)
| Punknown (v : list (string * any)).

Definition opID := string.

(** [operationMessage]; [Payload] is [None] for the nil interface. *)
Record operationMessage : Type := {
  ID : opID;
  Type_ : reqType;
  Payload : option payload
}.

(** The anonymous struct [raw] of [UnmarshalJSON]. *)
Record rawMessage : Type := {
  raw_ID : opID;
  raw_Type : reqType;
  raw_Payload : bytes
}.

Definition new_rawMessage : rawMessage :=
  {| raw_ID := ""; raw_Type := ""; raw_Payload := "" |}.
Definition new_Request : Request :=
  {| Query := ""; Variables := None; OperationName := "" |}.
Definition new_Response : Response := {| Data := ""; Errors := None |}.
Definition new_ServerError : ServerError := {| Msg := "" |}.
Definition new_operationMessage : operationMessage :=
  {| ID := ""; Type_ := ""; Payload := None |}.

(** How [encoding/json] fills each struct, field by field (the [json]
    tags of the declarations). *)
Definition store_rawMessage (f : string) (rv : bytes * GoJSON.json) (s : rawMessage)
  : rawMessage * option error :=
  if String.eqb f "id" then
    let r := GoJSON.store_string "id" (snd rv) (raw_ID s) in
    ({| raw_ID := fst r; raw_Type := raw_Type s; raw_Payload := raw_Payload s |}, snd r)
  else if String.eqb f "type" then
    let r := GoJSON.store_string "type" (snd rv) (raw_Type s) in
    ({| raw_ID := raw_ID s; raw_Type := fst r; raw_Payload := raw_Payload s |}, snd r)
  else if String.eqb f "payload" then
    ({| raw_ID := raw_ID s; raw_Type := raw_Type s; raw_Payload := fst rv |}, None)
  else (s, None).

Definition store_Request (f : string) (rv : bytes * GoJSON.json) (s : Request)
  : Request * option error :=
  if String.eqb f "query" then
    let r := GoJSON.store_string "query" (snd rv) (Query s) in
    ({| Query := fst r; Variables := Variables s; OperationName := OperationName s |}, snd r)
  else if String.eqb f "variables" then
    let r := GoJSON.store_map "variables" (snd rv) (Variables s) in
    ({| Query := Query s; Variables := fst r; OperationName := OperationName s |}, snd r)
  else if String.eqb f "operationName" then
    let r := GoJSON.store_string "operationName" (snd rv) (OperationName s) in
    ({| Query := Query s; Variables := Variables s; OperationName := fst r |}, snd r)
  else (s, None).

Definition store_Response (f : string) (rv : bytes * GoJSON.json) (s : Response)
  : Response * option error :=
  if String.eqb f "data" then ({| Data := fst rv; Errors := Errors s |}, None)
  else if String.eqb f "errors" then
    let r := GoJSON.store_raw_slice "errors" (snd rv) (Errors s) in
    ({| Data := Data s; Errors := fst r |}, snd r)
  else (s, None).

Definition store_ServerError (f : string) (rv : bytes * GoJSON.json) (s : ServerError)
  : ServerError * option error :=
  if String.eqb f "msg" then
    let r := GoJSON.store_string "msg" (snd rv) (Msg s) in
    ({| Msg := fst r |}, snd r)
  else (s, None).

Definition Unmarshal_rawMessage := GoJSON.Unmarshal ["id"; "type"; "payload"] store_rawMessage.
Definition Unmarshal_Request :=
  GoJSON.Unmarshal ["query"; "variables"; "operationName"] store_Request.
Definition Unmarshal_Response := GoJSON.Unmarshal ["data"; "errors"] store_Response.
Definition Unmarshal_ServerError := GoJSON.Unmarshal ["msg"] store_ServerError.

(** A [case a, b, c:] of a switch on a string. *)
Definition case_of (t : string) (tags : list string) : bool :=
  existsb (String.eqb t) tags.

(** [func (m *operationMessage) UnmarshalJSON(b []byte) error]: the
    message after the call and the error returned. *)
Definition UnmarshalJSON (m : operationMessage) (b : bytes)
  : operationMessage * option error :=
  match Unmarshal_rawMessage b new_rawMessage with
  | (_, Some err) => (m, Some err)
  | (raw, None) =>
    let m := {| ID := ID m; Type_ := raw_Type raw; Payload := Payload m |} in
    let m := if negb (String.eqb (raw_ID raw) "")
             then {| ID := raw_ID raw; Type_ := Type_ m; Payload := Payload m |}
             else m in
    if Nat.eqb (String.length (raw_Payload raw)) 0 then (m, None)
    else if case_of (raw_Type raw)
              [gqlConnectionInit; gqlStart; gqlStop; gqlConnectionTerminate] then
      let r := Unmarshal_Request (raw_Payload raw) new_Request in
      ({| ID := ID m; Type_ := Type_ m; Payload := Some (PRequest (fst r)) |}, snd r)
    else if case_of (raw_Type raw)
              [gqlConnectionError; gqlConnectionAck; gqlData; gqlComplete;
               gqlConnectionKeepAlive] then
      let r := Unmarshal_Response (raw_Payload raw) new_Response in
      ({| ID := ID m; Type_ := Type_ m; Payload := Some (PResponse (fst r)) |}, snd r)
    else if case_of (raw_Type raw) [gqlError] then
      let r := Unmarshal_ServerError (raw_Payload raw) new_ServerError in
      ({| ID := ID m; Type_ := Type_ m; Payload := Some (PServerError (fst r)) |}, snd r)
    else (m, Some (Errorf ("unsupported message type: " ++ raw_Type raw)))
  end.

(** [json.Unmarshal(b, m)] for a [*operationMessage]: [checkValid], then
    the decoder finds the [Unmarshaler] and calls it on the bytes of the
    value, without the white space around it. *)
Definition json_Unmarshal (m : operationMessage) (b : bytes)
  : operationMessage * option error :=
  let s0 := GoJSON.skip_ws b in
  match GoJSON.value (GoJSON.fuel_for s0) 0 s0 with
  | GoJSON.Scanned _ r =>
    if String.eqb (GoJSON.skip_ws r) "" then UnmarshalJSON m (consumed s0 r)
    else (m, Some SyntaxError)
  | _ => (m, Some SyntaxError)
  end.

(** *** Writers

    [bytes.Buffer] behind [io.Writer]: a write appends and never fails.
    The encoder is a sequence of writes, threaded through a small state
    monad over the bytes written so far. *)

Definition W (A : Type) : Type := bytes -> A * bytes.

#[global] Instance W_ret : MRet W := fun A a b => (a, b).

#[global] Instance W_bind : MBind W :=
  fun A B k m b => match m b with (a, b') => k a b' end.

Definition ret {A : Type} (a : A) : W A := mret a.

Definition Write (p : bytes) : W unit := fun b => (tt, b ++ p).

Definition when (c : bool) (m : W unit) : W unit := if c then m else ret tt.

(** The loop [for i, err := range v.Errors] of [marshalPayload], with
    [l := len(v.Errors) - 1]. *)
Fixpoint range_Errors (l i : Z) (errs : list bytes) : W unit :=
  match errs with
  | [] => ret tt
  | err :: rest =>
    Write err;;
    when (i <? l)%Z (Write ",");;
    range_Errors l (i + 1)%Z rest
  end.

(** [func marshalPayload(w io.Writer, payload payload) error]. *)
Definition marshalPayload (p : payload) : W (option error) :=
  match p with
  | PRequest v =>
    Write (bq "{'query':'");;
    Write (Query v);;
    Write (bq "'");;
    err ← match Variables v with
          | Some vars =>
            Write (bq ",'variables':");;
            match GoJSON.Marshal vars with
            | Err err => ret (Some err)
            | Ok b => Write b;; ret None
            end
          | None => ret None
          end;
    match err with
    | Some err => ret (Some err)
    | None =>
      when (negb (String.eqb (OperationName v) ""))
           (Write (bq ",'operationName':'");;
            Write (OperationName v);;
            Write (bq "'"));;
      Write "}";;
      ret None
    end
  | PResponse v =>
    Write (bq "{'data':");;
    Write (Data v);;
    match Errors v with
    | Some errs =>
      Write (bq ",'errors':[");;
      range_Errors (Z.of_nat (length errs) - 1) 0 errs;;
      Write "]"
    | None => ret tt
    end;;
    Write "}";;
    ret None
  | PServerError v =>
    Write (bq "{'msg':'");;
    Write (Msg v);;
    Write (bq "'}");;
    ret None
  | Punknown _ => ret None
  end.

(** [func (m *operationMessage) MarshalJSON() ([]byte, error)]: the
    result of [marshalPayload] is dropped. *)
Definition MarshalJSON (m : operationMessage) : bytes * option error :=
  let prog : W unit :=
    Write "{";;
    when (negb (String.eqb (ID m) ""))
         (Write (bq "'id':'");;
          Write (ID m);;
          Write (bq "',"));;
    Write (bq "'type':'");;
    Write (Type_ m);;
    Write (bq "'");;
    match Payload m with
    | Some p =>
      Write (bq ",'payload':");;
      _ ← marshalPayload p;
      ret tt
    | None => ret tt
    end;;
    Write "}" in
  (snd (prog ""), None).

(** ** conn.go: the client connection *)

(** What a call does: it returns, or it panics. *)
Inductive outcome (A : Type) : Type :=
| Return (a : A)
| Panic (msg : string).
Arguments Return {A} a.
Arguments Panic {A} msg.

(** A channel of [struct{}]: closing it twice is a run-time panic. *)
Record chan : Type := {
  chan_cap : nat;
  chan_len : nat;
  chan_closed : bool
}.

Definition make_chan (cap : nat) : chan :=
  {| chan_cap := cap; chan_len := 0; chan_closed := false |}.

(** The builtin [close]. *)
Definition close (c : chan) : outcome chan :=
  if chan_closed c then Panic "close of closed channel"
  else Return {| chan_cap := chan_cap c; chan_len := chan_len c; chan_closed := true |}.

(** [*websocket.Conn] of nhooyr.io/websocket is an external collaborator:
    the connection code only needs its [Write] and its [Close], which
    return an error or nil and leave the transport in a new state. *)
Definition MessageBinary : N := 2.
Definition StatusNormalClosure : N := 1000.

Class Transport (T : Type) : Type := {
  ws_Write : T -> N -> bytes -> T * option error;
  ws_Close : T -> N -> string -> T * option error
}.

Section Conn.
Context {T : Type} `{Transport T}.

(** [Conn] is a client connection that should be closed by the client. *)
Record Conn : Type := {
  wc : T;
  done : chan
}.

Definition newConn (wc : T) : Conn := {| wc := wc; done := make_chan 1 |}.

(** [func (c *Conn) write(ctx, msg operationMessage) error]. *)
Definition write (c : Conn) (msg : operationMessage) : Conn * option error :=
  match MarshalJSON msg with
  | (_, Some err) => (c, Some err)
  | (b, None) =>
    let r := ws_Write (wc c) MessageBinary b in
    ({| wc := fst r; done := done c |}, snd r)
  end.

(** [func (c *Conn) Close() error]: closes the underlying WebSocket
    connection. *)
Definition Close (c : Conn) : outcome (Conn * option error) :=
  match close (done c) with
  | Panic msg => Panic msg
  | Return d =>
    let c := {| wc := wc c; done := d |} in
    match write c {| ID := ""; Type_ := gqlConnectionTerminate; Payload := None |} with
    | (c, Some err) => Return (c, Some err)
    | (c, None) =>
      let r := ws_Close (wc c) StatusNormalClosure "closed" in
      Return ({| wc := fst r; done := done c |}, snd r)
    end
  end.

End Conn.
Arguments Conn T : clear implicits.

(** A transport to run the connection on: a socket that records what was
    sent, whose peer may be gone, and that can be released once. *)
Record socket : Type := {
  sock_released : bool;
  sock_peer_gone : bool;
  sock_sent : list bytes
}.

#[global] Instance socket_Transport : Transport socket := {
  ws_Write s _ b :=
    if sock_released s then (s, Some (TransportError "use of closed connection"))
    else if sock_peer_gone s then (s, Some (TransportError "broken pipe"))
    else ({| sock_released := false; sock_peer_gone := false;
             sock_sent := sock_sent s ++ [b] |}, None);
  ws_Close s _ _ :=
    if sock_released s then (s, Some (TransportError "already closed"))
    else ({| sock_released := true; sock_peer_gone := sock_peer_gone s;
             sock_sent := sock_sent s |}, None)
}.

Definition dial (peer_gone : bool) : Conn socket :=
  newConn {| sock_released := false; sock_peer_gone := peer_gone; sock_sent := [] |}.

(** ** conn.go: dialing *)

(** [CompressionMode] is an integer type; its constants are numbered from
    zero in the order of their declaration. *)
Definition CompressionMode := Z.
Definition CompressionNoContextTakeover : CompressionMode := 0%Z.
Definition CompressionContextTakeover : CompressionMode := 1%Z.
Definition CompressionDisabled : CompressionMode := 2%Z.

(** [http.Header]; [None] is the nil map. *)
Definition http_Header := option (list (string * list string)).

Section Dial.
Context {T : Type} `{Transport T}.

(** [*http.Client] and [http.DefaultClient], of net/http. *)
Variable http_Client : Type.
Variable DefaultClient : http_Client.

(** The fields of the server's [options] that this file does not name. *)
Variable server_rest : Type.

Record dialOpts : Type := {
  client : http_Client;
  headers : http_Header;
  compression : CompressionMode;
  threshold : Z
}.

(** The struct [options] of the server side, of which [SetServer] sets
    the fields [mode] and [threshold]. *)
Record options : Type := {
  options_mode : CompressionMode;
  options_threshold : Z;
  options_rest : server_rest
}.

(** The implementers of [DialOption] in the package: [optionFn], a
    function on the options, and the struct [compression] with its fields
    [mode] and [threshold]. *)
Inductive DialOption : Type :=
| optionFn (f : dialOpts -> dialOpts)
| compression_ (mode : CompressionMode) (threshold : Z).

Definition SetDial (opt : DialOption) (opts : dialOpts) : dialOpts :=
  match opt with
  | optionFn f => f opts
  | compression_ mode thr =>
    {| client := client opts; headers := headers opts;
       compression := mode; threshold := thr |}
  end.

(** [func (opt compression) SetServer(opts *options)]. *)
Definition SetServer (mode : CompressionMode) (thr : Z) (opts : options) : options :=
  {| options_mode := mode; options_threshold := thr; options_rest := options_rest opts |}.

Definition WithCompression (mode : CompressionMode) (thr : Z) : DialOption :=
  compression_ mode thr.

Definition WithHTTPClient (c : http_Client) : DialOption :=
  optionFn (fun opts =>
              {| client := c; headers := headers opts;
                 compression := compression opts; threshold := threshold opts |}).

Definition WithHeaders (h : http_Header) : DialOption :=
  optionFn (fun opts =>
              {| client := client opts; headers := h;
                 compression := compression opts; threshold := threshold opts |}).

(** [websocket.DialOptions], as far as [Dial] fills it. *)
Record DialOptions : Type := {
  HTTPClient : http_Client;
  HTTPHeader : http_Header;
  Subprotocols : list string;
  DialOptions_CompressionMode : CompressionMode;
  CompressionThreshold : Z
}.

(** [websocket.Dial] of nhooyr.io/websocket: a transport or an error. *)
Variable websocket_Dial : string -> DialOptions -> T + error.

(** The options that [Dial] hands to [websocket.Dial]. *)
Definition dial_options (opts : list DialOption) : DialOptions :=
  let dopts :=
    fold_left (fun d opt => SetDial opt d) opts
      {| client := DefaultClient; headers := None;
         compression := 0%Z; threshold := 0%Z |} in
  {| HTTPClient := client dopts;
     HTTPHeader := headers dopts;
     Subprotocols := ["graphql-ws"];
     DialOptions_CompressionMode := compression dopts;
     CompressionThreshold := threshold dopts |}.

(** [func Dial(ctx, endpoint string, opts ...DialOption)]: the connection
    or the error. *)
Definition Dial (endpoint : string) (opts : list DialOption)
  : option (Conn T) * option error :=
  match websocket_Dial endpoint (dial_options opts) with
  | inr err => (None, Some err)
  | inl wc => (Some (newConn wc), None)
  end.

(** The options of the package as data: which of the three constructors
    made them, and with what. *)
Inductive option_spec : Type :=
| SHTTPClient (c : http_Client)
| SHeaders (h : http_Header)
| SCompression (mode : CompressionMode) (thr : Z).

Definition to_option (s : option_spec) : DialOption :=
  match s with
  | SHTTPClient c => WithHTTPClient c
  | SHeaders h => WithHeaders h
  | SCompression mode thr => WithCompression mode thr
  end.

(** The arguments of the options of each kind, in order. *)
Fixpoint clients (l : list option_spec) : list http_Client :=
  match l with
  | [] => []
  | SHTTPClient c :: l' => c :: clients l'
  | _ :: l' => clients l'
  end.

Fixpoint header_sets (l : list option_spec) : list http_Header :=
  match l with
  | [] => []
  | SHeaders h :: l' => h :: header_sets l'
  | _ :: l' => header_sets l'
  end.

Fixpoint compressions (l : list option_spec) : list (CompressionMode * Z) :=
  match l with
  | [] => []
  | SCompression mode thr :: l' => (mode, thr) :: compressions l'
  | _ :: l' => compressions l'
  end.

End Dial.

Arguments client {http_Client} d.
Arguments headers {http_Client} d.
Arguments compression {http_Client} d.
Arguments threshold {http_Client} d.
Arguments options_mode {server_rest} o.
Arguments options_threshold {server_rest} o.
Arguments options_rest {server_rest} o.
Arguments optionFn {http_Client} f.
Arguments compression_ {http_Client} mode threshold.
Arguments SetDial {http_Client} opt opts.
Arguments SetServer {server_rest} mode thr opts.
Arguments WithCompression {http_Client} mode thr.
Arguments WithHTTPClient {http_Client} c.
Arguments WithHeaders {http_Client} h.
Arguments HTTPClient {http_Client} d.
Arguments HTTPHeader {http_Client} d.
Arguments Subprotocols {http_Client} d.
Arguments DialOptions_CompressionMode {http_Client} d.
Arguments CompressionThreshold {http_Client} d.
Arguments dial_options {http_Client} DefaultClient opts.
Arguments Dial {T http_Client} DefaultClient websocket_Dial endpoint opts.
Arguments SHTTPClient {http_Client} c.
Arguments SHeaders {http_Client} h.
Arguments SCompression {http_Client} mode thr.
Arguments to_option {http_Client} s.
Arguments clients {http_Client} l.
Arguments header_sets {http_Client} l.
Arguments compressions {http_Client} l.

(** ** The client multiplexer *)

Module Client.

(** Connection-scoped errors. *)
Inductive conn_error : Type :=
| DecodeError (cause : error)
| UnexpectedMessage (m : operationMessage)
| IOError (cause : error).

(** What a [Submit] call returns. *)
Inductive op_result : Type :=
| Success (r : Response)
| OpError (e : ServerError)
| Canceled
| ConnError (e : conn_error).

Inductive phase : Type :=
| Unestablished
| Handshaking
| Ready
| Closed
| Faulted.

(** Modelled from the spec: the client multiplexer ([NewClient],
    [Client.Submit] / [Query] and its reader task), of which the sources
    hold only the tests.  The state of one client: its phase, the waiter
    registered for each outstanding operation (a single-assignment slot,
    [None] while empty), the stored fatal error, the [start] envelopes
    held back until the handshake is over, and the envelopes written. *)
Record client : Type := {
  state : phase;
  waiters : gmap opID (option op_result);
  fault : option conn_error;
  queued : list operationMessage;
  sent : list operationMessage
}.

(** Modelled from the spec: a client on a fresh connection. *)
Definition NewClient : client :=
  {| state := Unestablished; waiters := ∅; fault := None; queued := []; sent := [] |}.

(** A slot is fulfilled at most once. *)
Definition fulfil (r : op_result) (slot : option op_result) : option op_result :=
  match slot with
  | None => Some r
  | Some r' => Some r'
  end.

(** Modelled from the spec: the fatal broadcast.  The error is recorded
    as the terminal fault of the connection and delivered to every
    registered waiter. *)
Definition broadcast (st : phase) (e : conn_error) (c : client) : client :=
  {| state := st;
     waiters := fulfil (ConnError e) <$> waiters c;
     fault := Some e;
     queued := [];
     sent := sent c |}.

Definition deliver (id : opID) (r : op_result) (c : client) : client :=
  {| state := state c;
     waiters := alter (fulfil r) id (waiters c);
     fault := fault c;
     queued := queued c;
     sent := sent c |}.

(** Modelled from the spec: the reader's dispatch of a well-formed
    envelope by its type.  A [complete] whose id has no waiter is a
    no-op: its operation was resolved by the [data] before it. *)
Definition dispatch (c : client) (m : operationMessage) : client :=
  if String.eqb (Type_ m) gqlConnectionAck then
    match state c with
    | Handshaking =>
      {| state := Ready; waiters := waiters c; fault := None;
         queued := []; sent := sent c ++ queued c |}
    | _ => broadcast Faulted (UnexpectedMessage m) c
    end
  else if String.eqb (Type_ m) gqlConnectionError then
    broadcast Faulted (UnexpectedMessage m) c
  else if String.eqb (Type_ m) gqlConnectionKeepAlive then c
  else if case_of (Type_ m) [gqlData; gqlError; gqlComplete] then
    match waiters c !! ID m with
    | None =>
      if String.eqb (Type_ m) gqlComplete then c
      else broadcast Faulted (UnexpectedMessage m) c
    | Some _ =>
      match Payload m with
      | Some (PResponse r) => deliver (ID m) (Success r) c
      | Some (PServerError e) => deliver (ID m) (OpError e) c
      | _ =>
        if String.eqb (Type_ m) gqlComplete
        then deliver (ID m) (Success new_Response) c
        else broadcast Faulted (UnexpectedMessage m) c
      end
    end
  else broadcast Faulted (UnexpectedMessage m) c.

(** Modelled from the spec: one turn of the reader loop on what [read]
    returned, the bytes of a frame or a transport error.  Once the
    connection has a fault the loop has stopped. *)
Definition reader (c : client) (input : result bytes) : client :=
  match fault c with
  | Some _ => c
  | None =>
    match input with
    | Err e => broadcast Faulted (IOError e) c
    | Ok b =>
      match UnmarshalJSON new_operationMessage b with
      | (_, Some e) => broadcast Faulted (DecodeError e) c
      | (m, None) => dispatch c m
      end
    end
  end.

(** Modelled from the spec: the first half of [Submit], up to the point
    where the caller blocks: fail at once on a faulted connection, else
    allocate a fresh id, register the waiter and send (or hold back until
    [Ready]) the [start] envelope.  The first use starts the handshake. *)
Definition submit (c : client) (req : Request) : client * (opID + conn_error) :=
  match fault c with
  | Some e => (c, inr e)
  | None =>
    let id := fresh (dom (waiters c)) in
    let start := {| ID := id; Type_ := gqlStart; Payload := Some (PRequest req) |} in
    let init := {| ID := ""; Type_ := gqlConnectionInit; Payload := None |} in
    match state c with
    | Ready =>
      ({| state := Ready; waiters := <[id := None]> (waiters c); fault := None;
          queued := queued c; sent := sent c ++ [start] |}, inl id)
    | Unestablished =>
      ({| state := Handshaking; waiters := <[id := None]> (waiters c); fault := None;
          queued := queued c ++ [start]; sent := sent c ++ [init] |}, inl id)
    | st =>
      ({| state := st; waiters := <[id := None]> (waiters c); fault := None;
          queued := queued c ++ [start]; sent := sent c |}, inl id)
    end
  end.

(** Modelled from the spec: the second half of [Submit].  The caller of
    operation [id] is blocked ([None]) while its slot is empty; once the
    slot is fulfilled it unregisters the waiter and returns the result. *)
Definition await (c : client) (id : opID) : option (client * op_result) :=
  match waiters c !! id with
  | Some (Some r) =>
    Some ({| state := state c; waiters := delete id (waiters c); fault := fault c;
             queued := queued c; sent := sent c |}, r)
  | _ => None
  end.

(** Modelled from the spec: the context of the caller of [id] ends while
    it waits: [stop] is sent, the waiter is unregistered. *)
Definition cancel (c : client) (id : opID) : client :=
  match waiters c !! id with
  | Some None =>
    {| state := state c; waiters := delete id (waiters c); fault := fault c;
       queued := queued c;
       sent := sent c ++ [{| ID := id; Type_ := gqlStop; Payload := None |}] |}
  | _ => c
  end.

(** Modelled from the spec: [Close] on the client.  Operations in flight
    receive a closed-by-local-call I/O error. *)
Definition close_client (c : client) : client :=
  let terminate := {| ID := ""; Type_ := gqlConnectionTerminate; Payload := None |} in
  match fault c with
  | Some e =>
    {| state := Closed; waiters := waiters c; fault := Some e;
       queued := []; sent := sent c ++ [terminate] |}
  | None =>
    let c' := broadcast Closed (IOError (TransportError "closed")) c in
    {| state := Closed; waiters := waiters c'; fault := fault c';
       queued := []; sent := sent c ++ [terminate] |}
  end.

(** Everything that can happen to a client, in some interleaving. *)
Inductive event : Type :=
| Read (input : result bytes)
| Submit (req : Request)
| Await (id : opID)
| Cancel (id : opID)
| CloseClient.

Definition step (c : client) (ev : event) : client :=
  match ev with
  | Read input => reader c input
  | Submit req => fst (submit c req)
  | Await id => match await c id with Some (c', _) => c' | None => c end
  | Cancel id => cancel c id
  | CloseClient => close_client c
  end.

Definition run (c : client) (evs : list event) : client := fold_left step evs c.

(** The operations in flight: registered, slot still empty. *)
Definition in_flight (c : client) : gset opID :=
  dom (filter (fun kv => snd kv = None) (waiters c)).

End Client.

(** * The vocabulary of the properties *)

(** ** What the encoder writes *)

(** [x] occurs in [s] as a contiguous run of bytes. *)
Definition occurs_in (x s : bytes) : Prop := exists pre post, s = pre ++ x ++ post.

(** What [marshalPayload] writes for a [Response]. *)
Definition Response_bytes (v : Response) : bytes :=
  bq "{'data':" ++ Data v
  ++ match Errors v with
     | Some errs => bq ",'errors':[" ++ GoJSON.join "," errs ++ "]"
     | None => ""
     end
  ++ "}".

(** What [marshalPayload] writes for a [Request], and what it returns. *)
Definition Request_tail (v : Request) : bytes :=
  (if String.eqb (OperationName v) "" then ""
   else bq ",'operationName':'" ++ OperationName v ++ bq "'")
  ++ "}".

Definition Request_bytes (v : Request) : bytes :=
  bq "{'query':'" ++ Query v ++ bq "'"
  ++ match Variables v with
     | Some vars =>
       bq ",'variables':"
       ++ match GoJSON.Marshal vars with
          | Ok b => b ++ Request_tail v
          | Err _ => ""
          end
     | None => Request_tail v
     end.

Definition Request_error (v : Request) : option error :=
  match Variables v with
  | Some vars =>
    match GoJSON.Marshal vars with
    | Ok _ => None
    | Err e => Some e
    end
  | None => None
  end.

Definition ServerError_bytes (v : ServerError) : bytes :=
  bq "{'msg':'" ++ Msg v ++ bq "'}".

(** The bytes that [MarshalJSON] puts before the payload. *)
Definition envelope_head (m : operationMessage) : bytes :=
  "{"
  ++ (if String.eqb (ID m) "" then "" else bq "'id':'" ++ ID m ++ bq "',")
  ++ bq "'type':'" ++ Type_ m ++ bq "'".

(** ** Envelopes of the examples *)

(** A [start] envelope whose query holds a string argument. *)
Definition quoted_query : operationMessage :=
  {| ID := "1"; Type_ := gqlStart;
     Payload := Some (PRequest {| Query := bq "{ user(id: '1') { name } }";
                                  Variables := None; OperationName := "" |}) |}.

(** A [start] envelope without an id, whose query holds double quotes
    and braces. *)
Definition closing_query : operationMessage :=
  {| ID := ""; Type_ := gqlStart;
     Payload := Some (PRequest {| Query := bq "x'},'id':'y','z':{'a':'b";
                                  Variables := None; OperationName := "" |}) |}.

(** A [complete] envelope without a payload, whose id holds double
    quotes: a server echoes the id that the client chose. *)
Definition quoted_id : operationMessage :=
  {| ID := bq "1','payload':'p"; Type_ := gqlComplete; Payload := None |}.

(** A [start] envelope whose variables hold a Go [int]. *)
Definition int_variables : operationMessage :=
  {| ID := "1"; Type_ := gqlStart;
     Payload := Some (PRequest {| Query := "query($n: Int) { f(n: $n) }";
                                  Variables := Some [("n", a_int 1)];
                                  OperationName := "" |}) |}.

(** An envelope whose variables hold a channel. *)
Definition unmarshalable : operationMessage :=
  {| ID := "1"; Type_ := gqlStart;
     Payload := Some (PRequest {| Query := "q"; Variables := Some [("c", a_chan)];
                                  OperationName := "" |}) |}.

(** ** The members of an envelope *)

Definition envelope_fields : list string := ["id"; "type"; "payload"].

(** The field of the envelope that a member of the object selects. *)
Definition field_of (mem : bytes * (bytes * GoJSON.json)) : option string :=
  GoJSON.lookup_field envelope_fields (fst mem).

(** A member fits the envelope when the value it gives to [id] or [type]
    is a JSON string (or null); any value fits [payload], and any member
    fits that selects no field. *)
Definition fits_envelope (mem : bytes * (bytes * GoJSON.json)) : Prop :=
  match field_of mem with
  | Some f =>
    f = "payload"
    \/ match snd (snd mem) with
       | GoJSON.JString _ | GoJSON.JNull => True
       | _ => False
       end
  | None => True
  end.

(** The fields selected by the members of an object, in order. *)
Fixpoint fields_of (ms : list (bytes * (bytes * GoJSON.json))) : list string :=
  match ms with
  | [] => []
  | m :: ms' =>
    match field_of m with
    | Some f => f :: fields_of ms'
    | None => fields_of ms'
    end
  end.

Inductive variant : Type := VRequest | VResponse | VServerError | VUnknown.

Definition variant_of (p : payload) : variant :=
  match p with
  | PRequest _ => VRequest
  | PResponse _ => VResponse
  | PServerError _ => VServerError
  | Punknown _ => VUnknown
  end.

(** The variant that goes with each type of envelope. *)
Definition variant_for (t : reqType) : option variant :=
  if case_of t [gqlConnectionInit; gqlStart; gqlStop; gqlConnectionTerminate]
  then Some VRequest
  else if case_of t [gqlConnectionError; gqlConnectionAck; gqlData; gqlComplete;
                     gqlConnectionKeepAlive]
  then Some VResponse
  else if case_of t [gqlError] then Some VServerError
  else None.

Definition raw_step (acc : rawMessage * option error) (m : bytes * (bytes * GoJSON.json))
  : rawMessage * option error :=
  match GoJSON.lookup_field envelope_fields (fst m) with
  | None => acc
  | Some f =>
    let r := store_rawMessage f (snd m) (fst acc) in
    (fst r, GoJSON.saveError (snd acc) (snd r))
  end.

(** ** States of the client *)

Section ClientStates.
Import Client.

(** What holds of a client from the fault on: the fault is stored, no
    slot is empty, and the operations of [S] hold the fault. *)
Definition faulted (e : conn_error) (S : gset opID) (c : client) : Prop :=
  fault c = Some e
  /\ forall id slot, waiters c !! id = Some slot ->
       slot <> None /\ (id ∈ S -> slot = Some (ConnError e)).

(** Modelled from the spec: the well-formed envelopes that violate the
    sequencing of the protocol (UnexpectedMessage in the error taxonomy):
    a [connection_ack] or [connection_error] outside the handshake, a
    [connection_error] during it, and a [data] or [error] whose id has
    no registered waiter. *)
Definition unexpected (c : client) (m : operationMessage) : bool :=
  (case_of (Type_ m) [gqlConnectionAck; gqlConnectionError]
   && negb (match state c with Handshaking => true | _ => false end))
  || String.eqb (Type_ m) gqlConnectionError
  || (case_of (Type_ m) [gqlData; gqlError]
      && match waiters c !! ID m with None => true | Some _ => false end).

(** Modelled from the spec: the connection-fatal error, if any, that
    what [read] returned stands for on client [c]: an I/O failure (the
    peer closed, the connection dropped), a frame that does not decode,
    or an unexpected message.  This classifies the input; what the client
    does with it is [reader]. *)
Definition fatal (c : client) (input : result bytes) : option conn_error :=
  match input with
  | Err e => Some (IOError e)
  | Ok b =>
    match UnmarshalJSON new_operationMessage b with
    | (_, Some e) => Some (DecodeError e)
    | (m, None) => if unexpected c m then Some (UnexpectedMessage m) else None
    end
  end.

(** A client with two operations in flight. *)
Definition two_in_flight : client :=
  {| state := Ready;
     waiters := <["1" := None]> (<["2" := None]> ∅);
     fault := None; queued := []; sent := [] |}.

End ClientStates.

(** ** Texts read back *)

(** A byte that stands for itself between the quotes of a JSON string. *)
Definition plain_char (c : ascii) : bool :=
  (32 <=? byte c)%N && (byte c <? 128)%N
  && negb (Ascii.eqb c dquote) && negb (Ascii.eqb c backslash).

Fixpoint plain (s : bytes) : bool :=
  match s with
  | EmptyString => true
  | String c s' => plain_char c && plain s'
  end.

(** The keys of the object that a JSON text denotes, in order. *)
Definition object_keys (b : bytes) : option (list bytes) :=
  match GoJSON.parse b with
  | Some (GoJSON.JObject ms) => Some (map fst ms)
  | _ => None
  end.

(** The members of the object that [MarshalJSON] writes for [m], as the
    decoder reads them back, given what it reads for the payload. *)
Definition envelope_members (m : operationMessage) (pv : option (bytes * GoJSON.json))
  : list (bytes * (bytes * GoJSON.json)) :=
  (if String.eqb (ID m) "" then []
   else [("id", (String dquote (ID m ++ str1 dquote), GoJSON.JString (ID m)))])
  ++ [("type", (String dquote (Type_ m ++ str1 dquote), GoJSON.JString (Type_ m)))]
  ++ match pv with
     | Some rv => [("payload", rv)]
     | None => []
     end.

(** [s] between double quotes. *)
Definition quoted (s : bytes) : bytes := String dquote (s ++ str1 dquote).

(** The ten tags. *)
Definition known_tags : list reqType :=
  [gqlConnectionInit; gqlStart; gqlStop; gqlConnectionTerminate;
   gqlConnectionError; gqlConnectionAck; gqlData; gqlError; gqlComplete;
   gqlConnectionKeepAlive].

(** The type that [UnmarshalJSON] finds in the members of an object. *)
Definition decoded_type (ms : list (bytes * (bytes * GoJSON.json))) : reqType :=
  raw_Type (fst (fold_left raw_step ms (new_rawMessage, None))).

(** A byte that ends a number: here the comma, the brace and the
    bracket that follow a value. *)
Definition ends_number (c : ascii) : bool :=
  negb (GoJSON.isDigit c) && negb (Ascii.eqb c ".")
  && negb (Ascii.eqb c "e") && negb (Ascii.eqb c "E").

(** ** Well-formed envelopes *)

(** [s] is one JSON value with nothing around it, within the nesting
    limit when it sits [d] levels down. *)
Definition json_value (d : nat) (s : bytes) : Prop :=
  exists f v, GoJSON.value f d s = GoJSON.Scanned v "".

(** The variables survive [json.Marshal] followed by the decoding into a
    map, two levels down in an envelope. *)
Definition variables_round_trip (vars : list (string * any)) : Prop :=
  exists b f jv,
    GoJSON.Marshal vars = Ok b
    /\ GoJSON.value f 2 b = GoJSON.Scanned jv ""
    /\ GoJSON.store_map "variables" jv None = (Some vars, None).

(** A payload that [marshalPayload] writes as JSON: strings that need no
    escaping, raw values that are JSON values. *)
Definition well_formed_payload (p : payload) : Prop :=
  match p with
  | PRequest v =>
    plain (Query v) = true /\ plain (OperationName v) = true
    /\ match Variables v with
       | Some vars => variables_round_trip vars
       | None => True
       end
  | PResponse v =>
    json_value 2 (Data v)
    /\ match Errors v with
       | Some errs => Forall (json_value 3) errs
       | None => True
       end
  | PServerError v => plain (Msg v) = true
  | Punknown _ => False
  end.

(** An envelope whose payload, if any, is of the variant of its type. *)
Definition well_formed (m : operationMessage) : Prop :=
  plain (ID m) = true
  /\ match Payload m with
     | Some p => variant_for (Type_ m) = Some (variant_of p) /\ well_formed_payload p
     | None => plain (Type_ m) = true
     end.

(** What the decoder reads in the bytes of a payload. *)
Definition Request_members (v : Request) (jv : option GoJSON.json)
  : list (bytes * (bytes * GoJSON.json)) :=
  [("query", (String dquote (Query v ++ str1 dquote), GoJSON.JString (Query v)))]
  ++ match Variables v, jv with
     | Some vars, Some j =>
       [("variables", (match GoJSON.Marshal vars with Ok b => b | Err _ => "" end, j))]
     | _, _ => []
     end
  ++ (if String.eqb (OperationName v) "" then []
      else [("operationName",
             (String dquote (OperationName v ++ str1 dquote),
              GoJSON.JString (OperationName v)))]).

Definition Response_members (v : Response) (dv : GoJSON.json)
    (es : list (bytes * GoJSON.json)) : list (bytes * (bytes * GoJSON.json)) :=
  [("data", (Data v, dv))]
  ++ match Errors v with
     | Some errs => [("errors", ("[" ++ GoJSON.join "," errs ++ "]", GoJSON.JArray es))]
     | None => []
     end.

(** The keys that [marshalPayload] writes: [variables] and [errors] when
    the map and the slice are not nil, [operationName] when the name is
    not empty. *)
Definition payload_keys (p : payload) : list bytes :=
  match p with
  | PRequest v =>
    ["query"]
    ++ match Variables v with Some _ => ["variables"] | None => [] end
    ++ (if String.eqb (OperationName v) "" then [] else ["operationName"])
  | PResponse v =>
    ["data"] ++ match Errors v with Some _ => ["errors"] | None => [] end
  | PServerError _ => ["msg"]
  | Punknown _ => []
  end%list.

(** ** What the decoder takes from the members of an object *)

(** The members that select a field of the envelope, each with the field
    it selects, in order; the other members are left out. *)
Fixpoint selected (ms : list (bytes * (bytes * GoJSON.json)))
  : list (string * (bytes * GoJSON.json)) :=
  match ms with
  | [] => []
  | m :: ms' =>
    match field_of m with
    | Some f => (f, snd m) :: selected ms'
    | None => selected ms'
    end
  end.

(** One selected member stored into [raw]. *)
Definition selected_step (acc : rawMessage * option error)
    (fv : string * (bytes * GoJSON.json)) : rawMessage * option error :=
  let r := store_rawMessage (fst fv) (snd fv) (fst acc) in
  (fst r, GoJSON.saveError (snd acc) (snd r)).


(** ** Payloads that the encoder does not write as JSON *)

(** The payloads for which [marshalPayload] stops before the end or
    leaves a value out: those of type [unknown], for which its switch has
    no case; the requests whose variables [json.Marshal] rejects; and the
    responses without data, whose [Data] is nil or empty.  The query is
    taken without bytes that need escaping. *)
Definition truncated_payload (p : payload) : Prop :=
  match p with
  | Punknown _ => True
  | PRequest v =>
    plain (Query v) = true
    /\ exists vars e, Variables v = Some vars /\ GoJSON.Marshal vars = Err e
  | PResponse v => Data v = ""
  | PServerError _ => False
  end.

(** ** The payload, decoded from the value of its member *)

(** [json.Unmarshal(raw.Payload, p)] for a fresh payload [p] of the
    variant, on the JSON value that the bytes of [raw.Payload] denote:
    the payload and the error. *)
Definition decode_payload (x : variant) (v : GoJSON.json) : payload * option error :=
  match x with
  | VRequest =>
    let r := GoJSON.unmarshal_struct ["query"; "variables"; "operationName"]
               store_Request v new_Request in
    (PRequest (fst r), snd r)
  | VResponse =>
    let r := GoJSON.unmarshal_struct ["data"; "errors"] store_Response v new_Response in
    (PResponse (fst r), snd r)
  | VServerError =>
    let r := GoJSON.unmarshal_struct ["msg"] store_ServerError v new_ServerError in
    (PServerError (fst r), snd r)
  | VUnknown => (Punknown [], None)
  end.

(** ** Variables that survive the round trip *)

(** A string that [json.Marshal] writes between quotes as it is. *)
Fixpoint safe (s : string) : bool :=
  match s with
  | EmptyString => true
  | String c s' => GoJSON.htmlSafe c && safe s'
  end.

(** A JSON number literal. *)
Definition number_literal (lit : bytes) : bool :=
  match lit with
  | String c _ =>
    (Ascii.eqb c "-" || GoJSON.isDigit c)
    && match GoJSON.number_rest lit with
       | Some r => String.eqb r ""
       | None => false
       end
  | EmptyString => false
  end.

(** Keys in the order in which [json.Marshal] writes them. *)
Fixpoint ascending (l : list string) : bool :=
  match l with
  | k1 :: ((k2 :: _) as l') => String.leb k1 k2 && ascending l'
  | _ => true
  end.

Fixpoint distinct (l : list string) : bool :=
  match l with
  | [] => true
  | k :: l' => negb (existsb (String.eqb k) l') && distinct l'
  end.

(** The values that [valueInterface] can give back as they were: nil,
    booleans, numbers as [float64], strings that need no escaping, slices
    and maps of such values.  The entries of a map, an association list
    here, are in the order of their keys, no key twice. *)
Fixpoint canonical (v : any) : bool :=
  match v with
  | a_nil | a_bool _ => true
  | a_float64 lit => number_literal lit
  | a_int _ => false
  | a_string s => safe s
  | a_slice l => forallb canonical l
  | a_map m =>
    ascending (map fst m) && distinct (map fst m)
    && forallb (fun kv => safe (fst kv) && canonical (snd kv)) m
  | a_chan => false
  end.

(** How deep the slices and maps of a value are nested. *)
Fixpoint nesting (v : any) : nat :=
  match v with
  | a_slice l => S (fold_right (fun x n => Nat.max (nesting x) n) 0 l)
  | a_map m => S (fold_right (fun kv n => Nat.max (nesting (snd kv)) n) 0 m)
  | _ => 0
  end.

(** The text of a member of an object. *)
Definition member_text (m : bytes * (bytes * GoJSON.json)) : bytes :=
  quoted (fst m) ++ ":" ++ fst (snd m).

(** * Properties *)

(** ** Byte strings *)

Lemma append_cons (c : ascii) (s t : bytes) : String c s ++ t = String c (s ++ t).
Proof. reflexivity. Qed.

Lemma append_nil_l (s : bytes) : "" ++ s = s.
Proof. reflexivity. Qed.

Lemma append_assoc (s1 s2 s3 : bytes) : (s1 ++ s2) ++ s3 = s1 ++ (s2 ++ s3).
Proof.
  induction s1 as [|c s1 IH]; [reflexivity|].
  now rewrite !append_cons, IH.
Qed.

Lemma append_nil_r (s : bytes) : s ++ "" = s.
Proof.
  induction s as [|c s IH]; [reflexivity|].
  now rewrite append_cons, IH.
Qed.

Lemma length_append (s1 s2 : bytes) :
  String.length (s1 ++ s2) = String.length s1 + String.length s2.
Proof.
  induction s1 as [|c s1 IH]; [reflexivity|].
  rewrite append_cons. simpl. now rewrite IH.
Qed.

Lemma occurs_in_append_l (x s t : bytes) : occurs_in x s -> occurs_in x (t ++ s).
Proof.
  intros (pre & post & ->). exists (t ++ pre), post. now rewrite append_assoc.
Qed.

Lemma occurs_in_append_r (x s t : bytes) : occurs_in x s -> occurs_in x (s ++ t).
Proof.
  intros (pre & post & ->). exists pre, (post ++ t). now rewrite !append_assoc.
Qed.

Lemma occurs_in_here (x post : bytes) : occurs_in x (x ++ post).
Proof. now exists "", post. Qed.

Lemma occurs_in_join (sep x : bytes) (l : list bytes) :
  In x l -> occurs_in x (GoJSON.join sep l).
Proof.
  induction l as [|y l IH]; [intros []|].
  intros [->|Hin].
  - destruct l as [|z l]; simpl.
    + exists "", "". now rewrite append_nil_r.
    + apply occurs_in_here.
  - destruct l as [|z l]; [destruct Hin|].
    change (GoJSON.join sep (y :: z :: l)) with (y ++ sep ++ GoJSON.join sep (z :: l)).
    now apply occurs_in_append_l, occurs_in_append_l, IH.
Qed.

(** ** The encoder as a function of the bytes already written *)

Lemma range_Errors_join (errs : list bytes) (l i : Z) (b : bytes) :
  l = (i + Z.of_nat (length errs) - 1)%Z ->
  range_Errors l i errs b = (tt, b ++ GoJSON.join "," errs).
Proof.
  revert i b. induction errs as [|e errs IH]; intros i b Hl.
  - simpl. unfold ret, mret, W_ret. now rewrite append_nil_r.
  - cbn [range_Errors]. unfold mbind, W_bind, Write, when.
    destruct errs as [|e' errs].
    + replace (i <? l)%Z with false by (symmetry; apply Z.ltb_ge; simpl in Hl; lia).
      reflexivity.
    + replace (i <? l)%Z with true
        by (symmetry; apply Z.ltb_lt; cbn [length] in Hl; lia).
      rewrite IH by (cbn [length] in *; lia).
      change (GoJSON.join "," (e :: e' :: errs))
        with (e ++ "," ++ GoJSON.join "," (e' :: errs)).
      now rewrite !append_assoc.
Qed.

Lemma marshalPayload_Response (v : Response) (b : bytes) :
  marshalPayload (PResponse v) b = (None, b ++ Response_bytes v).
Proof.
  unfold marshalPayload, Response_bytes, mbind, W_bind, Write, ret, mret, W_ret.
  destruct (Errors v) as [errs|].
  - rewrite (range_Errors_join errs) by lia. now rewrite !append_assoc.
  - now rewrite !append_assoc.
Qed.

Lemma marshalPayload_Request (v : Request) (b : bytes) :
  marshalPayload (PRequest v) b = (Request_error v, b ++ Request_bytes v).
Proof.
  unfold marshalPayload, Request_bytes, Request_error, Request_tail, when,
    mbind, W_bind, Write, ret, mret, W_ret.
  destruct (Variables v) as [vars|]; [destruct (GoJSON.Marshal vars)|];
    destruct (String.eqb (OperationName v) ""); cbn [negb];
    now rewrite ?append_assoc, ?append_nil_r.
Qed.

Lemma marshalPayload_ServerError (v : ServerError) (b : bytes) :
  marshalPayload (PServerError v) b = (None, b ++ ServerError_bytes v).
Proof.
  unfold marshalPayload, ServerError_bytes, mbind, W_bind, Write, ret, mret, W_ret.
  now rewrite !append_assoc.
Qed.

(** The bytes of a payload do not depend on what was written before. *)
Lemma marshalPayload_append (p : payload) (b : bytes) :
  marshalPayload p b = (fst (marshalPayload p ""), b ++ snd (marshalPayload p "")).
Proof.
  destruct p as [v|v|v|v].
  - now rewrite !marshalPayload_Request.
  - now rewrite !marshalPayload_Response.
  - now rewrite !marshalPayload_ServerError.
  - cbn. unfold ret, mret, W_ret. now rewrite append_nil_r.
Qed.

Lemma MarshalJSON_bytes (m : operationMessage) :
  fst (MarshalJSON m)
  = envelope_head m
    ++ match Payload m with
       | Some p => bq ",'payload':" ++ snd (marshalPayload p "")
       | None => ""
       end
    ++ "}".
Proof.
  unfold MarshalJSON, envelope_head, when, mbind, W_bind, Write, ret, mret, W_ret.
  cbn [fst snd].
  destruct (String.eqb (ID m) ""); cbn [negb];
    (destruct (Payload m) as [p|];
     [ rewrite (marshalPayload_append p); cbn [fst snd] | ]);
    now rewrite ?append_assoc, ?append_nil_r.
Qed.

(** ** The codec on the cases of the package's tests *)

Example MarshalJSON_test_full_request :
  MarshalJSON {| ID := "1"; Type_ := gqlStart;
                 Payload := Some (PRequest {| Query := "{ hello { world } }";
                                              Variables := Some [("hello", a_string "world")];
                                              OperationName := "Test" |}) |}
  = (bq "{'id':'1','type':'start','payload':{'query':'{ hello { world } }','variables':{'hello':'world'},'operationName':'Test'}}",
     None).
Proof. vm_compute. reflexivity. Qed.

Example UnmarshalJSON_test_unordered :
  UnmarshalJSON new_operationMessage
    (bq "{ 'id': '1', 'payload': { 'query': '{ hello { world } }' }, 'type': 'start' }")
  = ({| ID := "1"; Type_ := gqlStart;
        Payload := Some (PRequest {| Query := "{ hello { world } }";
                                     Variables := None; OperationName := "" |}) |},
     None).
Proof. vm_compute. reflexivity. Qed.

Example round_trip_test_all_fields :
  let e := {| ID := "1"; Type_ := gqlStart;
              Payload := Some (PRequest {| Query := "{ hello { world } }";
                                           Variables := None; OperationName := "" |}) |} in
  UnmarshalJSON new_operationMessage (fst (MarshalJSON e)) = (e, None).
Proof. vm_compute. reflexivity. Qed.

Example malformed_test_messages :
  UnmarshalJSON new_operationMessage (bq "{'type':'connection_ack'")
  = (new_operationMessage, Some SyntaxError)
  /\ UnmarshalJSON new_operationMessage (bq "{'type':'data','payload'}")
     = (new_operationMessage, Some SyntaxError).
Proof. split; vm_compute; reflexivity. Qed.

(** ** C2, C3: Close *)

(** C2 (fails on the code): on every connection and every transport, once
    a call of [Close] has returned, a second call of [Close] panics, for
    it closes the channel [done] again. *)
Theorem Close_twice_panics {T : Type} `{Transport T} (c c' : Conn T) (err : option error) :
  Close c = Return (c', err) -> Close c' = Panic "close of closed channel".
Proof.
  unfold Close, close.
  destruct (chan_closed (done c)) eqn:Hc; [discriminate|].
  unfold write.
  destruct (MarshalJSON _) as [b [e|]]; [intros [= <- _]; reflexivity|].
  cbn [wc done].
  destruct (ws_Write _ _ _) as [w [e|]]; cbn [fst snd wc done].
  - intros [= <- _]. reflexivity.
  - destruct (ws_Close _ _ _) as [w' e']. intros [= <- _]. reflexivity.
Qed.

Lemma Close_twice_panics_witness :
  Close (dial false)
  = Return ({| wc := {| sock_released := true; sock_peer_gone := false;
                        sock_sent := [bq "{'type':'connection_terminate'}"] |};
               done := {| chan_cap := 1; chan_len := 0; chan_closed := true |} |}, None)
  /\ Close {| wc := {| sock_released := true; sock_peer_gone := false;
                       sock_sent := [bq "{'type':'connection_terminate'}"] |};
              done := {| chan_cap := 1; chan_len := 0; chan_closed := true |} |}
     = Panic "close of closed channel".
Proof.
  split; [reflexivity|].
  apply (Close_twice_panics (dial false) _ None). reflexivity.
Defined.

(** C3 (fails on the code): when the write of the [connection_terminate]
    envelope fails, [Close] returns that error at once.  The transport is
    left in the state in which the failed write left it: its [Close] is
    not called. *)
Theorem Close_write_error_skips_release {T : Type} `{Transport T}
    (c : Conn T) (w : T) (e : error) :
  chan_closed (done c) = false ->
  ws_Write (wc c) MessageBinary (bq "{'type':'connection_terminate'}") = (w, Some e) ->
  Close c
  = Return ({| wc := w;
               done := {| chan_cap := chan_cap (done c); chan_len := chan_len (done c);
                          chan_closed := true |} |},
            Some e).
Proof.
  intros Hopen Hw. unfold Close, close. rewrite Hopen.
  unfold write.
  change (MarshalJSON {| ID := ""; Type_ := gqlConnectionTerminate; Payload := None |})
    with (bq "{'type':'connection_terminate'}", @None error).
  cbn [wc done]. rewrite Hw. reflexivity.
Qed.

Lemma Close_write_error_skips_release_witness :
  Close (dial true)
  = Return ({| wc := {| sock_released := false; sock_peer_gone := true; sock_sent := [] |};
               done := {| chan_cap := 1; chan_len := 0; chan_closed := true |} |},
            Some (TransportError "broken pipe")).
Proof.
  apply (Close_write_error_skips_release (dial true)); reflexivity.
Defined.

(** ** C7: raw values *)

(** C7: for every envelope that carries a [Response], the payload is
    written as the literal [data] key followed by the bytes of [Data],
    then, when [Errors] is not nil, by the elements of [Errors] as they
    are, separated by commas; so the bytes of [Data] and of every element
    of [Errors] occur unchanged in the output of [MarshalJSON]. *)
Theorem Response_raw_values_verbatim (m : operationMessage) (v : Response) :
  Payload m = Some (PResponse v) ->
  marshalPayload (PResponse v) ""
  = (None,
     bq "{'data':" ++ Data v
     ++ match Errors v with
        | Some errs => bq ",'errors':[" ++ GoJSON.join "," errs ++ "]"
        | None => ""
        end
     ++ "}")
  /\ fst (MarshalJSON m)
     = envelope_head m ++ bq ",'payload':" ++ snd (marshalPayload (PResponse v) "") ++ "}"
  /\ occurs_in (Data v) (fst (MarshalJSON m))
  /\ (forall errs e, Errors v = Some errs -> In e errs ->
        occurs_in e (fst (MarshalJSON m))).
Proof.
  intros Hp.
  assert (Hb : fst (MarshalJSON m)
               = envelope_head m ++ bq ",'payload':"
                 ++ snd (marshalPayload (PResponse v) "") ++ "}").
  { rewrite MarshalJSON_bytes, Hp. now rewrite !append_assoc. }
  split; [apply marshalPayload_Response|].
  split; [exact Hb|].
  rewrite Hb, marshalPayload_Response. cbn [snd]. unfold Response_bytes.
  split.
  - do 2 apply occurs_in_append_l. apply occurs_in_append_r.
    rewrite append_nil_l. apply occurs_in_append_l, occurs_in_here.
  - intros errs e -> Hin.
    do 2 apply occurs_in_append_l. apply occurs_in_append_r.
    rewrite append_nil_l. do 2 apply occurs_in_append_l.
    apply occurs_in_append_r, occurs_in_append_l, occurs_in_append_r.
    now apply occurs_in_join.
Qed.

Lemma Response_raw_values_verbatim_witness :
  occurs_in (bq "{'hello':{'world':'test'}}")
    (fst (MarshalJSON
            {| ID := "1"; Type_ := gqlData;
               Payload := Some (PResponse {| Data := bq "{'hello':{'world':'test'}}";
                                             Errors := Some [bq "{'msg':'test'}"] |}) |})).
Proof.
  apply (Response_raw_values_verbatim
           {| ID := "1"; Type_ := gqlData;
              Payload := Some (PResponse {| Data := bq "{'hello':{'world':'test'}}";
                                            Errors := Some [bq "{'msg':'test'}"] |}) |}
           {| Data := bq "{'hello':{'world':'test'}}";
              Errors := Some [bq "{'msg':'test'}"] |}).
  reflexivity.
Defined.

(** ** C10: the error of the payload encoder *)

(** C10: [MarshalJSON] returns a nil error for every message.  When
    [json.Marshal] rejects the variables, [marshalPayload] stops and
    returns the error, [MarshalJSON] drops it, and the bytes returned are
    not a JSON text. *)
Theorem MarshalJSON_never_fails :
  (forall m : operationMessage, snd (MarshalJSON m) = None)
  /\ fst (marshalPayload (PRequest {| Query := "q"; Variables := Some [("c", a_chan)];
                                      OperationName := "" |}) "")
     = Some (UnsupportedTypeError "chan")
  /\ MarshalJSON unmarshalable
     = (bq "{'id':'1','type':'start','payload':{'query':'q','variables':}", None)
  /\ GoJSON.parse (fst (MarshalJSON unmarshalable)) = None.
Proof.
  split; [reflexivity|].
  repeat split; vm_compute; reflexivity.
Qed.

(** ** C8: the order of the fields, and the variant of the payload *)

Lemma lookup_field_envelope (k f : bytes) :
  GoJSON.lookup_field envelope_fields k = Some f ->
  f = "id" \/ f = "type" \/ f = "payload".
Proof.
  unfold GoJSON.lookup_field, envelope_fields. cbn [find].
  repeat match goal with
         | |- context [if ?c then _ else _] => destruct c
         end; intros [=]; auto.
Qed.

Lemma raw_step_comm (acc : rawMessage * option error)
    (x y : bytes * (bytes * GoJSON.json)) :
  fits_envelope x -> fits_envelope y ->
  (forall f, field_of x = Some f -> field_of y = Some f -> False) ->
  raw_step (raw_step acc x) y = raw_step (raw_step acc y) x.
Proof.
  unfold fits_envelope, field_of, raw_step. intros Hx Hy Hne.
  destruct (GoJSON.lookup_field envelope_fields (fst x)) as [fx|] eqn:Ex;
    destruct (GoJSON.lookup_field envelope_fields (fst y)) as [fy|] eqn:Ey;
    try reflexivity.
  apply lookup_field_envelope in Ex, Ey.
  destruct acc as [s e], x as [kx [rx vx]], y as [ky [ry vy]]. cbn [fst snd] in *.
  destruct Ex as [->|[->| ->]], Ey as [->|[->| ->]];
    try (exfalso; apply (Hne _ eq_refl eq_refl));
    destruct Hx as [Hx|Hx]; try discriminate Hx;
    destruct Hy as [Hy|Hy]; try discriminate Hy;
    destruct vx; try contradiction; destruct vy; try contradiction;
    destruct e; reflexivity.
Qed.

Lemma fields_of_permutation (ms1 ms2 : list (bytes * (bytes * GoJSON.json))) :
  Permutation ms1 ms2 -> Permutation (fields_of ms1) (fields_of ms2).
Proof.
  induction 1; cbn [fields_of];
    repeat match goal with |- context [field_of ?a] => destruct (field_of a) end;
    eauto using Permutation.
Qed.

Lemma raw_fold_permutation (ms1 ms2 : list (bytes * (bytes * GoJSON.json))) :
  Permutation ms1 ms2 ->
  NoDup (fields_of ms1) ->
  Forall fits_envelope ms1 ->
  forall acc, fold_left raw_step ms1 acc = fold_left raw_step ms2 acc.
Proof.
  induction 1 as [|x l l' Hp IH|x y l|l l' l'' Hp1 IH1 Hp2 IH2]; intros Hnd Hok acc.
  - reflexivity.
  - cbn [fold_left]. apply IH.
    + cbn [fields_of] in Hnd. destruct (field_of x); [now apply NoDup_cons_1_2 in Hnd|exact Hnd].
    + now apply Forall_inv_tail in Hok.
  - cbn [fold_left]. f_equal.
    apply Forall_inv in Hok as Hy. apply Forall_inv_tail, Forall_inv in Hok as Hx.
    apply raw_step_comm; [assumption..|].
    intros f Ey Ex. cbn [fields_of] in Hnd. rewrite Ex, Ey in Hnd.
    apply NoDup_cons_1_1 in Hnd. apply Hnd. now left.
  - rewrite IH1 by assumption. apply IH2.
    + now rewrite <- (fields_of_permutation _ _ Hp1).
    + now rewrite <- Hp1.
Qed.

(** C8: two JSON texts whose top-level objects have the same members in
    a different order, each field of the envelope selected by at most one
    member and [id] and [type] given as strings, are decoded to the same
    message with the same error; and the variant of the payload of a
    decoded message is the one that goes with its type. *)
Theorem decoding_order_and_variant :
  (forall (m : operationMessage) (b1 b2 : bytes)
          (ms1 ms2 : list (bytes * (bytes * GoJSON.json))),
      GoJSON.parse b1 = Some (GoJSON.JObject ms1) ->
      GoJSON.parse b2 = Some (GoJSON.JObject ms2) ->
      Permutation ms1 ms2 ->
      NoDup (fields_of ms1) ->
      Forall fits_envelope ms1 ->
      UnmarshalJSON m b1 = UnmarshalJSON m b2)
  /\ (forall (b : bytes) (m' : operationMessage) (err : option error) (p : payload),
      UnmarshalJSON new_operationMessage b = (m', err) ->
      Payload m' = Some p ->
      variant_for (Type_ m') = Some (variant_of p)).
Proof.
  split.
  - intros m b1 b2 ms1 ms2 H1 H2 Hperm Hnd Hok.
    unfold UnmarshalJSON, Unmarshal_rawMessage, GoJSON.Unmarshal.
    rewrite H1, H2. unfold GoJSON.unmarshal_struct.
    change (fold_left raw_step ms1 (new_rawMessage, None))
      with (fold_left raw_step ms1 (new_rawMessage, @None error)).
    now rewrite (raw_fold_permutation ms1 ms2 Hperm Hnd Hok).
  - intros b m' err p. unfold UnmarshalJSON, variant_for.
    destruct (Unmarshal_rawMessage b new_rawMessage) as [raw [e|]].
    + intros [= <- _]. discriminate.
    + cbv zeta.
      destruct (negb (String.eqb (raw_ID raw) "")); cbn [ID Type_ Payload];
        (destruct (Nat.eqb _ 0); [intros [= <- _]; discriminate|]);
        (destruct (case_of (raw_Type raw) [gqlConnectionInit; _; _; _]) eqn:E1;
         [intros [= <- _] [= <-]; cbn [Type_]; now rewrite E1|]);
        (destruct (case_of (raw_Type raw) [gqlConnectionError; _; _; _; _]) eqn:E2;
         [intros [= <- _] [= <-]; cbn [Type_]; now rewrite E1, E2|]);
        (destruct (case_of (raw_Type raw) [gqlError]) eqn:E3;
         [intros [= <- _] [= <-]; cbn [Type_]; now rewrite E1, E2, E3|]);
        intros [= <- _]; discriminate.
Qed.

Lemma decoding_order_and_variant_witness :
  UnmarshalJSON new_operationMessage
    (bq "{'id':'1','type':'start','payload':{'query':'{ hello { world } }'}}")
  = UnmarshalJSON new_operationMessage
      (bq "{ 'id': '1', 'payload':{'query':'{ hello { world } }'}, 'type' : 'start' }")
  /\ variant_for gqlStart = Some VRequest.
Proof.
  split.
  - eapply (proj1 decoding_order_and_variant).
    + vm_compute. reflexivity.
    + vm_compute. reflexivity.
    + apply perm_skip, perm_swap.
    + apply (bool_decide_unpack _). vm_compute. exact I.
    + repeat (constructor; [vm_compute; auto|]). constructor.
  - apply (proj2 decoding_order_and_variant
             (bq "{'id':'1','type':'start','payload':{'query':'{ hello { world } }'}}")
             {| ID := "1"; Type_ := gqlStart;
                Payload := Some (PRequest {| Query := "{ hello { world } }";
                                             Variables := None; OperationName := "" |}) |}
             None (PRequest {| Query := "{ hello { world } }"; Variables := None;
                               OperationName := "" |})).
    + vm_compute. reflexivity.
    + reflexivity.
Defined.

(** ** The scanner always has enough fuel *)

Section Scanner.
Import GoJSON.

Lemma skip_ws_length (s : bytes) : String.length (skip_ws s) <= String.length s.
Proof.
  induction s as [|c s IH]; [reflexivity|].
  cbn [skip_ws]. destruct (isSpace c); cbn [String.length]; lia.
Qed.

Lemma skip_digits_length (s : bytes) : String.length (skip_digits s) <= String.length s.
Proof.
  induction s as [|c s IH]; [reflexivity|].
  cbn [skip_digits]. destruct (isDigit c); cbn [String.length]; lia.
Qed.

Lemma digits1_length (s r : bytes) :
  digits1 s = Some r -> String.length r < String.length s.
Proof.
  destruct s as [|c s]; [discriminate|]. cbn [digits1].
  destruct (isDigit c); [|discriminate]. intros [= <-].
  pose proof (skip_digits_length s). cbn [String.length]. lia.
Qed.

Lemma num_sign_length (s : bytes) : String.length (num_sign s) <= String.length s.
Proof.
  destruct s as [|c s]; [reflexivity|]. cbn [num_sign].
  destruct (Ascii.eqb c "-"); cbn [String.length]; lia.
Qed.

Lemma num_int_length (s r : bytes) :
  num_int s = Some r -> String.length r < String.length s.
Proof.
  destruct s as [|c s]; [discriminate|]. cbn [num_int String.length].
  destruct (Ascii.eqb c "0"); [intros [= <-]; lia|].
  destruct (isDigit c); [|discriminate].
  intros [= <-]. pose proof (skip_digits_length s). lia.
Qed.

Lemma num_frac_length (s r : bytes) :
  num_frac s = Some r -> String.length r <= String.length s.
Proof.
  destruct s as [|c s]; [intros [= <-]; lia|]. cbn [num_frac].
  destruct (Ascii.eqb c "."); [|intros [= <-]; lia].
  intros Hd%digits1_length. cbn [String.length]. lia.
Qed.

Lemma num_exp_length (s r : bytes) :
  num_exp s = Some r -> String.length r <= String.length s.
Proof.
  destruct s as [|c s]; [intros [= <-]; lia|]. cbn [num_exp].
  destruct (_ || _); [|intros [= <-]; lia].
  destruct s as [|g s']; [discriminate|].
  destruct (_ || _); intros Hd%digits1_length; cbn [String.length] in *; lia.
Qed.

Lemma number_rest_length (s r : bytes) :
  number_rest s = Some r -> String.length r < String.length s.
Proof.
  unfold number_rest. pose proof (num_sign_length s).
  destruct (num_int _) as [s2|] eqn:E2; [|discriminate].
  destruct (num_frac _) as [s3|] eqn:E3; [|discriminate].
  intros E4. apply num_int_length in E2. apply num_frac_length in E3.
  apply num_exp_length in E4. lia.
Qed.

Lemma strip_prefix_length (p s r : bytes) :
  strip_prefix p s = Some r -> String.length s = String.length p + String.length r.
Proof.
  revert s. induction p as [|a p IH]; intros s.
  - now intros [= <-].
  - destruct s as [|b s]; [discriminate|]. cbn [strip_prefix].
    destruct (Ascii.eqb a b); [|discriminate].
    intros Hs%IH. cbn [String.length]. lia.
Qed.

Lemma emit_Some (o : bytes) (x : option (bytes * bytes)) (v r : bytes) :
  emit o x = Some (v, r) -> exists v', x = Some (v', r) /\ v = o ++ v'.
Proof.
  destruct x as [[v' r']|]; [|discriminate]. intros [= <- <-]. eauto.
Qed.

Lemma string_body_length (n : nat) :
  forall (s : bytes) (skip drop : nat) (v r : bytes),
    String.length s <= n ->
    string_body skip drop s = Some (v, r) -> String.length r < String.length s.
Proof.
  induction n as [|n IH]; intros s skip drop v r Hn.
  - destruct s; [discriminate|cbn [String.length] in Hn; lia].
  - destruct s as [|c s']; [discriminate|].
    cbn [String.length] in Hn. cbn [string_body].
    assert (Hrec : forall t k d o w, String.length t <= String.length s' ->
                     emit o (string_body k d t) = Some (w, r) ->
                     String.length r < String.length (String c s')).
    { intros t k d o w Ht (w' & Hb & _)%emit_Some.
      apply IH in Hb; [|lia]. cbn [String.length]. lia. }
    destruct drop as [|drop'].
    2:{ intros Hb%IH; [|lia]. cbn [String.length]. lia. }
    destruct skip as [|skip'].
    2:{ now apply Hrec. }
    destruct (Ascii.eqb c dquote); [intros [= _ <-]; cbn [String.length]; lia|].
    destruct (Ascii.eqb c backslash).
    + destruct s' as [|e s'']; [discriminate|]. cbn [String.length] in *.
      destruct (Ascii.eqb e "u").
      * destruct s'' as [|h1 [|h2 [|h3 [|h4 s3]]]]; try discriminate.
        cbn [String.length] in *.
        destruct (getu4 h1 h2 h3 h4) as [rr|]; [|discriminate].
        destruct (is_surrogate rr); [destruct (next_u4 s3) as [rr1|]|];
          [destruct (_ =? _)%N|..]; apply Hrec; lia.
      * destruct (simple_escape e); [|discriminate]. apply Hrec. lia.
    + destruct (_ <? 32)%N; [discriminate|].
      destruct (_ <? 128)%N; [now apply Hrec|].
      destruct (DecodeRune (String c s')) as [rn size].
      destruct (_ && _); now apply Hrec.
Qed.

(** A scanned value, array or object takes at least one byte. *)
Lemma scan_consumes (fuel : nat) :
  (forall d s v r, value fuel d s = Scanned v r -> String.length r < String.length s)
  /\ (forall d s es r, elems fuel d s = Scanned es r -> String.length r < String.length s)
  /\ (forall d s ms r, members fuel d s = Scanned ms r -> String.length r < String.length s).
Proof.
  induction fuel as [|fuel (IHv & IHe & IHm)]; [repeat split; discriminate|].
  repeat split.
  - intros d s v r. cbn [value].
    destruct s as [|c s']; [discriminate|]. cbn [String.length].
    pose proof (skip_ws_length s') as Hws.
    destruct (Ascii.eqb c "{").
    { destruct (Nat.ltb _ _); [discriminate|].
      destruct (skip_ws s') as [|c1 r1] eqn:E; [discriminate|].
      destruct (Ascii.eqb c1 "}"); [intros [= _ <-]; cbn [String.length] in Hws; lia|].
      destruct (members _ _ _) as [ms r'| |] eqn:Em; try discriminate.
      intros [= _ <-]. apply IHm in Em. lia. }
    destruct (Ascii.eqb c "[").
    { destruct (Nat.ltb _ _); [discriminate|].
      destruct (skip_ws s') as [|c1 r1] eqn:E; [discriminate|].
      destruct (Ascii.eqb c1 "]"); [intros [= _ <-]; cbn [String.length] in Hws; lia|].
      destruct (elems _ _ _) as [es r'| |] eqn:Ee; try discriminate.
      intros [= _ <-]. apply IHe in Ee. lia. }
    destruct (Ascii.eqb c dquote).
    { destruct (string_body 0 0 s') as [[w r']|] eqn:Eb; [|discriminate].
      intros [= _ <-]. apply (string_body_length _ _ _ _ _ _ (le_n _)) in Eb. lia. }
    destruct (Ascii.eqb c "t").
    { destruct (strip_prefix _ _) as [r'|] eqn:Ep; [|discriminate].
      intros [= _ <-]. apply strip_prefix_length in Ep. cbn [String.length] in Ep. lia. }
    destruct (Ascii.eqb c "f").
    { destruct (strip_prefix _ _) as [r'|] eqn:Ep; [|discriminate].
      intros [= _ <-]. apply strip_prefix_length in Ep. cbn [String.length] in Ep. lia. }
    destruct (Ascii.eqb c "n").
    { destruct (strip_prefix _ _) as [r'|] eqn:Ep; [|discriminate].
      intros [= _ <-]. apply strip_prefix_length in Ep. cbn [String.length] in Ep. lia. }
    destruct (_ || _); [|discriminate].
    destruct (number_rest _) as [r'|] eqn:En; [|discriminate].
    intros [= _ <-]. apply number_rest_length in En. cbn [String.length] in En. lia.
  - intros d s es r. cbn [elems].
    destruct (value fuel d s) as [v r0| |] eqn:Ev; try discriminate.
    apply IHv in Ev. pose proof (skip_ws_length r0) as Hws.
    destruct (skip_ws r0) as [|c r1]; [discriminate|]. cbn [String.length] in Hws.
    destruct (Ascii.eqb c ",").
    { destruct (elems fuel d (skip_ws r1)) as [es' r2| |] eqn:Ee; try discriminate.
      intros [= _ <-]. apply IHe in Ee. pose proof (skip_ws_length r1). lia. }
    destruct (Ascii.eqb c "]"); [|discriminate].
    intros [= _ <-]. lia.
  - intros d s ms r. cbn [members].
    destruct s as [|q s1]; [discriminate|]. cbn [String.length].
    destruct (Ascii.eqb q dquote); [|discriminate].
    destruct (string_body 0 0 s1) as [[k r1]|] eqn:Eb; [|discriminate].
    apply (string_body_length _ _ _ _ _ _ (le_n _)) in Eb.
    pose proof (skip_ws_length r1) as Hws1.
    destruct (skip_ws r1) as [|c r2]; [discriminate|]. cbn [String.length] in Hws1.
    destruct (Ascii.eqb c ":"); [|discriminate].
    pose proof (skip_ws_length r2) as Hws2.
    destruct (value fuel d (skip_ws r2)) as [v r4| |] eqn:Ev; try discriminate.
    apply IHv in Ev. pose proof (skip_ws_length r4) as Hws4.
    destruct (skip_ws r4) as [|c' r5]; [discriminate|]. cbn [String.length] in Hws4.
    destruct (Ascii.eqb c' ",").
    { destruct (members fuel d (skip_ws r5)) as [ms' r6| |] eqn:Em; try discriminate.
      intros [= _ <-]. apply IHm in Em. pose proof (skip_ws_length r5). lia. }
    destruct (Ascii.eqb c' "}"); [|discriminate].
    intros [= _ <-]. lia.
Qed.

(** With fuel for two steps per byte the scanner does not starve. *)
Lemma scan_not_starved (fuel : nat) :
  (forall d s, 2 * String.length s + 1 <= fuel -> value fuel d s <> Starved)
  /\ (forall d s, 2 * String.length s + 2 <= fuel -> elems fuel d s <> Starved)
  /\ (forall d s, 2 * String.length s + 2 <= fuel -> members fuel d s <> Starved).
Proof.
  induction fuel as [|fuel (IHv & IHe & IHm)]; [repeat split; intros; lia|].
  repeat split.
  - intros d s Hf. cbn [value].
    destruct s as [|c s']; [discriminate|]. cbn [String.length] in Hf.
    pose proof (skip_ws_length s') as Hws.
    destruct (Ascii.eqb c "{").
    { destruct (Nat.ltb _ _); [discriminate|].
      destruct (skip_ws s') as [|c1 r1] eqn:E; [discriminate|].
      destruct (Ascii.eqb c1 "}"); [discriminate|].
      specialize (IHm (S d) (String c1 r1)).
      destruct (members _ _ _); try discriminate. intros _. apply IHm; [lia|reflexivity]. }
    destruct (Ascii.eqb c "[").
    { destruct (Nat.ltb _ _); [discriminate|].
      destruct (skip_ws s') as [|c1 r1] eqn:E; [discriminate|].
      destruct (Ascii.eqb c1 "]"); [discriminate|].
      specialize (IHe (S d) (String c1 r1)).
      destruct (elems _ _ _); try discriminate. intros _. apply IHe; [lia|reflexivity]. }
    destruct (Ascii.eqb c dquote); [destruct (string_body _ _ _) as [[? ?]|]; discriminate|].
    destruct (Ascii.eqb c "t"); [destruct (strip_prefix _ _); discriminate|].
    destruct (Ascii.eqb c "f"); [destruct (strip_prefix _ _); discriminate|].
    destruct (Ascii.eqb c "n"); [destruct (strip_prefix _ _); discriminate|].
    destruct (_ || _); [destruct (number_rest _); discriminate|discriminate].
  - intros d s Hf. cbn [elems].
    specialize (IHv d s).
    destruct (value fuel d s) as [v r0| |] eqn:Ev; [|discriminate|intros _; apply IHv; [lia|reflexivity]].
    apply (proj1 (scan_consumes fuel)) in Ev.
    pose proof (skip_ws_length r0) as Hws.
    destruct (skip_ws r0) as [|c r1]; [discriminate|]. cbn [String.length] in Hws.
    destruct (Ascii.eqb c ",").
    { pose proof (skip_ws_length r1).
      specialize (IHe d (skip_ws r1)).
      destruct (elems fuel d (skip_ws r1)); try discriminate.
      intros _. apply IHe; [lia|reflexivity]. }
    destruct (Ascii.eqb c "]"); discriminate.
  - intros d s Hf. cbn [members].
    destruct s as [|q s1]; [discriminate|]. cbn [String.length] in Hf.
    destruct (Ascii.eqb q dquote); [|discriminate].
    destruct (string_body 0 0 s1) as [[k r1]|] eqn:Eb; [|discriminate].
    apply (string_body_length _ _ _ _ _ _ (le_n _)) in Eb.
    pose proof (skip_ws_length r1) as Hws1.
    destruct (skip_ws r1) as [|c r2]; [discriminate|]. cbn [String.length] in Hws1.
    destruct (Ascii.eqb c ":"); [|discriminate].
    pose proof (skip_ws_length r2) as Hws2.
    specialize (IHv d (skip_ws r2)).
    destruct (value fuel d (skip_ws r2)) as [v r4| |] eqn:Ev;
      [|discriminate|intros _; apply IHv; [lia|reflexivity]].
    apply (proj1 (scan_consumes fuel)) in Ev. pose proof (skip_ws_length r4) as Hws4.
    destruct (skip_ws r4) as [|c' r5]; [discriminate|]. cbn [String.length] in Hws4.
    destruct (Ascii.eqb c' ",").
    { pose proof (skip_ws_length r5).
      specialize (IHm d (skip_ws r5)).
      destruct (members fuel d (skip_ws r5)); try discriminate.
      intros _. apply IHm; [lia|reflexivity]. }
    destruct (Ascii.eqb c' "}"); discriminate.
Qed.

(** [parse] never reports a syntax error for lack of fuel. *)
Lemma parse_not_starved (s : bytes) (d : nat) :
  value (fuel_for (skip_ws s)) d (skip_ws s) <> Starved.
Proof. apply (proj1 (scan_not_starved _)). unfold fuel_for. lia. Qed.

End Scanner.

(** ** C9: the fatal broadcast *)

Section FatalBroadcast.
Import Client.

Lemma in_flight_lookup (c : client) (id : opID) :
  id ∈ in_flight c <-> waiters c !! id = Some None.
Proof.
  unfold in_flight. rewrite elem_of_dom. split.
  - intros [slot [Hl Hp]%map_lookup_filter_Some]. cbn [snd] in Hp. now subst.
  - intros Hl. exists None. now apply map_lookup_filter_Some.
Qed.

(** An unexpected message is answered by the broadcast. *)
Lemma dispatch_unexpected (c : client) (m : operationMessage) :
  unexpected c m = true ->
  dispatch c m = broadcast Faulted (UnexpectedMessage m) c.
Proof.
  unfold unexpected, dispatch, case_of. cbn [existsb]. rewrite !orb_false_r.
  destruct (String.eqb_spec (Type_ m) gqlConnectionAck) as [Ea|_].
  { rewrite Ea. cbn. now destruct (state c). }
  destruct (String.eqb_spec (Type_ m) gqlConnectionError) as [Ee|_]; [reflexivity|].
  cbn [orb andb].
  destruct (String.eqb_spec (Type_ m) gqlConnectionKeepAlive) as [Ek|_].
  { rewrite Ek. cbn. discriminate. }
  destruct (String.eqb_spec (Type_ m) gqlData) as [Ed|_].
  { rewrite Ed. cbn. now destruct (waiters c !! ID m). }
  destruct (String.eqb_spec (Type_ m) gqlError) as [Er|_]; [|discriminate].
  rewrite Er. cbn. now destruct (waiters c !! ID m).
Qed.

(** On a client without a fault, the turn of the reader on a fatal input
    is the broadcast of its error. *)
Lemma reader_fatal (c : client) (input : result bytes) (e : conn_error) :
  fault c = None -> fatal c input = Some e ->
  reader c input = broadcast Faulted e c.
Proof.
  intros Hc. unfold reader, fatal. rewrite Hc.
  destruct input as [b|err]; [|now intros [= <-]].
  destruct (UnmarshalJSON new_operationMessage b) as [m [err|]]; [now intros [= <-]|].
  destruct (unexpected c m) eqn:Hu; [|discriminate].
  intros [= <-]. now apply dispatch_unexpected.
Qed.

Lemma broadcast_faulted (st : phase) (e : conn_error) (c : client) :
  faulted e (in_flight c) (broadcast st e c).
Proof.
  split; [reflexivity|]. intros id slot. cbn [waiters broadcast].
  rewrite lookup_fmap. destruct (waiters c !! id) as [s|] eqn:El; [|discriminate].
  intros [= <-]. split; [now destruct s|].
  intros Hin%in_flight_lookup. rewrite El in Hin. now injection Hin as ->.
Qed.

Lemma step_faulted (e : conn_error) (S : gset opID) (c : client) (ev : event) :
  faulted e S c -> faulted e S (step c ev).
Proof.
  intros [Hf Hw]. destruct ev as [input|req|id|id|]; cbn [step].
  - unfold reader. now rewrite Hf.
  - unfold submit. now rewrite Hf.
  - unfold await. destruct (waiters c !! id) as [[r|]|] eqn:El; try now split.
    split; [exact Hf|]. intros id' slot. cbn [waiters].
    intros [_ Hl]%lookup_delete_Some. now apply Hw.
  - unfold cancel. destruct (waiters c !! id) as [[r|]|] eqn:El; try now split.
    now destruct (Hw _ _ El) as [[] _].
  - unfold close_client. rewrite Hf. split; [reflexivity|exact Hw].
Qed.

Lemma run_faulted (e : conn_error) (S : gset opID) (evs : list event) (c : client) :
  faulted e S c -> faulted e S (run c evs).
Proof.
  revert c. induction evs as [|ev evs IH]; intros c Hc; [exact Hc|].
  apply IH. now apply step_faulted.
Qed.

(** From the fault on, no slot is empty: no operation is in flight. *)
Lemma faulted_in_flight (e : conn_error) (S : gset opID) (c : client) :
  faulted e S c -> in_flight c = ∅.
Proof.
  intros [_ Hw]. apply set_eq. intros id. rewrite in_flight_lookup.
  split; [|set_solver]. intros Hl. now destruct (Hw _ _ Hl) as [[] _].
Qed.

(** C9 (on the client modelled from the spec): on a connection without a
    fault, with any number of operations in flight, when [read] returns a
    connection-fatal input (an I/O failure such as the peer closing the
    connection, a frame that does not decode, an unexpected message), the
    turn of the reader stores that error as the fault of the connection
    and marks it [Faulted]; every operation in flight is resolved at once
    with that fault as a connection error, so that its call is no longer
    blocked and returns it.  From then on, whatever happens to the client,
    no operation is in flight (no call hangs), a call that was pending
    returns the fault and nothing else, the fault stays the stored one,
    and every new [Submit] fails with it without registering. *)
Theorem fatal_broadcast (c : client) (input : result bytes) (e : conn_error) :
  fault c = None ->
  fatal c input = Some e ->
  fault (reader c input) = Some e
  /\ state (reader c input) = Faulted
  /\ (forall id, id ∈ in_flight c ->
        exists c', await (reader c input) id = Some (c', ConnError e))
  /\ (forall evs, in_flight (run (reader c input) evs) = ∅)
  /\ (forall evs id c' r, id ∈ in_flight c ->
        await (run (reader c input) evs) id = Some (c', r) -> r = ConnError e)
  /\ (forall evs req,
        fault (run (reader c input) evs) = Some e
        /\ submit (run (reader c input) evs) req = (run (reader c input) evs, inr e)).
Proof.
  intros Hc He. rewrite (reader_fatal c input e Hc He).
  pose proof (broadcast_faulted Faulted e c) as Hinv.
  split; [reflexivity|]. split; [reflexivity|].
  split; [|split; [|split]].
  - intros id Hin%in_flight_lookup. unfold await. cbn [waiters broadcast].
    rewrite lookup_fmap, Hin. cbn. eauto.
  - intros evs. exact (faulted_in_flight _ _ _ (run_faulted _ _ evs _ Hinv)).
  - intros evs id c' r Hin. destruct (run_faulted _ _ evs _ Hinv) as [_ Hw].
    unfold await. destruct (waiters _ !! id) as [[r'|]|] eqn:El; try discriminate.
    intros [= _ <-]. destruct (Hw _ _ El) as [_ Hr]. specialize (Hr Hin). congruence.
  - intros evs req. destruct (run_faulted _ _ evs _ Hinv) as [Hf _].
    split; [exact Hf|]. unfold submit. now rewrite Hf.
Qed.

Lemma fatal_broadcast_witness :
  (fault (reader two_in_flight (Err (TransportError "EOF")))
   = Some (IOError (TransportError "EOF"))
   /\ (exists c', await (reader two_in_flight (Err (TransportError "EOF"))) "1"
                  = Some (c', ConnError (IOError (TransportError "EOF"))))
   /\ (exists c', await (reader two_in_flight (Err (TransportError "EOF"))) "2"
                  = Some (c', ConnError (IOError (TransportError "EOF")))))
  /\ (fault (reader two_in_flight (Ok "{")) = Some (DecodeError SyntaxError)
      /\ exists c', await (reader two_in_flight (Ok "{")) "2"
                    = Some (c', ConnError (DecodeError SyntaxError)))
  /\ (exists m,
        fault (reader two_in_flight (Ok (bq "{'id':'9','type':'data','payload':{'data':1}}")))
        = Some (UnexpectedMessage m)
        /\ ID m = "9"
        /\ exists c',
             await (reader two_in_flight
                      (Ok (bq "{'id':'9','type':'data','payload':{'data':1}}"))) "1"
             = Some (c', ConnError (UnexpectedMessage m))).
Proof.
  split; [|split].
  - pose proof (fatal_broadcast two_in_flight (Err (TransportError "EOF"))
                  (IOError (TransportError "EOF")) eq_refl eq_refl) as (Hf & _ & H & _).
    split; [exact Hf|].
    split; apply H; apply in_flight_lookup; reflexivity.
  - pose proof (fatal_broadcast two_in_flight (Ok "{")
                  (DecodeError SyntaxError) eq_refl eq_refl) as (Hf & _ & H & _).
    split; [exact Hf|]. apply H. apply in_flight_lookup. reflexivity.
  - eexists.
    pose proof (fatal_broadcast two_in_flight
                  (Ok (bq "{'id':'9','type':'data','payload':{'data':1}}"))
                  _ eq_refl eq_refl) as (Hf & _ & H & _).
    split; [exact Hf|]. split; [reflexivity|].
    apply H. apply in_flight_lookup. reflexivity.
Defined.

End FatalBroadcast.

(** ** A value is read the same way whatever follows it *)

Section Framing.
Import GoJSON.

Lemma skip_ws_append (s t r : bytes) (c : ascii) :
  skip_ws s = String c r -> skip_ws (s ++ t) = String c (r ++ t).
Proof.
  induction s as [|a s IH]; [discriminate|].
  rewrite append_cons. cbn [skip_ws].
  destruct (isSpace a); [exact IH|]. now intros [= -> ->].
Qed.

Lemma skip_ws_append_all (s t : bytes) :
  skip_ws s = "" -> skip_ws (s ++ t) = skip_ws t.
Proof.
  induction s as [|a s IH]; [reflexivity|].
  rewrite append_cons. cbn [skip_ws]. destruct (isSpace a); [exact IH|discriminate].
Qed.

Lemma strip_prefix_append (p s r t : bytes) :
  strip_prefix p s = Some r -> strip_prefix p (s ++ t) = Some (r ++ t).
Proof.
  revert s. induction p as [|a p IH]; intros s.
  - now intros [= <-].
  - destruct s as [|b s]; [discriminate|]. rewrite append_cons. cbn [strip_prefix].
    destruct (Ascii.eqb a b); [apply IH|discriminate].
Qed.

Lemma skip_digits_append (s t r : bytes) (c : ascii) :
  skip_digits s = String c r -> skip_digits (s ++ t) = String c (r ++ t).
Proof.
  induction s as [|a s IH]; [discriminate|].
  rewrite append_cons. cbn [skip_digits].
  destruct (isDigit a); [exact IH|]. now intros [= -> ->].
Qed.

Lemma digits1_append (s t r : bytes) :
  digits1 s = Some r -> r <> "" -> digits1 (s ++ t) = Some (r ++ t).
Proof.
  destruct s as [|a s]; [discriminate|]. rewrite append_cons. cbn [digits1].
  destruct (isDigit a); [|discriminate]. intros [= <-] Hr.
  destruct (skip_digits s) as [|c r] eqn:E; [contradiction|].
  now rewrite (skip_digits_append _ _ _ _ E).
Qed.

Lemma num_int_append (s t r : bytes) :
  num_int s = Some r -> r <> "" -> num_int (s ++ t) = Some (r ++ t).
Proof.
  destruct s as [|a s]; [discriminate|]. rewrite append_cons. cbn [num_int].
  destruct (Ascii.eqb a "0"); [now intros [= <-]|].
  destruct (isDigit a); [|discriminate]. intros [= <-] Hr.
  destruct (skip_digits s) as [|c r] eqn:E; [contradiction|].
  now rewrite (skip_digits_append _ _ _ _ E).
Qed.

Lemma num_frac_append (s t r : bytes) :
  num_frac s = Some r -> r <> "" -> num_frac (s ++ t) = Some (r ++ t).
Proof.
  destruct s as [|a s]; [now intros [= <-]|]. rewrite append_cons. cbn [num_frac].
  destruct (Ascii.eqb a "."); [apply digits1_append|].
  now intros [= <-] _.
Qed.

Lemma num_exp_append (s t r : bytes) :
  num_exp s = Some r -> r <> "" -> num_exp (s ++ t) = Some (r ++ t).
Proof.
  destruct s as [|a s]; [now intros [= <-]|]. rewrite append_cons. cbn [num_exp].
  destruct (_ || _).
  - destruct s as [|g s']; [discriminate|]. rewrite append_cons.
    destruct (_ || _); [apply digits1_append|].
    intros Hd Hr. rewrite <- append_cons. now apply digits1_append.
  - now intros [= <-] _.
Qed.

Lemma number_rest_append (s t r : bytes) :
  number_rest s = Some r -> r <> "" -> number_rest (s ++ t) = Some (r ++ t).
Proof.
  unfold number_rest. intros Hn Hr.
  destruct (num_int (num_sign s)) as [s2|] eqn:E2; [|discriminate].
  destruct (num_frac s2) as [s3|] eqn:E3; [|discriminate].
  assert (H3 : s3 <> "") by (intros ->; cbn in Hn; congruence).
  assert (H2 : s2 <> "") by (intros ->; cbn in E3; congruence).
  assert (Hs : num_sign (s ++ t) = num_sign s ++ t).
  { destruct s as [|a s]; [discriminate|]. rewrite append_cons. cbn [num_sign].
    destruct (Ascii.eqb a "-"); [reflexivity|now rewrite append_cons]. }
  rewrite Hs, (num_int_append _ _ _ E2 H2), (num_frac_append _ _ _ E3 H3).
  now apply num_exp_append.
Qed.

Lemma substring_append (n : nat) (s t : bytes) :
  n <= String.length s -> substring 0 n (s ++ t) = substring 0 n s.
Proof.
  revert s. induction n as [|n IH]; intros s Hn.
  - destruct s; [destruct t|]; reflexivity.
  - destruct s as [|a s]; [cbn [String.length] in Hn; lia|].
    rewrite append_cons. cbn [substring]. f_equal. apply IH.
    cbn [String.length] in Hn. lia.
Qed.

Lemma consumed_append (s r t : bytes) :
  String.length r <= String.length s -> consumed (s ++ t) (r ++ t) = consumed s r.
Proof.
  intros Hl. unfold consumed. rewrite !length_append.
  replace (String.length s + String.length t - (String.length r + String.length t))
    with (String.length s - String.length r) by lia.
  apply substring_append. lia.
Qed.

Lemma substring_all (s t : bytes) : substring 0 (String.length s) (s ++ t) = s.
Proof.
  induction s as [|a s IH]; [destruct t; reflexivity|].
  rewrite append_cons. cbn [String.length substring]. now rewrite IH.
Qed.

(** What was consumed before [t] in [s ++ t] is [s]. *)
Lemma consumed_prefix (s t : bytes) : consumed (s ++ t) t = s.
Proof.
  unfold consumed. rewrite length_append.
  replace (String.length s + String.length t - String.length t)
    with (String.length s) by lia.
  apply substring_all.
Qed.

Lemma string_body_nil (k d : nat) : string_body k d "" = None.
Proof. reflexivity. Qed.

Lemma emit_None (o : bytes) : emit o None = None.
Proof. reflexivity. Qed.

Lemma string_body_cons (skip drop : nat) (c : ascii) (s' : bytes) :
  string_body skip drop (String c s')
  = match drop with
    | S drop' => string_body skip drop' s'
    | O =>
      match skip with
      | S skip' => emit (str1 c) (string_body skip' 0 s')
      | O =>
        if Ascii.eqb c dquote then Some (EmptyString, s')
        else if Ascii.eqb c backslash then
          match s' with
          | EmptyString => None
          | String e s'' =>
            if Ascii.eqb e "u" then
              match s'' with
              | String h1 (String h2 (String h3 (String h4 s3))) =>
                match getu4 h1 h2 h3 h4 with
                | None => None
                | Some rr =>
                  if is_surrogate rr then
                    match next_u4 s3 with
                    | Some rr1 =>
                      let dec := utf16_DecodeRune rr rr1 in
                      if (dec =? RuneError)%N
                      then emit (EncodeRune RuneError) (string_body 0 0 s3)
                      else emit (EncodeRune dec) (string_body 0 6 s3)
                    | None => emit (EncodeRune RuneError) (string_body 0 0 s3)
                    end
                  else emit (EncodeRune rr) (string_body 0 0 s3)
                end
              | _ => None
              end
            else
              match simple_escape e with
              | Some d => emit (str1 d) (string_body 0 0 s'')
              | None => None
              end
          end
        else if (byte c <? 32)%N then None
        else if (byte c <? 128)%N then emit (str1 c) (string_body 0 0 s')
        else
          match DecodeRune (String c s') with
          | (r, size) =>
            if (r =? RuneError)%N && Nat.eqb size 1
            then emit (EncodeRune RuneError) (string_body 0 0 s')
            else emit (str1 c) (string_body (size - 1) 0 s')
          end
      end
    end.
Proof. reflexivity. Qed.

(** A string body of one byte is the closing quote. *)
Lemma string_body_one (k : nat) (c1 : ascii) (x : bytes * bytes) :
  string_body k 0 (String c1 "") = Some x -> k = 0 /\ c1 = dquote.
Proof.
  rewrite string_body_cons, !string_body_nil.
  destruct k as [|k]; [|discriminate].
  destruct (Ascii.eqb c1 dquote) eqn:E; [apply Ascii.eqb_eq in E; auto|].
  destruct (Ascii.eqb c1 backslash); [discriminate|].
  destruct (_ <? 32)%N; [discriminate|].
  destruct (_ <? 128)%N; [discriminate|].
  destruct (DecodeRune _) as [rn size]. destruct (_ && _); discriminate.
Qed.

(** In a string body of two bytes, one of them is a quote. *)
Lemma string_body_two (k : nat) (c1 c2 : ascii) (x : bytes * bytes) :
  string_body k 0 (String c1 (String c2 "")) = Some x -> c1 = dquote \/ c2 = dquote.
Proof.
  assert (Hnext : forall k' o, emit o (string_body k' 0 (String c2 "")) = Some x ->
                               c2 = dquote).
  { intros k' o. destruct (string_body k' 0 (String c2 "")) as [y|] eqn:E; [|discriminate].
    intros _. now apply string_body_one in E. }
  rewrite string_body_cons.
  destruct k as [|k]; [|intros H; right; exact (Hnext _ _ H)].
  destruct (Ascii.eqb c1 dquote) eqn:E; [apply Ascii.eqb_eq in E; auto|].
  destruct (Ascii.eqb c1 backslash).
  { destruct (Ascii.eqb c2 "u"); [discriminate|].
    destruct (simple_escape c2); rewrite ?string_body_nil; discriminate. }
  destruct (_ <? 32)%N; [discriminate|].
  destruct (_ <? 128)%N; [intros H; right; exact (Hnext _ _ H)|].
  destruct (DecodeRune _) as [rn size].
  destruct (_ && _); intros H; right; exact (Hnext _ _ H).
Qed.

Lemma is_cont_dquote : is_cont dquote = false.
Proof. reflexivity. Qed.

Lemma in_range_dquote (lo hi : N) : (128 <= lo)%N -> in_range lo hi dquote = false.
Proof.
  intros H. unfold in_range. change (byte dquote) with 34%N.
  apply andb_false_iff. left. apply N.leb_gt. lia.
Qed.

(** The rune at the head of a string body that reaches its closing quote
    does not depend on what follows the literal. *)
Lemma DecodeRune_append (c : ascii) (s' t : bytes) (k : nat) (x : bytes * bytes) :
  string_body k 0 s' = Some x ->
  DecodeRune (String c (s' ++ t)) = DecodeRune (String c s').
Proof.
  destruct s' as [|c1 [|c2 [|c3 s4]]]; intros Hb.
  - discriminate.
  - apply string_body_one in Hb as [_ ->].
    rewrite append_cons, append_nil_l.
    destruct t as [|t1 [|t2 t3]]; unfold DecodeRune;
      rewrite ?in_range_dquote by lia; cbn [andb];
      repeat match goal with
             | |- context [if (?b <? ?n)%N then _ else _] => destruct (b <? n)%N
             | |- context [if (?b =? ?n)%N then _ else _] => destruct (b =? n)%N
             end; reflexivity.
  - apply string_body_two in Hb.
    rewrite !append_cons, append_nil_l. unfold DecodeRune.
    destruct t as [|c3 t]; [reflexivity|].
    repeat match goal with
           | |- context [if (?b <? _)%N then _ else _] => destruct (b <? _)%N
           | |- context [if (?b =? _)%N then _ else _] => destruct (b =? _)%N
           end; try reflexivity;
      destruct Hb as [-> | ->];
      rewrite ?(in_range_dquote _ _ ltac:(lia)), ?is_cont_dquote, ?andb_false_r;
      reflexivity.
  - now rewrite !append_cons.
Qed.

Lemma next_u4_append_Some (s t : bytes) (rr : N) :
  next_u4 s = Some rr -> next_u4 (s ++ t) = Some rr.
Proof.
  destruct s as [|a1 [|a2 [|a3 [|a4 [|a5 [|a6 s]]]]]]; try discriminate.
  now rewrite !append_cons.
Qed.

Lemma next_u4_append_None (s t : bytes) (x : bytes * bytes) :
  next_u4 s = None -> string_body 0 0 s = Some x -> next_u4 (s ++ t) = None.
Proof.
  intros Hn Hb.
  destruct s as [|a1 s]; [discriminate|].
  destruct (Ascii.eqb a1 backslash) eqn:E1.
  - apply Ascii.eqb_eq in E1 as ->.
    destruct s as [|a2 s]; [discriminate|].
    destruct (Ascii.eqb a2 "u") eqn:E2.
    + apply Ascii.eqb_eq in E2 as ->.
      destruct s as [|a3 [|a4 [|a5 [|a6 s]]]]; try discriminate.
      now rewrite !append_cons.
    + rewrite !append_cons. unfold next_u4.
      destruct (s ++ t) as [|g1 [|g2 [|g3 [|g4 u]]]]; try reflexivity.
      now rewrite E2, andb_false_r.
  - rewrite append_cons. unfold next_u4.
    destruct (s ++ t) as [|g0 [|g1 [|g2 [|g3 [|g4 u]]]]]; try reflexivity.
    now rewrite E1.
Qed.

(** A string literal is read the same way whatever follows it. *)
Lemma string_body_append (n : nat) :
  forall (s t : bytes) (skip drop : nat) (v r : bytes),
    String.length s <= n ->
    string_body skip drop s = Some (v, r) ->
    string_body skip drop (s ++ t) = Some (v, r ++ t).
Proof.
  induction n as [|n IH]; intros s t skip drop v r Hn.
  - destruct s; [discriminate|cbn [String.length] in Hn; lia].
  - destruct s as [|c s']; [discriminate|].
    cbn [String.length] in Hn. rewrite append_cons, !string_body_cons.
    assert (Hrec : forall u k d o, String.length u <= String.length s' ->
                     emit o (string_body k d u) = Some (v, r) ->
                     emit o (string_body k d (u ++ t)) = Some (v, r ++ t)).
    { intros u k d o Hu (w & Hb & ->)%emit_Some.
      rewrite (IH u t k d w r) by (assumption || lia). reflexivity. }
    destruct drop as [|drop']; [|apply IH; lia].
    destruct skip as [|skip']; [|now apply Hrec].
    destruct (Ascii.eqb c dquote); [now intros [= <- <-]|].
    destruct (Ascii.eqb c backslash).
    + destruct s' as [|e s'']; [discriminate|]. rewrite append_cons.
      cbn [String.length] in *.
      destruct (Ascii.eqb e "u").
      * destruct s'' as [|h1 [|h2 [|h3 [|h4 s3]]]]; try discriminate.
        rewrite !append_cons. cbn [String.length] in *.
        destruct (getu4 h1 h2 h3 h4) as [rr|]; [|discriminate].
        destruct (is_surrogate rr); [|apply Hrec; lia].
        destruct (next_u4 s3) as [rr1|] eqn:En.
        -- rewrite (next_u4_append_Some _ _ _ En).
           cbv zeta. destruct (_ =? _)%N; apply Hrec; lia.
        -- intros Hb. destruct (emit_Some _ _ _ _ Hb) as (w & Hw & _).
           rewrite (next_u4_append_None _ _ _ En Hw). revert Hb. apply Hrec. lia.
      * destruct (simple_escape e); [|discriminate]. apply Hrec. lia.
    + destruct (_ <? 32)%N; [discriminate|].
      destruct (_ <? 128)%N; [now apply Hrec|].
      pose proof (DecodeRune_append c s' t) as HD.
      destruct (DecodeRune (String c s')) as [rn size].
      destruct (_ && _) eqn:Ev; intros Hb;
        destruct (emit_Some _ _ _ _ Hb) as (w & Hw & _);
        rewrite (HD _ _ Hw), Ev; revert Hb; now apply Hrec.
Qed.

Lemma value_nil (fuel d : nat) (v : json) (r : bytes) :
  value fuel d "" <> Scanned v r.
Proof. destruct fuel; discriminate. Qed.

Lemma elems_nil (fuel d : nat) (es : list (bytes * json)) (r : bytes) :
  elems fuel d "" <> Scanned es r.
Proof. destruct fuel as [|[|fuel]]; discriminate. Qed.

Lemma members_nil (fuel d : nat) (ms : list (bytes * (bytes * json))) (r : bytes) :
  members fuel d "" <> Scanned ms r.
Proof. destruct fuel; discriminate. Qed.

(** A value, the elements of an array and the members of an object are
    read the same way whatever follows them.  (A number that ends the
    input is the exception: more digits could follow.) *)
Lemma scan_append (fuel : nat) :
  (forall d s t v r,
      value fuel d s = Scanned v r ->
      (r <> "" \/ forall lit, v <> JNumber lit) ->
      value fuel d (s ++ t) = Scanned v (r ++ t))
  /\ (forall d s t es r,
         elems fuel d s = Scanned es r -> elems fuel d (s ++ t) = Scanned es (r ++ t))
  /\ (forall d s t ms r,
         members fuel d s = Scanned ms r -> members fuel d (s ++ t) = Scanned ms (r ++ t)).
Proof.
  induction fuel as [|fuel (IHv & IHe & IHm)]; [repeat split; discriminate|].
  repeat split.
  - intros d s t v r. destruct s as [|c s']; [discriminate|].
    rewrite append_cons. cbn [value].
    destruct (Ascii.eqb c "{").
    { destruct (Nat.ltb _ _); [discriminate|].
      destruct (skip_ws s') as [|c1 r1] eqn:E; [discriminate|].
      rewrite (skip_ws_append _ t _ _ E).
      destruct (Ascii.eqb c1 "}"); [now intros [= <- <-]|].
      destruct (members fuel (S d) (String c1 r1)) as [ms r'| |] eqn:Em; try discriminate.
      intros [= <- <-] _. rewrite <- append_cons. now rewrite (IHm _ _ t _ _ Em). }
    destruct (Ascii.eqb c "[").
    { destruct (Nat.ltb _ _); [discriminate|].
      destruct (skip_ws s') as [|c1 r1] eqn:E; [discriminate|].
      rewrite (skip_ws_append _ t _ _ E).
      destruct (Ascii.eqb c1 "]"); [now intros [= <- <-]|].
      destruct (elems fuel (S d) (String c1 r1)) as [es r'| |] eqn:Ee; try discriminate.
      intros [= <- <-] _. rewrite <- append_cons. now rewrite (IHe _ _ t _ _ Ee). }
    destruct (Ascii.eqb c dquote).
    { destruct (string_body 0 0 s') as [[w r']|] eqn:Eb; [|discriminate].
      intros [= <- <-] _.
      now rewrite (string_body_append _ _ t _ _ _ _ (le_n _) Eb). }
    destruct (Ascii.eqb c "t").
    { destruct (strip_prefix _ _) as [r'|] eqn:Ep; [|discriminate].
      intros [= <- <-] _. rewrite <- append_cons.
      now rewrite (strip_prefix_append _ _ _ t Ep). }
    destruct (Ascii.eqb c "f").
    { destruct (strip_prefix _ _) as [r'|] eqn:Ep; [|discriminate].
      intros [= <- <-] _. rewrite <- append_cons.
      now rewrite (strip_prefix_append _ _ _ t Ep). }
    destruct (Ascii.eqb c "n").
    { destruct (strip_prefix _ _) as [r'|] eqn:Ep; [|discriminate].
      intros [= <- <-] _. rewrite <- append_cons.
      now rewrite (strip_prefix_append _ _ _ t Ep). }
    destruct (_ || _); [|discriminate].
    destruct (number_rest _) as [r'|] eqn:En; [|discriminate].
    intros [= <- <-] [Hr|Hv]; [|now specialize (Hv (consumed (String c s') r'))].
    rewrite <- append_cons, (number_rest_append _ t _ En Hr).
    rewrite consumed_append; [reflexivity|].
    apply number_rest_length in En. lia.
  - intros d s t es r. cbn [elems].
    destruct (value fuel d s) as [v r0| |] eqn:Ev; try discriminate.
    destruct (skip_ws r0) as [|c r1] eqn:E; [discriminate|].
    assert (Hr0 : r0 <> "") by (intros ->; discriminate).
    rewrite (IHv _ _ t _ _ Ev (or_introl Hr0)), (skip_ws_append _ t _ _ E).
    rewrite consumed_append
      by (apply (proj1 (scan_consumes fuel)) in Ev; lia).
    destruct (Ascii.eqb c ",").
    { destruct (elems fuel d (skip_ws r1)) as [es' r2| |] eqn:Ee; try discriminate.
      intros [= <- <-].
      destruct (skip_ws r1) as [|c2 r3] eqn:E1.
      { now apply elems_nil in Ee. }
      rewrite (skip_ws_append _ t _ _ E1), <- append_cons.
      now rewrite (IHe _ _ t _ _ Ee). }
    destruct (Ascii.eqb c "]"); [|discriminate].
    now intros [= <- <-].
  - intros d s t ms r. destruct s as [|q s1]; [discriminate|].
    rewrite append_cons. cbn [members].
    destruct (Ascii.eqb q dquote); [|discriminate].
    destruct (string_body 0 0 s1) as [[k r1]|] eqn:Eb; [|discriminate].
    rewrite (string_body_append _ _ t _ _ _ _ (le_n _) Eb).
    destruct (skip_ws r1) as [|c r2] eqn:E1; [discriminate|].
    rewrite (skip_ws_append _ t _ _ E1).
    destruct (Ascii.eqb c ":"); [|discriminate].
    destruct (value fuel d (skip_ws r2)) as [v r4| |] eqn:Ev; try discriminate.
    destruct (skip_ws r2) as [|c2 r3] eqn:E2.
    { now apply value_nil in Ev. }
    rewrite (skip_ws_append _ t _ _ E2), <- append_cons.
    destruct (skip_ws r4) as [|c' r5] eqn:E4; [discriminate|].
    assert (Hr4 : r4 <> "") by (intros ->; discriminate).
    rewrite (IHv _ _ t _ _ Ev (or_introl Hr4)), (skip_ws_append _ t _ _ E4).
    rewrite consumed_append
      by (apply (proj1 (scan_consumes fuel)) in Ev; lia).
    destruct (Ascii.eqb c' ",").
    { destruct (members fuel d (skip_ws r5)) as [ms' r6| |] eqn:Em; try discriminate.
      intros [= <- <-].
      destruct (skip_ws r5) as [|c5 r7] eqn:E5.
      { now apply members_nil in Em. }
      rewrite (skip_ws_append _ t _ _ E5), <- append_cons.
      now rewrite (IHm _ _ t _ _ Em). }
    destruct (Ascii.eqb c' "}"); [|discriminate].
    now intros [= <- <-].
Qed.

Lemma elems_S (fuel d : nat) (s : bytes) :
  elems (S fuel) d s
  = match value fuel d s with
    | Scanned v r =>
      match skip_ws r with
      | String c r1 =>
        if Ascii.eqb c "," then
          match elems fuel d (skip_ws r1) with
          | Scanned es r2 => Scanned ((consumed s r, v) :: es) r2
          | Invalid => Invalid
          | Starved => Starved
          end
        else if Ascii.eqb c "]" then Scanned [(consumed s r, v)] r1
        else Invalid
      | EmptyString => Invalid
      end
    | Invalid => Invalid
    | Starved => Starved
    end.
Proof. reflexivity. Qed.

Lemma members_S (fuel d : nat) (q : ascii) (s1 : bytes) :
  members (S fuel) d (String q s1)
  = if Ascii.eqb q dquote then
      match string_body 0 0 s1 with
      | Some (k, r1) =>
        match skip_ws r1 with
        | String c r2 =>
          if Ascii.eqb c ":" then
            match value fuel d (skip_ws r2) with
            | Scanned v r4 =>
              match skip_ws r4 with
              | String c' r5 =>
                if Ascii.eqb c' "," then
                  match members fuel d (skip_ws r5) with
                  | Scanned ms r6 =>
                    Scanned ((k, (consumed (skip_ws r2) r4, v)) :: ms) r6
                  | Invalid => Invalid
                  | Starved => Starved
                  end
                else if Ascii.eqb c' "}"
                     then Scanned [(k, (consumed (skip_ws r2) r4, v))] r5
                     else Invalid
              | EmptyString => Invalid
              end
            | Invalid => Invalid
            | Starved => Starved
            end
          else Invalid
        | EmptyString => Invalid
        end
      | None => Invalid
      end
    else Invalid.
Proof. reflexivity. Qed.

(** More fuel does not change the outcome of a scan that did not starve. *)
Lemma scan_fuel_S (fuel : nat) :
  (forall d s, value fuel d s <> Starved -> value (S fuel) d s = value fuel d s)
  /\ (forall d s, elems fuel d s <> Starved -> elems (S fuel) d s = elems fuel d s)
  /\ (forall d s, members fuel d s <> Starved -> members (S fuel) d s = members fuel d s).
Proof.
  induction fuel as [|fuel (IHv & IHe & IHm)]; [repeat split; intros d s []; reflexivity|].
  repeat split.
  - intros d s. destruct s as [|c s']; [reflexivity|]. cbn [value].
    destruct (Ascii.eqb c "{").
    { destruct (Nat.ltb _ _); [reflexivity|].
      destruct (skip_ws s') as [|c1 r1]; [reflexivity|].
      destruct (Ascii.eqb c1 "}"); [reflexivity|].
      intros Hs. rewrite IHm; [reflexivity|].
      intros E. now rewrite E in Hs. }
    destruct (Ascii.eqb c "["); [|reflexivity].
    destruct (Nat.ltb _ _); [reflexivity|].
    destruct (skip_ws s') as [|c1 r1]; [reflexivity|].
    destruct (Ascii.eqb c1 "]"); [reflexivity|].
    intros Hs. rewrite IHe; [reflexivity|].
    intros E. now rewrite E in Hs.
  - intros d s. rewrite (elems_S fuel d s), (elems_S (S fuel) d s).
    intros Hs. rewrite IHv by (intros E; now rewrite E in Hs).
    destruct (value fuel d s) as [v r0| |]; try reflexivity.
    destruct (skip_ws r0) as [|c r1]; [reflexivity|].
    destruct (Ascii.eqb c ","); [|reflexivity].
    rewrite IHe; [reflexivity|]. intros E. now rewrite E in Hs.
  - intros d s. destruct s as [|q s1]; [reflexivity|].
    rewrite (members_S fuel), (members_S (S fuel)).
    destruct (Ascii.eqb q dquote); [|reflexivity].
    destruct (string_body 0 0 s1) as [[k r1]|]; [|reflexivity].
    destruct (skip_ws r1) as [|c r2]; [reflexivity|].
    destruct (Ascii.eqb c ":"); [|reflexivity].
    intros Hs. rewrite IHv by (intros E; now rewrite E in Hs).
    destruct (value fuel d (skip_ws r2)) as [v r4| |]; try reflexivity.
    destruct (skip_ws r4) as [|c' r5]; [reflexivity|].
    destruct (Ascii.eqb c' ","); [|reflexivity].
    rewrite IHm; [reflexivity|]. intros E. now rewrite E in Hs.
Qed.

Lemma value_fuel_le (fuel fuel' d : nat) (s : bytes) :
  fuel <= fuel' -> value fuel d s <> Starved -> value fuel' d s = value fuel d s.
Proof.
  induction 1 as [|fuel' _ IH]; [trivial|].
  intros Hs. rewrite <- (IH Hs). apply (proj1 (scan_fuel_S fuel')). now rewrite (IH Hs).
Qed.

End Framing.

(** ** Reading back what the encoder wrote *)

(** Byte strings as chains of appends, literals spelled out. *)
Ltac norm_bytes :=
  unfold quoted, str1;
  cbv [bq Ascii.eqb Bool.eqb dquote];
  repeat (rewrite append_cons || rewrite append_nil_l || rewrite append_assoc
          || rewrite append_nil_r).

Section ReadBack.
Import GoJSON.

Lemma plain_char_spec (c : ascii) :
  plain_char c = true ->
  Ascii.eqb c dquote = false /\ Ascii.eqb c backslash = false
  /\ (byte c <? 32)%N = false /\ (byte c <? 128)%N = true.
Proof.
  unfold plain_char. intros H.
  apply andb_prop in H as [H Hb]. apply andb_prop in H as [H Hq].
  apply andb_prop in H as [Hlo Hhi].
  apply negb_true_iff in Hq, Hb. apply N.leb_le in Hlo.
  repeat split; try assumption. apply N.ltb_ge. exact Hlo.
Qed.

Lemma string_body_plain (s r : bytes) :
  plain s = true -> string_body 0 0 (s ++ String dquote r) = Some (s, r).
Proof.
  induction s as [|c s IH]; intros Hp.
  - rewrite append_nil_l, string_body_cons. now rewrite Ascii.eqb_refl.
  - cbn [plain] in Hp. apply andb_prop in Hp as [Hc Hs].
    apply plain_char_spec in Hc as (Hq & Hb & Hlo & Hhi).
    rewrite append_cons, string_body_cons, Hq, Hb, Hlo, Hhi, (IH Hs). reflexivity.
Qed.

Lemma skip_ws_nonspace (c : ascii) (s : bytes) :
  isSpace c = false -> skip_ws (String c s) = String c s.
Proof. intros H. cbn [skip_ws]. now rewrite H. Qed.

Lemma quoted_append (x rest : bytes) :
  String dquote (x ++ String dquote rest) = quoted x ++ rest.
Proof.
  unfold quoted, str1. rewrite append_cons, append_assoc, append_cons, append_nil_l.
  reflexivity.
Qed.

Lemma skip_ws_quoted (x rest : bytes) :
  skip_ws (quoted x ++ rest) = quoted x ++ rest.
Proof. rewrite <- quoted_append. reflexivity. Qed.

(** A string value is read with one unit of fuel. *)
Lemma value_plain_string (f d : nat) (x rest : bytes) :
  plain x = true ->
  value (S f) d (quoted x ++ rest) = Scanned (JString x) rest.
Proof.
  intros Hx. rewrite <- quoted_append. cbn [value].
  change (Ascii.eqb dquote "{") with false. change (Ascii.eqb dquote "[") with false.
  rewrite Ascii.eqb_refl. cbv iota. now rewrite (string_body_plain _ _ Hx).
Qed.

(** The member [key : value] where both are plain strings, followed by
    more members. *)
Lemma members_plain_more (f d : nat) (k x rest : bytes) (c : ascii)
    (ms : list (bytes * (bytes * json))) (r : bytes) :
  plain k = true -> plain x = true -> isSpace c = false ->
  members f d (String c rest) = Scanned ms r ->
  members (S f) d (quoted k ++ ":" ++ quoted x ++ "," ++ String c rest)
  = Scanned ((k, (quoted x, JString x)) :: ms) r.
Proof.
  intros Hk Hx Hc Hm.
  destruct f as [|f]; [discriminate|].
  rewrite <- quoted_append, members_S, Ascii.eqb_refl, (string_body_plain _ _ Hk).
  rewrite append_cons, append_nil_l. cbn [skip_ws].
  change (isSpace ":") with false. cbv iota. rewrite Ascii.eqb_refl.
  rewrite !skip_ws_quoted, (value_plain_string f d x _ Hx), consumed_prefix.
  rewrite append_cons, append_nil_l. cbn [skip_ws].
  change (isSpace ",") with false. cbv iota. rewrite Ascii.eqb_refl.
  rewrite (skip_ws_nonspace _ _ Hc), Hm. reflexivity.
Qed.

(** The same member when it is the last one. *)
Lemma members_plain_last (f d : nat) (k x rest : bytes) :
  plain k = true -> plain x = true ->
  members (S (S f)) d (quoted k ++ ":" ++ quoted x ++ "}" ++ rest)
  = Scanned [(k, (quoted x, JString x))] rest.
Proof.
  intros Hk Hx.
  rewrite <- quoted_append, members_S, Ascii.eqb_refl, (string_body_plain _ _ Hk).
  rewrite append_cons, append_nil_l. cbn [skip_ws].
  change (isSpace ":") with false. cbv iota. rewrite Ascii.eqb_refl.
  rewrite !skip_ws_quoted, (value_plain_string f d x _ Hx), consumed_prefix.
  rewrite append_cons, append_nil_l. cbn [skip_ws].
  change (isSpace "}") with false. cbv iota.
  change (Ascii.eqb "}" ",") with false. cbv iota. rewrite Ascii.eqb_refl. reflexivity.
Qed.

(** The last member, whose value is any JSON value but a number and
    starts at once. *)
Lemma members_value_last (f d : nat) (k P' rest : bytes) (c : ascii) (v : json) (r : bytes) :
  plain k = true -> isSpace c = false ->
  value f d (String c P') = Scanned v r -> skip_ws r = "" ->
  (forall lit, v <> JNumber lit) ->
  members (S f) d (quoted k ++ ":" ++ String c P' ++ "}" ++ rest)
  = Scanned [(k, (consumed (String c P') r, v))] rest.
Proof.
  intros Hk Hc Hv Hr Hn.
  rewrite <- quoted_append, members_S, Ascii.eqb_refl, (string_body_plain _ _ Hk).
  rewrite append_cons, append_nil_l. cbn [skip_ws].
  change (isSpace ":") with false. cbv iota. rewrite Ascii.eqb_refl.
  rewrite (append_cons c), (skip_ws_nonspace _ _ Hc), <- (append_cons c).
  rewrite (proj1 (scan_append f) _ _ ("}" ++ rest) _ _ Hv (or_intror Hn)).
  rewrite (skip_ws_append_all _ _ Hr).
  rewrite consumed_append by (apply (proj1 (scan_consumes f)) in Hv; lia).
  rewrite append_cons, append_nil_l. cbn [skip_ws].
  change (isSpace "}") with false. cbv iota.
  change (Ascii.eqb "}" ",") with false. cbv iota. rewrite Ascii.eqb_refl. reflexivity.
Qed.

(** An object whose members start at once after the brace. *)
Lemma value_object (f d : nat) (c : ascii) (M : bytes)
    (ms : list (bytes * (bytes * json))) (r : bytes) :
  isSpace c = false -> Ascii.eqb c "}" = false ->
  Nat.ltb maxNestingDepth (S d) = false ->
  members f (S d) (String c M) = Scanned ms r ->
  value (S f) d (String "{" (String c M)) = Scanned (JObject ms) r.
Proof.
  intros Hc Hb Hd Hm. cbn [value]. rewrite Ascii.eqb_refl, Hd.
  rewrite (skip_ws_nonspace _ _ Hc), Hb, Hm. reflexivity.
Qed.

(** The value of a text that starts with a brace is an object. *)
Lemma value_brace_object (f d : nat) (s : bytes) (v : json) (r : bytes) :
  value f d (String "{" s) = Scanned v r -> forall lit, v <> JNumber lit.
Proof.
  destruct f as [|f]; [discriminate|]. cbn [value]. rewrite Ascii.eqb_refl.
  destruct (Nat.ltb _ _); [discriminate|].
  destruct (skip_ws s) as [|c1 r1]; [discriminate|].
  destruct (Ascii.eqb c1 "}"); [intros [= <- _]; discriminate|].
  destruct (members _ _ _); try discriminate. intros [= <- _]. discriminate.
Qed.

(** A complete text read with the fuel of [parse] is read with any
    larger fuel. *)
Lemma parse_at_value (d : nat) (s : bytes) (v : json) :
  parse_at d s = Some v ->
  exists r, value (fuel_for (skip_ws s)) d (skip_ws s) = Scanned v r /\ skip_ws r = "".
Proof.
  unfold parse_at.
  destruct (value _ d _) as [v' r| |]; try discriminate.
  destruct (String.eqb (skip_ws r) "") eqn:E; [|discriminate].
  intros [= <-]. apply String.eqb_eq in E. eauto.
Qed.

Lemma value_parse_at (f d : nat) (s : bytes) (v : json) :
  value f d (skip_ws s) = Scanned v "" -> parse_at d s = Some v.
Proof.
  intros Hv. unfold parse_at.
  assert (Hg : value (fuel_for (skip_ws s)) d (skip_ws s) = Scanned v "").
  { destruct (Nat.le_ge_cases f (fuel_for (skip_ws s))) as [Hle|Hle].
    - rewrite (value_fuel_le _ _ _ _ Hle); [exact Hv|]. now rewrite Hv.
    - rewrite <- Hv. symmetry. apply (value_fuel_le _ _ _ _ Hle), parse_not_starved. }
  now rewrite Hg.
Qed.

Lemma value_object_quoted (f d : nat) (k X : bytes)
    (ms : list (bytes * (bytes * json))) (r : bytes) :
  Nat.ltb maxNestingDepth (S d) = false ->
  members f (S d) (quoted k ++ X) = Scanned ms r ->
  value (S f) d ("{" ++ quoted k ++ X) = Scanned (JObject ms) r.
Proof.
  intros Hd. rewrite <- quoted_append. now apply value_object.
Qed.

Lemma members_plain_more_quoted (f d : nat) (k x k' X : bytes)
    (ms : list (bytes * (bytes * json))) (r : bytes) :
  plain k = true -> plain x = true ->
  members f d (quoted k' ++ X) = Scanned ms r ->
  members (S f) d (quoted k ++ ":" ++ quoted x ++ "," ++ quoted k' ++ X)
  = Scanned ((k, (quoted x, JString x)) :: ms) r.
Proof.
  intros Hk Hx. rewrite <- (quoted_append k'). now apply members_plain_more.
Qed.

(** The bytes of an envelope, member by member. *)
Lemma MarshalJSON_members (m : operationMessage) :
  fst (MarshalJSON m)
  = "{"
    ++ (if String.eqb (ID m) "" then "" else quoted "id" ++ ":" ++ quoted (ID m) ++ ",")
    ++ quoted "type" ++ ":" ++ quoted (Type_ m)
    ++ match Payload m with
       | Some p => "," ++ quoted "payload" ++ ":" ++ snd (marshalPayload p "") ++ "}" ++ ""
       | None => "}" ++ ""
       end.
Proof.
  rewrite MarshalJSON_bytes. unfold envelope_head.
  destruct (String.eqb (ID m) ""); destruct (Payload m); norm_bytes; reflexivity.
Qed.

(** The bytes of a payload start with a brace, when there are any. *)
Lemma payload_bytes_brace (p : payload) :
  snd (marshalPayload p "") = "" \/ exists P', snd (marshalPayload p "") = String "{" P'.
Proof.
  destruct p as [v|v|v|v].
  - right. rewrite marshalPayload_Request. cbn [snd]. unfold Request_bytes.
    norm_bytes. eauto.
  - right. rewrite marshalPayload_Response. cbn [snd]. unfold Response_bytes.
    norm_bytes. eauto.
  - right. rewrite marshalPayload_ServerError. cbn [snd]. unfold ServerError_bytes.
    norm_bytes. eauto.
  - now left.
Qed.

(** What the scanner reads in the bytes of an envelope with plain id and
    type, given what it reads in the bytes of the payload. *)
Lemma MarshalJSON_value (m : operationMessage) :
  plain (ID m) = true -> plain (Type_ m) = true ->
  (Payload m = None ->
   value 4 0 (fst (MarshalJSON m)) = Scanned (JObject (envelope_members m None)) "")
  /\ (forall p P' f v r,
        Payload m = Some p ->
        snd (marshalPayload p "") = String "{" P' ->
        value f 1 (String "{" P') = Scanned v r -> skip_ws r = "" ->
        value (4 + f) 0 (fst (MarshalJSON m))
        = Scanned (JObject (envelope_members m (Some (consumed (String "{" P') r, v)))) "").
Proof.
  intros Hid Hty. rewrite MarshalJSON_members. unfold envelope_members. split.
  - intros ->. destruct (String.eqb (ID m) "").
    + rewrite !append_nil_l.
      apply value_object_quoted; [reflexivity|].
      now apply members_plain_last.
    + rewrite !append_assoc.
      apply value_object_quoted; [reflexivity|].
      apply members_plain_more_quoted; try assumption; try reflexivity.
      now apply members_plain_last.
  - intros p P' f v r -> HP Hv Hr. rewrite HP.
    pose proof (value_brace_object _ _ _ _ _ Hv) as Hn.
    assert (Hlast : members (S f) 1
                      (quoted "payload" ++ ":" ++ String "{" P' ++ "}" ++ "")
                    = Scanned [("payload", (consumed (String "{" P') r, v))] "").
    { now apply members_value_last. }
    destruct (String.eqb (ID m) "").
    + rewrite !append_nil_l.
      apply (value_object_quoted (3 + f)); [reflexivity|].
      apply (members_plain_more_quoted (2 + f)); try assumption; try reflexivity.
      rewrite (proj2 (proj2 (scan_fuel_S (S f)))); [exact Hlast|now rewrite Hlast].
    + rewrite !append_assoc.
      apply (value_object_quoted (3 + f)); [reflexivity|].
      apply (members_plain_more_quoted (2 + f)); try assumption; try reflexivity.
      apply (members_plain_more_quoted (1 + f)); try assumption; reflexivity.
Qed.

Lemma skip_ws_MarshalJSON (m : operationMessage) :
  skip_ws (fst (MarshalJSON m)) = fst (MarshalJSON m).
Proof. rewrite MarshalJSON_members, append_cons. reflexivity. Qed.

(** The JSON object that the bytes of an envelope denote. *)
Lemma MarshalJSON_parse (m : operationMessage) :
  plain (ID m) = true -> plain (Type_ m) = true ->
  (Payload m = None ->
   parse (fst (MarshalJSON m)) = Some (JObject (envelope_members m None)))
  /\ (forall p v,
        Payload m = Some p ->
        parse_at 1 (snd (marshalPayload p "")) = Some v ->
        exists raw,
          parse (fst (MarshalJSON m))
          = Some (JObject (envelope_members m (Some (raw, v))))).
Proof.
  intros Hid Hty. destruct (MarshalJSON_value m Hid Hty) as [H1 H2]. split.
  - intros Hp. apply (value_parse_at 4). rewrite skip_ws_MarshalJSON. now apply H1.
  - intros p v Hp Hv.
    destruct (payload_bytes_brace p) as [E|[P' E]]; rewrite E in Hv; [discriminate|].
    apply parse_at_value in Hv as (r & Hv & Hr).
    rewrite (skip_ws_nonspace "{") in Hv by reflexivity.
    eexists. apply (value_parse_at (4 + fuel_for (String "{" P'))).
    rewrite skip_ws_MarshalJSON.
    exact (H2 p P' _ v r Hp E Hv Hr).
Qed.

End ReadBack.

(** ** C5: omitted fields *)

(** What [MarshalJSON] does write.  On the bytes, for every envelope:
    with an empty id they start with the [type] member, and with a nil
    payload they end with it, so that the encoder writes no member of its
    own for an omitted field, neither null nor an empty string.  On the
    object read back, for an id and a type that need no escaping and a
    payload whose bytes are a JSON text: its keys are [id] if the id is
    not empty, then [type], then [payload] if the payload is not nil. *)
Theorem MarshalJSON_omits_empty_fields (m : operationMessage) :
  (ID m = "" ->
   fst (MarshalJSON m)
   = bq "{'type':'" ++ Type_ m ++ bq "'"
     ++ match Payload m with
        | Some p => bq ",'payload':" ++ snd (marshalPayload p "")
        | None => ""
        end
     ++ "}")
  /\ (Payload m = None ->
      fst (MarshalJSON m)
      = "{"
        ++ (if String.eqb (ID m) "" then "" else bq "'id':'" ++ ID m ++ bq "',")
        ++ bq "'type':'" ++ Type_ m ++ bq "'}")
  /\ (plain (ID m) = true -> plain (Type_ m) = true ->
      match Payload m with
      | Some p => exists v, GoJSON.parse_at 1 (snd (marshalPayload p "")) = Some v
      | None => True
      end ->
      object_keys (fst (MarshalJSON m))
      = Some ((if String.eqb (ID m) "" then [] else ["id"])
              ++ ["type"]
              ++ (match Payload m with Some _ => ["payload"] | None => [] end))%list).
Proof.
  split; [|split].
  - rewrite MarshalJSON_bytes. unfold envelope_head.
    intros ->. cbn [String.eqb]. now rewrite !append_assoc.
  - rewrite MarshalJSON_bytes. unfold envelope_head.
    intros ->. now rewrite !append_assoc.
  - intros Hid Hty Hp. destruct (MarshalJSON_parse m Hid Hty) as [H1 H2].
    unfold object_keys. destruct (Payload m) as [p|].
    + destruct Hp as [v Hv]. destruct (H2 p v eq_refl Hv) as [raw ->].
      unfold envelope_members. now destruct (String.eqb (ID m) "").
    + rewrite (H1 eq_refl). unfold envelope_members.
      now destruct (String.eqb (ID m) "").
Qed.

Lemma MarshalJSON_omits_empty_fields_witness :
  fst (MarshalJSON {| ID := ""; Type_ := gqlConnectionInit; Payload := None |})
  = bq "{'type':'connection_init'}"
  /\ fst (MarshalJSON {| ID := "1"; Type_ := gqlComplete; Payload := None |})
     = bq "{'id':'1','type':'complete'}"
  /\ object_keys
       (fst (MarshalJSON
               {| ID := ""; Type_ := gqlData;
                  Payload := Some (PResponse {| Data := bq "{'id':null}";
                                                Errors := None |}) |}))
     = Some ["type"; "payload"].
Proof.
  split; [|split].
  - apply (proj1 (MarshalJSON_omits_empty_fields
                    {| ID := ""; Type_ := gqlConnectionInit; Payload := None |})).
    reflexivity.
  - apply (proj1 (proj2 (MarshalJSON_omits_empty_fields
                           {| ID := "1"; Type_ := gqlComplete; Payload := None |}))).
    reflexivity.
  - apply (proj2 (proj2 (MarshalJSON_omits_empty_fields
                           {| ID := ""; Type_ := gqlData;
                              Payload := Some (PResponse {| Data := bq "{'id':null}";
                                                            Errors := None |}) |})));
      [reflexivity | reflexivity |].
    eexists. vm_compute. reflexivity.
Defined.

(** C5 fails on the code: [MarshalJSON] copies the id, the type and the
    strings of the payload between double quotes as they are, without
    escaping them, so that a double quote in one of them ends the JSON
    string and what follows it is read as members of the object.  The
    envelope [closing_query] has an empty id, and the object written for
    it has an [id] key, which [UnmarshalJSON] reads back as the id; the
    envelope [quoted_id] has a nil payload, and the object written for it
    has a [payload] key.  In both cases the error returned is nil. *)
Example MarshalJSON_unescaped_strings_add_keys :
  ID closing_query = ""
  /\ MarshalJSON closing_query
     = (bq "{'type':'start','payload':{'query':'x'},'id':'y','z':{'a':'b'}}", None)
  /\ object_keys (fst (MarshalJSON closing_query))
     = Some ["type"; "payload"; "id"; "z"]
  /\ ID (fst (UnmarshalJSON new_operationMessage (fst (MarshalJSON closing_query))))
     = "y"
  /\ Payload quoted_id = None
  /\ MarshalJSON quoted_id
     = (bq "{'id':'1','payload':'p','type':'complete'}", None)
  /\ object_keys (fst (MarshalJSON quoted_id)) = Some ["id"; "payload"; "type"].
Proof. repeat split; vm_compute; reflexivity. Qed.

(** ** Decoding what the encoder wrote *)

Section DecodeBack.
Import GoJSON.

(** The struct [raw] that [UnmarshalJSON] fills from the members of an
    encoded envelope. *)
Lemma unmarshal_envelope_members (m : operationMessage) (pv : option (bytes * json)) :
  unmarshal_struct ["id"; "type"; "payload"] store_rawMessage
    (JObject (envelope_members m pv)) new_rawMessage
  = ({| raw_ID := ID m; raw_Type := Type_ m;
        raw_Payload := match pv with Some rv => fst rv | None => "" end |}, None).
Proof.
  unfold unmarshal_struct, envelope_members.
  destruct (String.eqb (ID m) "") eqn:E.
  - apply String.eqb_eq in E. rewrite E. now destruct pv.
  - now destruct pv.
Qed.

(** An envelope without payload, with an id and a type that need no
    escaping, survives encoding and decoding: whatever its type is. *)
Lemma round_trip_without_payload (m : operationMessage) :
  plain (ID m) = true -> plain (Type_ m) = true -> Payload m = None ->
  UnmarshalJSON new_operationMessage (fst (MarshalJSON m)) = (m, None).
Proof.
  intros Hid Hty Hp.
  unfold UnmarshalJSON, Unmarshal_rawMessage, Unmarshal.
  rewrite (proj1 (MarshalJSON_parse m Hid Hty) Hp), unmarshal_envelope_members.
  cbn [raw_ID raw_Type raw_Payload ID Type_ Payload new_operationMessage
       String.length Nat.eqb].
  destruct m as [i t p]. cbn [ID Type_ Payload] in *. subst p.
  destruct (String.eqb i "") eqn:E; [apply String.eqb_eq in E; now subst|reflexivity].
Qed.

End DecodeBack.

(** ** C4: unknown message types *)

Section UnknownType.
Import GoJSON.

Lemma variant_for_known (t : reqType) :
  variant_for t = None <-> case_of t known_tags = false.
Proof.
  unfold variant_for, case_of, known_tags. cbn [existsb].
  repeat match goal with
         | |- context [String.eqb t ?tag] => destruct (String.eqb t tag)
         end; cbn; split; congruence.
Qed.

Lemma consumed_nonempty (s r : bytes) :
  String.length r < String.length s -> consumed s r <> "".
Proof.
  unfold consumed. intros H.
  destruct (String.length s - String.length r) as [|n] eqn:E; [lia|].
  destruct s as [|c s]; [cbn [String.length] in H; lia|]. discriminate.
Qed.

(** The members of a scanned object keep the bytes of their values, and
    a value has at least one byte. *)
Lemma members_raw_nonempty (fuel : nat) :
  forall d s ms r, members fuel d s = Scanned ms r ->
                   Forall (fun mem => fst (snd mem) <> "") ms.
Proof.
  induction fuel as [|fuel IH]; [discriminate|].
  intros d s ms r. destruct s as [|q s1]; [discriminate|]. rewrite members_S.
  destruct (Ascii.eqb q dquote); [|discriminate].
  destruct (string_body 0 0 s1) as [[k r1]|]; [|discriminate].
  destruct (skip_ws r1) as [|c r2]; [discriminate|].
  destruct (Ascii.eqb c ":"); [|discriminate].
  destruct (value fuel d (skip_ws r2)) as [v r4| |] eqn:Ev; try discriminate.
  apply (proj1 (scan_consumes fuel)), consumed_nonempty in Ev.
  destruct (skip_ws r4) as [|c' r5]; [discriminate|].
  destruct (Ascii.eqb c' ",").
  { destruct (members fuel d (skip_ws r5)) as [ms' r6| |] eqn:Em; try discriminate.
    intros [= <- _]. constructor; [exact Ev|]. exact (IH _ _ _ _ Em). }
  destruct (Ascii.eqb c' "}"); [|discriminate].
  intros [= <- _]. now constructor.
Qed.

Lemma parse_raw_nonempty (b : bytes) (ms : list (bytes * (bytes * json))) :
  parse b = Some (JObject ms) -> Forall (fun mem => fst (snd mem) <> "") ms.
Proof.
  unfold parse. intros (r & Hv & _)%parse_at_value.
  destruct (fuel_for (skip_ws b)) as [|f]; [discriminate|].
  destruct (skip_ws b) as [|c s']; [discriminate|]. revert Hv. cbn [value].
  destruct (Ascii.eqb c "{").
  { destruct (Nat.ltb _ _); [discriminate|].
    destruct (skip_ws s') as [|c1 r1]; [discriminate|].
    destruct (Ascii.eqb c1 "}"); [intros [= <- _]; constructor|].
    destruct (members _ _ _) as [ms' r'| |] eqn:Em; try discriminate.
    intros [= <- _]. exact (members_raw_nonempty _ _ _ _ _ Em). }
  destruct (Ascii.eqb c "[").
  { destruct (Nat.ltb _ _); [discriminate|].
    destruct (skip_ws s') as [|c1 r1]; [discriminate|].
    destruct (Ascii.eqb c1 "]"); [discriminate|].
    destruct (elems _ _ _); discriminate. }
  destruct (Ascii.eqb c dquote); [destruct (string_body _ _ _) as [[? ?]|]; discriminate|].
  destruct (Ascii.eqb c "t"); [destruct (strip_prefix _ _); discriminate|].
  destruct (Ascii.eqb c "f"); [destruct (strip_prefix _ _); discriminate|].
  destruct (Ascii.eqb c "n"); [destruct (strip_prefix _ _); discriminate|].
  destruct (_ || _); [destruct (number_rest _); discriminate|discriminate].
Qed.

(** Members that fit the envelope are decoded without a type error. *)
Lemma raw_fold_no_error (ms : list (bytes * (bytes * json)))
    (acc : rawMessage * option error) :
  Forall fits_envelope ms -> snd acc = None ->
  snd (fold_left raw_step ms acc) = None.
Proof.
  revert acc. induction ms as [|mem ms IH]; intros acc Hok Hacc; [exact Hacc|].
  cbn [fold_left]. apply IH; [now apply Forall_inv_tail in Hok|].
  apply Forall_inv in Hok. unfold fits_envelope, field_of in Hok. unfold raw_step.
  destruct (lookup_field envelope_fields (fst mem)) as [f|] eqn:Ef; [|exact Hacc].
  cbn [snd]. rewrite Hacc. cbn [saveError].
  apply lookup_field_envelope in Ef. unfold store_rawMessage.
  destruct Ef as [->|[->| ->]]; cbn [String.eqb Ascii.eqb Bool.eqb snd];
    try reflexivity;
    (destruct Hok as [Hok|Hok]; [discriminate Hok|]);
    destruct (snd (snd mem)); try contradiction; reflexivity.
Qed.

(** The payload of [raw] is empty exactly when no member selects it. *)
Lemma raw_fold_payload (ms : list (bytes * (bytes * json)))
    (acc : rawMessage * option error) :
  Forall (fun mem => fst (snd mem) <> "") ms ->
  raw_Payload (fst (fold_left raw_step ms acc)) = ""
  <-> raw_Payload (fst acc) = "" /\ ~ In "payload" (fields_of ms).
Proof.
  revert acc. induction ms as [|mem ms IH]; intros acc Hne.
  - cbn. tauto.
  - cbn [fold_left fields_of]. rewrite IH by (now apply Forall_inv_tail in Hne).
    apply Forall_inv in Hne. unfold raw_step, field_of.
    destruct (lookup_field envelope_fields (fst mem)) as [f|] eqn:Ef; [|tauto].
    apply lookup_field_envelope in Ef. unfold store_rawMessage.
    destruct Ef as [->|[->| ->]]; cbn [String.eqb Ascii.eqb Bool.eqb fst raw_Payload In];
      [| |split; [intros [H _]; contradiction|intros [_ H]; exfalso; apply H; now left]];
      (split; intros [H1 H2]; (split; [exact H1|]);
       [intros [Hq|Hq]; [discriminate Hq|contradiction]
       |intros Hq; apply H2; now right]).
Qed.

End UnknownType.

(** C4, as the code has it: on a JSON object whose members fit the
    envelope and whose type is not one of the ten tags, decoding fails
    with the unsupported-type error when a member selects the payload,
    and succeeds, setting the type and leaving the payload alone, when
    none does. *)
Theorem unknown_type_rejected_iff_payload (m : operationMessage) (b : bytes)
    (ms : list (bytes * (bytes * GoJSON.json))) :
  GoJSON.parse b = Some (GoJSON.JObject ms) ->
  Forall fits_envelope ms ->
  case_of (decoded_type ms) known_tags = false ->
  (In "payload" (fields_of ms) ->
   snd (UnmarshalJSON m b)
   = Some (Errorf ("unsupported message type: " ++ decoded_type ms)))
  /\ (~ In "payload" (fields_of ms) ->
      snd (UnmarshalJSON m b) = None
      /\ Type_ (fst (UnmarshalJSON m b)) = decoded_type ms
      /\ Payload (fst (UnmarshalJSON m b)) = Payload m).
Proof.
  intros Hp Hok Hun.
  pose proof (parse_raw_nonempty _ _ Hp) as Hne.
  pose proof (raw_fold_payload ms (new_rawMessage, None) Hne) as Hpay.
  pose proof (raw_fold_no_error ms (new_rawMessage, None) Hok eq_refl) as Herr.
  apply variant_for_known in Hun. unfold variant_for in Hun.
  unfold UnmarshalJSON, Unmarshal_rawMessage, GoJSON.Unmarshal. rewrite Hp.
  unfold GoJSON.unmarshal_struct.
  change (fold_left _ ms (new_rawMessage, None))
    with (fold_left raw_step ms (new_rawMessage, @None error)).
  unfold decoded_type in *.
  destruct (fold_left raw_step ms (new_rawMessage, None)) as [raw e].
  cbn [fst snd] in *. subst e. cbv zeta.
  destruct (case_of (raw_Type raw) [gqlConnectionInit; _; _; _]); [discriminate|].
  destruct (case_of (raw_Type raw) [gqlConnectionError; _; _; _; _]); [discriminate|].
  destruct (case_of (raw_Type raw) [gqlError]); [discriminate|].
  destruct (Nat.eqb (String.length (raw_Payload raw)) 0) eqn:El.
  - apply Nat.eqb_eq in El.
    assert (raw_Payload raw = "") as E by (destruct (raw_Payload raw); [reflexivity|discriminate]).
    apply Hpay in E as [_ Hnin]. split; [intros Hin; contradiction|].
    intros _. destruct (negb _); cbn [fst snd Type_ Payload]; auto.
  - split; [intros _; destruct (negb _); reflexivity|].
    intros Hnin. exfalso.
    assert (raw_Payload raw = "") as E by (apply Hpay; split; [reflexivity|exact Hnin]).
    rewrite E in El. discriminate.
Qed.

Lemma unknown_type_rejected_iff_payload_witness :
  snd (UnmarshalJSON new_operationMessage (bq "{'payload':null,'type':'bogus'}"))
  = Some (Errorf "unsupported message type: bogus")
  /\ snd (UnmarshalJSON new_operationMessage (bq "{'id':'7','type':'bogus'}")) = None.
Proof.
  split.
  - refine (proj1 (unknown_type_rejected_iff_payload new_operationMessage
              (bq "{'payload':null,'type':'bogus'}")
              [("payload", ("null", GoJSON.JNull));
               ("type", (bq "'bogus'", GoJSON.JString "bogus"))] _ _ _) _).
    + vm_compute. reflexivity.
    + repeat (constructor; [vm_compute; auto|]). constructor.
    + vm_compute. reflexivity.
    + vm_compute. auto.
  - refine (proj1 (proj2 (unknown_type_rejected_iff_payload new_operationMessage
              (bq "{'id':'7','type':'bogus'}")
              [("id", (bq "'7'", GoJSON.JString "7"));
               ("type", (bq "'bogus'", GoJSON.JString "bogus"))] _ _ _) _)).
    + vm_compute. reflexivity.
    + repeat (constructor; [vm_compute; auto|]). constructor.
    + vm_compute. reflexivity.
    + vm_compute. intros [H|[H|[]]]; discriminate H.
Defined.

(** C4 as stated fails: valid JSON with a type outside the ten tags, or
    with no type at all, is decoded without an error when no payload is
    given. *)
Example unknown_type_decoded_without_error :
  GoJSON.parse (bq "{'type':'bogus'}") <> None
  /\ case_of "bogus" known_tags = false
  /\ UnmarshalJSON new_operationMessage (bq "{'type':'bogus'}")
     = ({| ID := ""; Type_ := "bogus"; Payload := None |}, None)
  /\ UnmarshalJSON new_operationMessage "{}" = (new_operationMessage, None).
Proof. vm_compute. repeat split; discriminate. Qed.

(** ** Values inside values *)

Section Nesting.
Import GoJSON.

(** What is read some levels down is read the same way one level up. *)
Lemma scan_depth_S (fuel : nat) :
  (forall d s v r, value fuel (S d) s = Scanned v r -> value fuel d s = Scanned v r)
  /\ (forall d s es r, elems fuel (S d) s = Scanned es r -> elems fuel d s = Scanned es r)
  /\ (forall d s ms r, members fuel (S d) s = Scanned ms r -> members fuel d s = Scanned ms r).
Proof.
  assert (Hlt : forall d, Nat.ltb maxNestingDepth (S (S d)) = false ->
                          Nat.ltb maxNestingDepth (S d) = false).
  { intros d H. apply Nat.ltb_ge. apply Nat.ltb_ge in H. lia. }
  induction fuel as [|fuel (IHv & IHe & IHm)]; [repeat split; discriminate|].
  repeat split.
  - intros d s v r. destruct s as [|c s']; [discriminate|]. cbn [value].
    destruct (Ascii.eqb c "{").
    { destruct (Nat.ltb _ (S (S d))) eqn:Ed; [discriminate|]. rewrite (Hlt _ Ed).
      destruct (skip_ws s') as [|c1 r1]; [discriminate|].
      destruct (Ascii.eqb c1 "}"); [trivial|].
      destruct (members fuel (S (S d)) _) as [ms r'| |] eqn:Em; try discriminate.
      now rewrite (IHm _ _ _ _ Em). }
    destruct (Ascii.eqb c "["); [|trivial].
    destruct (Nat.ltb _ (S (S d))) eqn:Ed; [discriminate|]. rewrite (Hlt _ Ed).
    destruct (skip_ws s') as [|c1 r1]; [discriminate|].
    destruct (Ascii.eqb c1 "]"); [trivial|].
    destruct (elems fuel (S (S d)) _) as [es r'| |] eqn:Ee; try discriminate.
    now rewrite (IHe _ _ _ _ Ee).
  - intros d s es r. rewrite !elems_S.
    destruct (value fuel (S d) s) as [v r0| |] eqn:Ev; try discriminate.
    rewrite (IHv _ _ _ _ Ev).
    destruct (skip_ws r0) as [|c r1]; [discriminate|].
    destruct (Ascii.eqb c ","); [|trivial].
    destruct (elems fuel (S d) (skip_ws r1)) as [es' r2| |] eqn:Ee; try discriminate.
    now rewrite (IHe _ _ _ _ Ee).
  - intros d s ms r. destruct s as [|q s1]; [discriminate|]. rewrite !members_S.
    destruct (Ascii.eqb q dquote); [|discriminate].
    destruct (string_body 0 0 s1) as [[k r1]|]; [|discriminate].
    destruct (skip_ws r1) as [|c r2]; [discriminate|].
    destruct (Ascii.eqb c ":"); [|discriminate].
    destruct (value fuel (S d) (skip_ws r2)) as [v r4| |] eqn:Ev; try discriminate.
    rewrite (IHv _ _ _ _ Ev).
    destruct (skip_ws r4) as [|c' r5]; [discriminate|].
    destruct (Ascii.eqb c' ","); [|trivial].
    destruct (members fuel (S d) (skip_ws r5)) as [ms' r6| |] eqn:Em; try discriminate.
    now rewrite (IHm _ _ _ _ Em).
Qed.

Lemma value_depth_le (fuel d d' : nat) (s : bytes) (v : json) (r : bytes) :
  d <= d' -> value fuel d' s = Scanned v r -> value fuel d s = Scanned v r.
Proof.
  induction 1 as [|d' _ IH]; [trivial|].
  intros H. now apply IH, (proj1 (scan_depth_S fuel)).
Qed.

Lemma skip_digits_append_end (s t : bytes) (c : ascii) :
  isDigit c = false ->
  skip_digits (s ++ String c t) = skip_digits s ++ String c t.
Proof.
  intros Hc. induction s as [|a s IH].
  - rewrite !append_nil_l. cbn [skip_digits]. now rewrite Hc.
  - rewrite append_cons. cbn [skip_digits]. destruct (isDigit a); [exact IH|reflexivity].
Qed.

Lemma digits1_append_end (s t r : bytes) (c : ascii) :
  isDigit c = false ->
  digits1 s = Some r -> digits1 (s ++ String c t) = Some (r ++ String c t).
Proof.
  intros Hc. destruct s as [|a s]; [discriminate|]. rewrite append_cons. cbn [digits1].
  destruct (isDigit a); [|discriminate]. intros [= <-].
  now rewrite skip_digits_append_end.
Qed.

Lemma number_rest_append_end (s t r : bytes) (c : ascii) :
  ends_number c = true ->
  number_rest s = Some r -> number_rest (s ++ String c t) = Some (r ++ String c t).
Proof.
  unfold ends_number. intros Hc.
  apply andb_prop in Hc as [Hc HE]. apply andb_prop in Hc as [Hc He].
  apply andb_prop in Hc as [Hd Hdot].
  apply negb_true_iff in Hd, Hdot, He, HE.
  unfold number_rest.
  destruct (num_int (num_sign s)) as [s2|] eqn:E2; [|discriminate].
  destruct (num_frac s2) as [s3|] eqn:E3; [|discriminate].
  intros E4.
  assert (Hs : num_sign (s ++ String c t) = num_sign s ++ String c t).
  { destruct s as [|a s]; [discriminate|]. rewrite append_cons. cbn [num_sign].
    destruct (Ascii.eqb a "-"); reflexivity. }
  assert (H2 : num_int (num_sign s ++ String c t) = Some (s2 ++ String c t)).
  { destruct (num_sign s) as [|a u]; [discriminate|].
    rewrite append_cons. cbn [num_int] in *.
    destruct (Ascii.eqb a "0"); [now injection E2 as <-|].
    destruct (isDigit a); [|discriminate]. injection E2 as <-.
    now rewrite skip_digits_append_end. }
  assert (H3 : num_frac (s2 ++ String c t) = Some (s3 ++ String c t)).
  { destruct s2 as [|a u].
    - injection E3 as <-. rewrite !append_nil_l. cbn [num_frac].
      now rewrite Hdot.
    - rewrite append_cons. cbn [num_frac] in *.
      destruct (Ascii.eqb a "."); [now apply digits1_append_end|].
      now injection E3 as <-. }
  rewrite Hs, H2, H3.
  destruct s3 as [|a u].
  - injection E4 as <-. rewrite !append_nil_l. cbn [num_exp].
    now rewrite He, HE.
  - rewrite append_cons. cbn [num_exp] in *.
    destruct (_ || _); [|now injection E4 as <-].
    destruct u as [|g u']; [discriminate|]. rewrite append_cons.
    destruct (_ || _); [now apply digits1_append_end|].
    rewrite <- append_cons. now apply digits1_append_end.
Qed.

(** A value that ends the input is read the same way when a byte that
    ends a number follows it. *)
Lemma value_append_end (fuel d : nat) (s t : bytes) (c : ascii) (v : json) :
  ends_number c = true ->
  value fuel d s = Scanned v "" ->
  value fuel d (s ++ String c t) = Scanned v (String c t).
Proof.
  intros Hc Hv.
  assert (Hnum : (forall lit, v <> JNumber lit)
                 \/ exists r, number_rest s = Some r /\ r = ""
                              /\ v = JNumber (consumed s r)
                              /\ forall f, value (S f) d s = Scanned v ""
                                 -> forall u, number_rest (s ++ u) = Some u
                                 -> value (S f) d (s ++ u) = Scanned (JNumber (consumed (s ++ u) u)) u).
  { destruct fuel as [|fuel]; [discriminate|]. revert Hv.
    destruct s as [|a s']; [discriminate|]. cbn [value].
    destruct (Ascii.eqb a "{") eqn:E1.
    { destruct (Nat.ltb _ _); [discriminate|].
      destruct (skip_ws s') as [|c1 r1]; [discriminate|].
      destruct (Ascii.eqb c1 "}"); [intros [= <- _]; left; discriminate|].
      destruct (members _ _ _); try discriminate. intros [= <- _]. left. discriminate. }
    destruct (Ascii.eqb a "[") eqn:E2.
    { destruct (Nat.ltb _ _); [discriminate|].
      destruct (skip_ws s') as [|c1 r1]; [discriminate|].
      destruct (Ascii.eqb c1 "]"); [intros [= <- _]; left; discriminate|].
      destruct (elems _ _ _); try discriminate. intros [= <- _]. left. discriminate. }
    destruct (Ascii.eqb a dquote) eqn:E3.
    { destruct (string_body _ _ _) as [[? ?]|]; [|discriminate].
      intros [= <- _]. left. discriminate. }
    destruct (Ascii.eqb a "t") eqn:E4.
    { destruct (strip_prefix _ _); [|discriminate]. intros [= <- _]. left. discriminate. }
    destruct (Ascii.eqb a "f") eqn:E5.
    { destruct (strip_prefix _ _); [|discriminate]. intros [= <- _]. left. discriminate. }
    destruct (Ascii.eqb a "n") eqn:E6.
    { destruct (strip_prefix _ _); [|discriminate]. intros [= <- _]. left. discriminate. }
    destruct (_ || _) eqn:E7; [|discriminate].
    destruct (number_rest _) as [r'|] eqn:En; [|discriminate].
    intros [= <- ->]. right. exists "". repeat split.
    intros f _ u Hu. rewrite append_cons. cbn [value].
    rewrite E1, E2, E3, E4, E5, E6, E7, <- append_cons, Hu. reflexivity. }
  destruct Hnum as [Hn|(r & Hr & -> & -> & Hval)].
  - now rewrite (proj1 (scan_append fuel) _ _ (String c t) _ _ Hv (or_intror Hn)).
  - destruct fuel as [|fuel]; [discriminate|].
    pose proof (number_rest_append_end _ t _ _ Hc Hr) as Hu. rewrite append_nil_l in Hu.
    rewrite (Hval fuel Hv _ Hu). f_equal. f_equal.
    rewrite <- (append_nil_l (String c t)) at 2. rewrite consumed_append; [reflexivity|].
    cbn [String.length]. lia.
Qed.

(** A value does not start with white space. *)
Lemma value_head_nonspace (fuel d : nat) (c : ascii) (s : bytes) (v : json) (r : bytes) :
  value fuel d (String c s) = Scanned v r -> isSpace c = false.
Proof.
  destruct (isSpace c) eqn:E; [|reflexivity].
  destruct fuel as [|fuel]; [discriminate|].
  destruct c as [[] [] [] [] [] [] [] []]; try discriminate E; cbn; discriminate.
Qed.

Lemma comma_ends_number : ends_number "," = true. Proof. reflexivity. Qed.
Lemma brace_ends_number : ends_number "}" = true. Proof. reflexivity. Qed.
Lemma bracket_ends_number : ends_number "]" = true. Proof. reflexivity. Qed.

(** A member whose value is a JSON value with nothing around it,
    followed by more members. *)
Lemma members_value_more (f d : nat) (k V k' X : bytes) (v : json)
    (ms : list (bytes * (bytes * json))) (r : bytes) :
  plain k = true ->
  value f d V = Scanned v "" ->
  members f d (quoted k' ++ X) = Scanned ms r ->
  members (S f) d (quoted k ++ ":" ++ V ++ "," ++ quoted k' ++ X)
  = Scanned ((k, (V, v)) :: ms) r.
Proof.
  intros Hk Hv Hm.
  destruct V as [|c V']; [now apply value_nil in Hv|].
  pose proof (value_head_nonspace _ _ _ _ _ _ Hv) as Hc.
  rewrite <- quoted_append, members_S, Ascii.eqb_refl, (string_body_plain _ _ Hk).
  rewrite append_cons, append_nil_l. cbn [skip_ws].
  change (isSpace ":") with false. cbv iota. rewrite Ascii.eqb_refl.
  rewrite (append_cons c), (skip_ws_nonspace _ _ Hc), <- (append_cons c).
  rewrite (append_cons ","), append_nil_l.
  rewrite (value_append_end _ _ _ _ _ _ comma_ends_number Hv), consumed_prefix.
  cbn [skip_ws]. change (isSpace ",") with false. cbv iota. rewrite Ascii.eqb_refl.
  rewrite skip_ws_quoted, Hm. reflexivity.
Qed.

(** The same member when it is the last one. *)
Lemma members_value_end (f d : nat) (k V rest : bytes) (v : json) :
  plain k = true ->
  value f d V = Scanned v "" ->
  members (S f) d (quoted k ++ ":" ++ V ++ "}" ++ rest)
  = Scanned [(k, (V, v))] rest.
Proof.
  intros Hk Hv.
  destruct V as [|c V']; [now apply value_nil in Hv|].
  pose proof (value_head_nonspace _ _ _ _ _ _ Hv) as Hc.
  rewrite <- quoted_append, members_S, Ascii.eqb_refl, (string_body_plain _ _ Hk).
  rewrite append_cons, append_nil_l. cbn [skip_ws].
  change (isSpace ":") with false. cbv iota. rewrite Ascii.eqb_refl.
  rewrite (append_cons c), (skip_ws_nonspace _ _ Hc), <- (append_cons c).
  rewrite (append_cons "}"), append_nil_l.
  rewrite (value_append_end _ _ _ _ _ _ brace_ends_number Hv), consumed_prefix.
  cbn [skip_ws]. change (isSpace "}") with false. cbv iota.
  change (Ascii.eqb "}" ",") with false. cbv iota. rewrite Ascii.eqb_refl. reflexivity.
Qed.

(** The elements of an array, each a JSON value with nothing around it,
    written one after the other with commas in between. *)
Lemma elems_join (f d : nat) (E : bytes) (errs : list bytes) (rest : bytes) :
  Forall (fun e => exists v, value f d e = Scanned v "") (E :: errs) ->
  exists es,
    elems (S (length errs) + f) d (join "," (E :: errs) ++ "]" ++ rest) = Scanned es rest
    /\ map fst es = E :: errs.
Proof.
  revert E. induction errs as [|E' errs IH]; intros E HF.
  - apply Forall_inv in HF as [v Hv].
    destruct E as [|c E0]; [now apply value_nil in Hv|].
    exists [(String c E0, v)]. split; [|reflexivity].
    cbn [length plus join]. rewrite elems_S, (append_cons "]"), append_nil_l.
    rewrite (value_append_end _ _ _ _ _ _ bracket_ends_number Hv), consumed_prefix.
    cbn [skip_ws]. change (isSpace "]") with false. cbv iota.
    change (Ascii.eqb "]" ",") with false. cbv iota. now rewrite Ascii.eqb_refl.
  - pose proof (Forall_inv HF) as [v Hv]. apply Forall_inv_tail in HF.
    destruct (IH E' HF) as (es & Hes & Hmap).
    destruct E as [|c E0]; [now apply value_nil in Hv|].
    destruct E' as [|c' E0']; [apply Forall_inv in HF as [? HF]; now apply value_nil in HF|].
    pose proof (Forall_inv HF) as [v' Hv'].
    pose proof (value_head_nonspace _ _ _ _ _ _ Hv') as Hc'.
    exists ((String c E0, v) :: es). split; [|cbn [map fst]; now rewrite Hmap].
    change (join "," (String c E0 :: String c' E0' :: errs))
      with (String c E0 ++ "," ++ join "," (String c' E0' :: errs)).
    cbn [length plus]. rewrite elems_S, !append_assoc, (append_cons ","), append_nil_l.
    assert (Hv2 : value (S (length errs) + f) d (String c E0) = Scanned v "").
    { rewrite (value_fuel_le f); [exact Hv|lia|now rewrite Hv]. }
    rewrite (value_append_end _ _ _ _ _ _ comma_ends_number Hv2), consumed_prefix.
    cbn [skip_ws]. change (isSpace ",") with false. cbv iota. rewrite Ascii.eqb_refl.
    assert (Hsk : skip_ws (join "," (String c' E0' :: errs) ++ "]" ++ rest)
                  = join "," (String c' E0' :: errs) ++ "]" ++ rest).
    { destruct errs; cbn [join]; rewrite ?append_assoc, append_cons;
        now apply skip_ws_nonspace. }
    rewrite Hsk. cbn [length plus] in Hes. now rewrite Hes.
Qed.

(** An array of such elements. *)
Lemma value_array (f d : nat) (errs : list bytes) (rest : bytes) :
  Nat.ltb maxNestingDepth (S d) = false ->
  Forall (fun e => exists v, value f (S d) e = Scanned v "") errs ->
  exists es,
    value (S (length errs) + f) d ("[" ++ join "," errs ++ "]" ++ rest)
    = Scanned (JArray es) rest
    /\ map fst es = errs.
Proof.
  intros Hd HF. destruct errs as [|E errs].
  - exists []. split; [|reflexivity].
    cbn [join length plus]. rewrite append_nil_l, !append_cons, append_nil_l.
    cbn [value]. change (Ascii.eqb "[" "{") with false. cbv iota.
    rewrite Ascii.eqb_refl, Hd. cbn [skip_ws]. change (isSpace "]") with false.
    cbv iota. now rewrite Ascii.eqb_refl.
  - destruct (elems_join f (S d) E errs rest HF) as (es & Hes & Hmap).
    exists es. split; [|exact Hmap].
    pose proof (Forall_inv HF) as [v Hv].
    destruct E as [|c E0]; [now apply value_nil in Hv|].
    pose proof (value_head_nonspace _ _ _ _ _ _ Hv) as Hc.
    assert (Hj : exists J, join "," (String c E0 :: errs) ++ "]" ++ rest = String c J).
    { destruct errs; cbn [join]; rewrite ?append_assoc, append_cons; eauto. }
    destruct Hj as [J HJ]. rewrite HJ in *.
    rewrite append_cons, append_nil_l.
    change (S (length (String c E0 :: errs)) + f) with (S (S (length errs) + f)).
    cbn [value]. change (Ascii.eqb "[" "{") with false. cbv iota.
    rewrite Ascii.eqb_refl, Hd, (skip_ws_nonspace _ _ Hc).
    assert (Hb : Ascii.eqb c "]" = false).
    { destruct (Ascii.eqb c "]") eqn:Eb; [|reflexivity].
      apply Ascii.eqb_eq in Eb. subst c. destruct f; discriminate. }
    now rewrite Hb, Hes.
Qed.

End Nesting.

(** ** The round trip of well-formed envelopes *)

Section RoundTrip.
Import GoJSON.

Lemma members_fuel_le (fuel fuel' d : nat) (s : bytes) :
  fuel <= fuel' -> members fuel d s <> Starved -> members fuel' d s = members fuel d s.
Proof.
  induction 1 as [|fuel' _ IH]; [trivial|].
  intros Hs. rewrite <- (IH Hs).
  apply (proj2 (proj2 (scan_fuel_S fuel'))). now rewrite (IH Hs).
Qed.

Lemma consumed_nil (s : bytes) : consumed s "" = s.
Proof. rewrite <- (append_nil_r s) at 1. apply consumed_prefix. Qed.

Lemma ltb_depth (d : nat) : d <= 3 -> Nat.ltb maxNestingDepth (S d) = false.
Proof.
  intros H. apply Nat.ltb_ge.
  assert (4 <= maxNestingDepth) by (apply Nat.leb_le; vm_compute; reflexivity). lia.
Qed.

(** The bytes of a [ServerError], read as a value. *)
Lemma ServerError_value (v : ServerError) (d : nat) :
  d <= 3 -> plain (Msg v) = true ->
  value 4 d (ServerError_bytes v)
  = Scanned (JObject [("msg", (quoted (Msg v), JString (Msg v)))]) "".
Proof.
  intros Hd Hm.
  assert (E : ServerError_bytes v = "{" ++ quoted "msg" ++ ":" ++ quoted (Msg v) ++ "}" ++ "").
  { unfold ServerError_bytes. norm_bytes. reflexivity. }
  rewrite E. apply value_object_quoted; [now apply ltb_depth|].
  now apply members_plain_last.
Qed.

(** The bytes of a [Request], member by member. *)
Lemma Request_bytes_members (v : Request) :
  Request_error v = None ->
  Request_bytes v
  = "{" ++ quoted "query" ++ ":" ++ quoted (Query v)
    ++ match Variables v with
       | Some vars =>
         "," ++ quoted "variables" ++ ":"
         ++ match Marshal vars with Ok b => b | Err _ => "" end
         ++ (if String.eqb (OperationName v) "" then "}" ++ ""
             else "," ++ quoted "operationName" ++ ":" ++ quoted (OperationName v)
                  ++ "}" ++ "")
       | None =>
         if String.eqb (OperationName v) "" then "}" ++ ""
         else "," ++ quoted "operationName" ++ ":" ++ quoted (OperationName v) ++ "}" ++ ""
       end.
Proof.
  unfold Request_error, Request_bytes, Request_tail.
  destruct (Variables v) as [vars|]; [destruct (Marshal vars); [|discriminate]|];
    intros _; destruct (String.eqb (OperationName v) ""); norm_bytes; reflexivity.
Qed.

(** The bytes of a well-formed [Request], read as a value. *)
Lemma Request_value (v : Request) (d : nat) :
  d <= 1 -> well_formed_payload (PRequest v) ->
  exists f jv,
    Request_error v = None
    /\ value f d (Request_bytes v) = Scanned (JObject (Request_members v jv)) ""
    /\ match Variables v, jv with
       | Some vars, Some j => store_map "variables" j None = (Some vars, None)
       | None, None => True
       | _, _ => False
       end.
Proof.
  intros Hd (Hq & Ho & Hv). unfold Request_members.
  destruct (Variables v) as [vars|] eqn:EV.
  - destruct Hv as (b & f & jv & Hb & Hjv & Hst).
    assert (Herr : Request_error v = None).
    { unfold Request_error. now rewrite EV, Hb. }
    exists (4 + f), (Some jv). split; [exact Herr|]. split; [|exact Hst].
    rewrite (Request_bytes_members v Herr), EV, Hb.
    assert (Hjd : value f (S d) b = Scanned jv "")
      by (apply (value_depth_le f (S d) 2); [lia|exact Hjv]).
    assert (Hjv' : value (S f) (S d) b = Scanned jv "")
      by (rewrite (value_fuel_le f (S f)); [exact Hjd|lia|now rewrite Hjd]).
    destruct (String.eqb (OperationName v) "").
    + apply (value_object_quoted (3 + f)); [apply ltb_depth; lia|].
      apply (members_plain_more_quoted (2 + f)); try assumption; try reflexivity.
      cbn [app]. now apply (members_value_end (1 + f)).
    + apply (value_object_quoted (3 + f)); [apply ltb_depth; lia|].
      apply (members_plain_more_quoted (2 + f)); try assumption; try reflexivity.
      cbn [app].
      apply (members_value_more (1 + f)); [reflexivity|exact Hjv'|].
      destruct f as [|f]; [discriminate Hjv|].
      now apply members_plain_last.
  - exists 4, None. split; [unfold Request_error; now rewrite EV|]. split; [|exact I].
    rewrite (Request_bytes_members v) by (unfold Request_error; now rewrite EV).
    rewrite EV. destruct (String.eqb (OperationName v) "").
    + apply value_object_quoted; [apply ltb_depth; lia|].
      now apply members_plain_last.
    + apply value_object_quoted; [apply ltb_depth; lia|].
      apply members_plain_more_quoted; try assumption; try reflexivity.
      now apply members_plain_last.
Qed.

Lemma value_lift (f f' d d' : nat) (s : bytes) (v : json) (r : bytes) :
  f <= f' -> d' <= d ->
  value f d s = Scanned v r -> value f' d' s = Scanned v r.
Proof.
  intros Hf Hd Hv. apply (value_depth_le f' d' d); [exact Hd|].
  rewrite (value_fuel_le f f'); [exact Hv|exact Hf|now rewrite Hv].
Qed.

(** One amount of fuel for all the values of a list. *)
Lemma json_values_fuel (d : nat) (l : list bytes) :
  Forall (json_value d) l ->
  exists F, Forall (fun e => exists v, value F d e = Scanned v "") l.
Proof.
  induction 1 as [|e l (f & v & Hv) _ (F & IH)]; [exists 0; constructor|].
  exists (Nat.max f F). constructor.
  - exists v. apply (value_lift f _ d d); [lia|lia|exact Hv].
  - eapply Forall_impl; [exact IH|].
    intros e' [v' Hv']. exists v'. apply (value_lift F _ d d); [lia|lia|exact Hv'].
Qed.

Lemma Response_bytes_members (v : Response) :
  Response_bytes v
  = "{" ++ quoted "data" ++ ":" ++ Data v
    ++ match Errors v with
       | Some errs =>
         "," ++ quoted "errors" ++ ":" ++ ("[" ++ join "," errs ++ "]") ++ "}" ++ ""
       | None => "}" ++ ""
       end.
Proof.
  unfold Response_bytes. destruct (Errors v); norm_bytes; reflexivity.
Qed.

(** The bytes of a well-formed [Response], read as a value. *)
Lemma Response_value (v : Response) (d : nat) :
  d <= 1 -> well_formed_payload (PResponse v) ->
  exists f dv es,
    value f d (Response_bytes v) = Scanned (JObject (Response_members v dv es)) ""
    /\ (forall errs, Errors v = Some errs -> map fst es = errs).
Proof.
  intros Hd ((fD & dv & HD) & HE). unfold Response_members.
  rewrite Response_bytes_members.
  destruct (Errors v) as [errs|].
  - apply json_values_fuel in HE as [fE HE].
    assert (HE' : Forall (fun e => exists v, value fE (S (S d)) e = Scanned v "") errs).
    { eapply Forall_impl; [exact HE|]. intros e [w Hw]. exists w.
      apply (value_lift fE fE 3); [lia|lia|exact Hw]. }
    destruct (value_array fE (S d) errs "" (ltb_depth (S d) ltac:(lia)) HE')
      as (es & Hes & Hmap).
    rewrite (append_nil_r "]") in Hes.
    set (F := Nat.max fD (S (length errs) + fE)).
    exists (3 + F), dv, es. split; [|now intros ? [= <-]].
    apply (value_object_quoted (2 + F)); [apply ltb_depth; lia|].
    apply (members_value_more (1 + F)); [reflexivity| |].
    + apply (value_lift fD _ 2); [lia|lia|exact HD].
    + apply (members_value_end F); [reflexivity|].
      apply (value_lift (S (length errs) + fE) F (S d) (S d)); [lia|lia|exact Hes].
  - exists (2 + fD), dv, []. split; [|discriminate].
    apply (value_object_quoted (1 + fD)); [apply ltb_depth; lia|].
    apply (members_value_end fD); [reflexivity|].
    apply (value_lift fD _ 2); [lia|lia|exact HD].
Qed.

(** A text that starts with a brace and is read as a value to its end
    is what [parse] returns. *)
Lemma value_parse_brace (f : nat) (s : bytes) (v : json) :
  value f 0 (String "{" s) = Scanned v "" -> parse (String "{" s) = Some v.
Proof. intros H. now apply (value_parse_at f 0 (String "{" s)). Qed.

Lemma Unmarshal_ServerError_bytes (v : ServerError) :
  well_formed_payload (PServerError v) ->
  Unmarshal_ServerError (ServerError_bytes v) new_ServerError = (v, None).
Proof.
  intros Hm. pose proof (ServerError_value v 0 ltac:(lia) Hm) as Hv.
  unfold Unmarshal_ServerError, Unmarshal.
  assert (E : ServerError_bytes v = String "{" (bq "'msg':'" ++ Msg v ++ bq "'}"))
    by reflexivity.
  rewrite E in *. rewrite (value_parse_brace _ _ _ Hv). now destruct v.
Qed.

Lemma Unmarshal_Request_bytes (v : Request) :
  well_formed_payload (PRequest v) ->
  Unmarshal_Request (Request_bytes v) new_Request = (v, None).
Proof.
  intros Hw. destruct (Request_value v 0 ltac:(lia) Hw) as (f & jv & Herr & Hv & Hst).
  unfold Unmarshal_Request, Unmarshal.
  assert (E : Request_bytes v = String "{" (bq "'query':'" ++ Query v ++ bq "'"
                ++ match Variables v with
                   | Some vars =>
                     bq ",'variables':"
                     ++ match Marshal vars with
                        | Ok b => b ++ Request_tail v
                        | Err _ => ""
                        end
                   | None => Request_tail v
                   end)) by reflexivity.
  rewrite E in *. rewrite (value_parse_brace _ _ _ Hv).
  unfold unmarshal_struct, Request_members.
  destruct v as [q vars o]. cbn [Query Variables OperationName] in *.
  destruct vars as [vars|], jv as [jv|]; try contradiction;
    destruct (String.eqb o "") eqn:Eo;
    try (apply String.eqb_eq in Eo; subst o);
    cbn [app fold_left]; unfold store_Request, new_Request;
    cbn [fst snd Query Variables OperationName lookup_field find String.eqb Ascii.eqb
           Bool.eqb saveError];
    rewrite ?Hst; reflexivity.
Qed.

Lemma Unmarshal_Response_bytes (v : Response) :
  well_formed_payload (PResponse v) ->
  Unmarshal_Response (Response_bytes v) new_Response = (v, None).
Proof.
  intros Hw. destruct (Response_value v 0 ltac:(lia) Hw) as (f & dv & es & Hv & Hes).
  unfold Unmarshal_Response, Unmarshal.
  assert (E : Response_bytes v
              = String "{" (bq "'data':" ++ Data v
                            ++ match Errors v with
                               | Some errs => bq ",'errors':[" ++ join "," errs ++ "]"
                               | None => ""
                               end ++ "}")) by reflexivity.
  rewrite E in *. rewrite (value_parse_brace _ _ _ Hv).
  unfold unmarshal_struct, Response_members.
  destruct v as [dt errs]. cbn [Data Errors] in *.
  destruct errs as [errs|]; cbn [app fold_left]; unfold store_Response, new_Response;
    cbn [fst snd Data Errors lookup_field find String.eqb Ascii.eqb Bool.eqb saveError
           store_raw_slice];
    rewrite ?(Hes errs eq_refl); reflexivity.
Qed.

(** The types that go with a variant are among the ten tags, which need
    no escaping. *)
Lemma variant_for_plain (t : reqType) (x : variant) :
  variant_for t = Some x -> plain t = true.
Proof.
  unfold variant_for, case_of. cbn [existsb].
  repeat match goal with
         | |- context [String.eqb t ?tag] =>
           destruct (String.eqb_spec t tag); [subst t; reflexivity|]
         end.
  discriminate.
Qed.

(** The bytes of a well-formed payload, read as a value one level down. *)
Lemma payload_value (p : payload) :
  well_formed_payload p ->
  exists P' f pv,
    snd (marshalPayload p "") = String "{" P'
    /\ value f 1 (String "{" P') = Scanned pv "".
Proof.
  intros Hw. destruct p as [v|v|v|v]; [| | |contradiction].
  - destruct (Request_value v 1 ltac:(lia) Hw) as (f & jv & _ & Hv & _).
    rewrite marshalPayload_Request. cbn [snd]. rewrite append_nil_l.
    destruct (payload_bytes_brace (PRequest v)) as [E|[P' E]];
      rewrite marshalPayload_Request in E; cbn [snd] in E; rewrite append_nil_l in E;
      rewrite E in *; [now apply value_nil in Hv|eauto].
  - destruct (Response_value v 1 ltac:(lia) Hw) as (f & dv & es & Hv & _).
    rewrite marshalPayload_Response. cbn [snd]. rewrite append_nil_l.
    destruct (payload_bytes_brace (PResponse v)) as [E|[P' E]];
      rewrite marshalPayload_Response in E; cbn [snd] in E; rewrite append_nil_l in E;
      rewrite E in *; [now apply value_nil in Hv|eauto].
  - pose proof (ServerError_value v 1 ltac:(lia) Hw) as Hv.
    rewrite marshalPayload_ServerError. cbn [snd]. rewrite append_nil_l.
    destruct (payload_bytes_brace (PServerError v)) as [E|[P' E]];
      rewrite marshalPayload_ServerError in E; cbn [snd] in E; rewrite append_nil_l in E;
      rewrite E in *; [now apply value_nil in Hv|eauto].
Qed.

(** What [UnmarshalJSON] finds in [raw] for a well-formed envelope with
    a payload. *)
Lemma Unmarshal_rawMessage_MarshalJSON (m : operationMessage) (p : payload) :
  well_formed m -> Payload m = Some p ->
  Unmarshal_rawMessage (fst (MarshalJSON m)) new_rawMessage
  = ({| raw_ID := ID m; raw_Type := Type_ m;
        raw_Payload := snd (marshalPayload p "") |}, None)
  /\ exists P', snd (marshalPayload p "") = String "{" P'.
Proof.
  intros [Hid Hw] Hp. rewrite Hp in Hw. destruct Hw as [Hvar Hw].
  pose proof (variant_for_plain _ _ Hvar) as Hty.
  destruct (payload_value p Hw) as (P' & f & pv & E & Hv).
  split; [|eauto].
  unfold Unmarshal_rawMessage, Unmarshal, parse.
  pose proof (proj2 (MarshalJSON_value m Hid Hty) p P' f pv "" Hp E Hv eq_refl) as H.
  rewrite consumed_nil in H.
  rewrite (value_parse_at (4 + f) 0 _ _
             ltac:(rewrite skip_ws_MarshalJSON; exact H)).
  rewrite unmarshal_envelope_members, E. reflexivity.
Qed.
End RoundTrip.

(** ** C6: the keys of a payload *)

Section PayloadKeys.
Import GoJSON.

Lemma object_keys_value (f : nat) (s : bytes) (ms : list (bytes * (bytes * json))) :
  value f 0 s = Scanned (JObject ms) "" -> object_keys s = Some (map fst ms).
Proof.
  intros Hv. unfold object_keys.
  destruct s as [|c s]; [now apply value_nil in Hv|].
  destruct (Ascii.eqb_spec c "{") as [->|Hc].
  - now rewrite (value_parse_brace _ _ _ Hv).
  - exfalso. destruct f as [|f]; [discriminate|]. revert Hv. cbn [value].
    destruct (Ascii.eqb_spec c "{") as [|_]; [contradiction|].
    destruct (Ascii.eqb c "[").
    { destruct (Nat.ltb _ _); [discriminate|].
      destruct (skip_ws s) as [|c1 r1]; [discriminate|].
      destruct (Ascii.eqb c1 "]"); [discriminate|].
      destruct (elems _ _ _); discriminate. }
    destruct (Ascii.eqb c dquote); [destruct (string_body _ _ _) as [[? ?]|]; discriminate|].
    destruct (Ascii.eqb c "t"); [destruct (strip_prefix _ _); discriminate|].
    destruct (Ascii.eqb c "f"); [destruct (strip_prefix _ _); discriminate|].
    destruct (Ascii.eqb c "n"); [destruct (strip_prefix _ _); discriminate|].
    destruct (_ || _); [destruct (number_rest _); discriminate|discriminate].
Qed.

End PayloadKeys.

(** What [marshalPayload] does write: for a well-formed payload, the
    encoder reports no error and the keys of the object it writes are
    those of [payload_keys]: the variables key is there exactly when the
    map is not nil (empty or not), the errors key exactly when the slice
    is not nil, the operation name exactly when it is not empty. *)
Theorem marshalPayload_keys (p : payload) :
  well_formed_payload p ->
  fst (marshalPayload p "") = None
  /\ object_keys (snd (marshalPayload p "")) = Some (payload_keys p).
Proof.
  intros Hw. destruct p as [v|v|v|v]; [| | |contradiction].
  - destruct (Request_value v 0 ltac:(lia) Hw) as (f & jv & He & Hv & Hj).
    rewrite marshalPayload_Request. cbn [fst snd]. rewrite append_nil_l.
    split; [exact He|]. rewrite (object_keys_value _ _ _ Hv).
    unfold Request_members, payload_keys.
    destruct (Variables v), jv; try contradiction;
      destruct (String.eqb (OperationName v) ""); reflexivity.
  - destruct (Response_value v 0 ltac:(lia) Hw) as (f & dv & es & Hv & _).
    rewrite marshalPayload_Response. cbn [fst snd]. rewrite append_nil_l.
    split; [reflexivity|]. rewrite (object_keys_value _ _ _ Hv).
    unfold Response_members, payload_keys. destruct (Errors v); reflexivity.
  - pose proof (ServerError_value v 0 ltac:(lia) Hw) as Hv.
    rewrite marshalPayload_ServerError. cbn [fst snd]. rewrite append_nil_l.
    split; [reflexivity|]. now rewrite (object_keys_value _ _ _ Hv).
Qed.

Lemma marshalPayload_keys_witness :
  object_keys
    (snd (marshalPayload
            (PRequest {| Query := "query { a }";
                         Variables := Some [("n", a_string "x")];
                         OperationName := "" |}) ""))
  = Some ["query"; "variables"]
  /\ object_keys
       (snd (marshalPayload (PResponse {| Data := "1"; Errors := Some [] |}) ""))
     = Some ["data"; "errors"].
Proof.
  split.
  - refine (proj2 (marshalPayload_keys
                     (PRequest {| Query := "query { a }";
                                  Variables := Some [("n", a_string "x")];
                                  OperationName := "" |}) _)).
    split; [reflexivity|]. split; [reflexivity|].
    exists (bq "{'n':'x'}"), 10. eexists. vm_compute. auto.
  - refine (proj2 (marshalPayload_keys
                     (PResponse {| Data := "1"; Errors := Some [] |}) _)).
    split; [|constructor]. exists 10. eexists. vm_compute. reflexivity.
Defined.

(** C6 fails on the code: the fields [Variables] and [Errors] are
    declared with the [omitempty] option in their struct tags, but
    [marshalPayload], which writes the payload by hand, tests them
    against nil, not for emptiness.  A map with no entry that is not nil
    is written as an empty object under the variables key, a slice with
    no element that is not nil as an empty array under the errors key; in
    both cases the error returned is nil. *)
Example empty_variables_and_errors_are_written :
  marshalPayload
    (PRequest {| Query := "q"; Variables := Some []; OperationName := "" |}) ""
  = (None, bq "{'query':'q','variables':{}}")
  /\ marshalPayload (PResponse {| Data := "1"; Errors := Some [] |}) ""
     = (None, bq "{'data':1,'errors':[]}")
  /\ object_keys
       (snd (marshalPayload
               (PRequest {| Query := "q"; Variables := Some []; OperationName := "" |}) ""))
     = Some ["query"; "variables"]
  /\ object_keys
       (snd (marshalPayload (PResponse {| Data := "1"; Errors := Some [] |}) ""))
     = Some ["data"; "errors"].
Proof. repeat split; vm_compute; reflexivity. Qed.

(** ** C1: the round trip *)

(** C1 as stated fails: a [start] envelope whose variables hold a Go
    [int] is written with the number 1, and the decoder, which fills a
    map of empty interfaces, reads every JSON number as a [float64]: the
    envelope read back is not the one that was written. *)
Example round_trip_changes_int_variables :
  fst (MarshalJSON int_variables)
  = bq "{'id':'1','type':'start','payload':{'query':'query($n: Int) { f(n: $n) }','variables':{'n':1}}}"
  /\ UnmarshalJSON new_operationMessage (fst (MarshalJSON int_variables))
     = ({| ID := "1"; Type_ := gqlStart;
           Payload := Some (PRequest {| Query := "query($n: Int) { f(n: $n) }";
                                        Variables := Some [("n", a_float64 "1")];
                                        OperationName := "" |}) |}, None)
  /\ UnmarshalJSON new_operationMessage (fst (MarshalJSON int_variables))
     <> (int_variables, None).
Proof.
  split; [|split]; [vm_compute; reflexivity .. | vm_compute; discriminate].
Qed.

(** Raw values are read back without the white space around them. *)
Example round_trip_trims_raw_data :
  UnmarshalJSON new_operationMessage
    (fst (MarshalJSON {| ID := "1"; Type_ := gqlData;
                         Payload := Some (PResponse {| Data := " 1"; Errors := None |}) |}))
  = ({| ID := "1"; Type_ := gqlData;
        Payload := Some (PResponse {| Data := "1"; Errors := None |}) |}, None).
Proof. vm_compute. reflexivity. Qed.

(** [MarshalJSON] copies the bytes of the strings between the quotes
    without escaping them: for a [start] envelope whose query contains a
    double quote it writes a text that is not JSON, and [UnmarshalJSON]
    on these bytes returns a syntax error and leaves the message empty. *)
Example round_trip_fails_on_quoted_query :
  fst (MarshalJSON quoted_query)
  = bq "{'id':'1','type':'start','payload':{'query':'{ user(id: '1') { name } }'}}"
  /\ UnmarshalJSON new_operationMessage (fst (MarshalJSON quoted_query))
     = (new_operationMessage, Some SyntaxError)
  /\ UnmarshalJSON new_operationMessage (fst (MarshalJSON quoted_query))
     <> (quoted_query, None).
Proof.
  split; [|split]; [vm_compute; reflexivity .. | vm_compute; discriminate].
Qed.

(** C1, as the code has it: every well-formed envelope survives encoding
    and decoding, field for field and without an error.  Well-formed: the
    id, the type and the strings of the payload need no escaping; the
    payload, if any, is of the variant of the type; the raw values of a
    response are JSON values with nothing around them; the variables are
    values that [json.Marshal] followed by the decoding into a map gives
    back. *)
Theorem round_trip_well_formed (m : operationMessage) :
  well_formed m ->
  UnmarshalJSON new_operationMessage (fst (MarshalJSON m)) = (m, None).
Proof.
  intros Hw. destruct (Payload m) as [p|] eqn:Hp.
  2:{ destruct Hw as [Hid Hty]. rewrite Hp in Hty.
      now apply round_trip_without_payload. }
  destruct (Unmarshal_rawMessage_MarshalJSON m p Hw Hp) as [Hraw [P' EP]].
  destruct Hw as [Hid Hw]. rewrite Hp in Hw. destruct Hw as [Hvar Hw].
  unfold UnmarshalJSON. rewrite Hraw.
  cbn [raw_ID raw_Type raw_Payload ID Type_ Payload new_operationMessage].
  rewrite EP. cbn [String.length Nat.eqb]. rewrite <- EP.
  assert (Hm : (if negb (String.eqb (ID m) "")
                then {| ID := ID m; Type_ := Type_ m; Payload := None |}
                else {| ID := ""; Type_ := Type_ m; Payload := None |})
               = {| ID := ID m; Type_ := Type_ m; Payload := None |}).
  { destruct (String.eqb_spec (ID m) "") as [->|]; reflexivity. }
  rewrite Hm. cbn [ID Type_ Payload].
  unfold variant_for in Hvar.
  destruct m as [i t pl]. cbn [ID Type_ Payload] in *. subst pl.
  destruct (case_of t [gqlConnectionInit; _; _; _]).
  { destruct p as [v|v|v|v]; try discriminate Hvar.
    rewrite marshalPayload_Request. cbn [snd]. rewrite append_nil_l.
    now rewrite (Unmarshal_Request_bytes v Hw). }
  destruct (case_of t [gqlConnectionError; _; _; _; _]).
  { destruct p as [v|v|v|v]; try discriminate Hvar.
    rewrite marshalPayload_Response. cbn [snd]. rewrite append_nil_l.
    now rewrite (Unmarshal_Response_bytes v Hw). }
  destruct (case_of t [gqlError]); [|discriminate].
  destruct p as [v|v|v|v]; try discriminate Hvar.
  rewrite marshalPayload_ServerError. cbn [snd]. rewrite append_nil_l.
  now rewrite (Unmarshal_ServerError_bytes v Hw).
Qed.

Lemma round_trip_well_formed_witness :
  UnmarshalJSON new_operationMessage
    (bq "{'id':'1','type':'data','payload':{'data':{'hello':{'world':'test'}},'errors':[{'msg':'test'},{'msg':'test'}]}}")
  = ({| ID := "1"; Type_ := gqlData;
        Payload := Some (PResponse {| Data := bq "{'hello':{'world':'test'}}";
                                      Errors := Some [bq "{'msg':'test'}";
                                                      bq "{'msg':'test'}"] |}) |},
     None).
Proof.
  apply (round_trip_well_formed
           {| ID := "1"; Type_ := gqlData;
              Payload := Some (PResponse {| Data := bq "{'hello':{'world':'test'}}";
                                            Errors := Some [bq "{'msg':'test'}";
                                                            bq "{'msg':'test'}"] |}) |}).
  split; [reflexivity|]. split; [reflexivity|]. split.
  - exists 10. eexists. vm_compute. reflexivity.
  - repeat constructor; exists 10; eexists; vm_compute; reflexivity.
Defined.

(** * Further properties of the code *)

(** ** The decoder on the members of an object *)

Section Members.
Import GoJSON.

Lemma raw_fold_selected (ms : list (bytes * (bytes * json)))
    (acc : rawMessage * option error) :
  fold_left raw_step ms acc = fold_left selected_step (selected ms) acc.
Proof.
  revert acc. induction ms as [|mem ms IH]; intros acc; [reflexivity|].
  cbn [fold_left selected]. unfold field_of. rewrite IH.
  unfold raw_step at 1. fold envelope_fields.
  destruct (lookup_field envelope_fields (fst mem)); reflexivity.
Qed.

Lemma Unmarshal_rawMessage_object (b : bytes) (ms : list (bytes * (bytes * json))) :
  parse b = Some (JObject ms) ->
  Unmarshal_rawMessage b new_rawMessage = fold_left raw_step ms (new_rawMessage, None).
Proof.
  intros Hp. unfold Unmarshal_rawMessage, Unmarshal. rewrite Hp. reflexivity.
Qed.

End Members.

(** X1: what [UnmarshalJSON] returns depends on the members of the
    object only through the fields of the envelope that they select and
    the values they give them: members with other keys are skipped, and a
    key selects a field whatever the case of its letters. *)
Theorem UnmarshalJSON_selected_members (m : operationMessage) (b1 b2 : bytes)
    (ms1 ms2 : list (bytes * (bytes * GoJSON.json))) :
  GoJSON.parse b1 = Some (GoJSON.JObject ms1) ->
  GoJSON.parse b2 = Some (GoJSON.JObject ms2) ->
  selected ms1 = selected ms2 ->
  UnmarshalJSON m b1 = UnmarshalJSON m b2.
Proof.
  intros H1 H2 Hsel. unfold UnmarshalJSON.
  rewrite (Unmarshal_rawMessage_object _ _ H1), (Unmarshal_rawMessage_object _ _ H2).
  now rewrite !raw_fold_selected, Hsel.
Qed.

Lemma UnmarshalJSON_selected_members_witness :
  UnmarshalJSON new_operationMessage
    (bq "{'ID':'1','extensions':[1,2],'Type':'start','PayLoad':{'query':'q'},'x':null}")
  = UnmarshalJSON new_operationMessage
      (bq "{'id':'1','type':'start','payload':{'query':'q'}}").
Proof.
  eapply UnmarshalJSON_selected_members.
  - vm_compute. reflexivity.
  - vm_compute. reflexivity.
  - vm_compute. reflexivity.
Defined.

Section Receiver.
Import GoJSON.

(** A member that selects another field leaves the id of [raw] alone. *)
Lemma raw_fold_id (ms : list (bytes * (bytes * json))) (acc : rawMessage * option error) :
  ~ In "id" (fields_of ms) ->
  raw_ID (fst (fold_left raw_step ms acc)) = raw_ID (fst acc).
Proof.
  revert acc. induction ms as [|mem ms IH]; intros acc Hn; [reflexivity|].
  cbn [fold_left fields_of] in *. unfold field_of in Hn.
  unfold raw_step at 2. fold envelope_fields.
  destruct (lookup_field envelope_fields (fst mem)) as [f|] eqn:Ef; [|now apply IH].
  rewrite IH by (intros Hin; apply Hn; now right).
  apply lookup_field_envelope in Ef. unfold store_rawMessage.
  destruct Ef as [->|[->| ->]]; [exfalso; apply Hn; now left| |]; reflexivity.
Qed.

(** The type of [raw] is the one given by the last member that selects
    the type with a string. *)
Lemma raw_fold_type (ms1 ms2 : list (bytes * (bytes * json)))
    (k raw t : bytes) (acc : rawMessage * option error) :
  field_of (k, (raw, JString t)) = Some "type" ->
  ~ In "type" (fields_of ms2) ->
  raw_Type (fst (fold_left raw_step (ms1 ++ (k, (raw, JString t)) :: ms2) acc)) = t.
Proof.
  intros Hk Hn. rewrite fold_left_app. cbn [fold_left].
  set (acc1 := fold_left raw_step ms1 acc).
  assert (H1 : raw_Type (fst (raw_step acc1 (k, (raw, JString t)))) = t).
  { unfold raw_step. unfold field_of in Hk. fold envelope_fields. now rewrite Hk. }
  revert H1. generalize (raw_step acc1 (k, (raw, JString t))). clear acc1 Hk.
  induction ms2 as [|mem ms IH]; intros a Ha; [exact Ha|].
  cbn [fold_left fields_of] in *. unfold field_of in Hn.
  apply IH.
  - intros Hin. apply Hn.
    destruct (lookup_field envelope_fields (fst mem)); [now right|exact Hin].
  - unfold raw_step. fold envelope_fields.
    destruct (lookup_field envelope_fields (fst mem)) as [f|] eqn:Ef; [|exact Ha].
    apply lookup_field_envelope in Ef. unfold store_rawMessage.
    destruct Ef as [->|[->| ->]]; [exact Ha|exfalso; apply Hn; now left|exact Ha].
Qed.

(** The fields of the message that [UnmarshalJSON] returns, whatever its
    error is. *)
Lemma UnmarshalJSON_fields (m : operationMessage) (b : bytes) (raw : rawMessage) :
  Unmarshal_rawMessage b new_rawMessage = (raw, None) ->
  ID (fst (UnmarshalJSON m b)) = (if String.eqb (raw_ID raw) "" then ID m else raw_ID raw)
  /\ Type_ (fst (UnmarshalJSON m b)) = raw_Type raw
  /\ (raw_Payload raw = "" ->
      Payload (fst (UnmarshalJSON m b)) = Payload m /\ snd (UnmarshalJSON m b) = None).
Proof.
  intros Hr. unfold UnmarshalJSON. rewrite Hr. cbv zeta.
  destruct (String.eqb (raw_ID raw) ""); cbn [negb ID Type_ Payload];
    (destruct (Nat.eqb (String.length (raw_Payload raw)) 0) eqn:El;
     [repeat split; reflexivity|]);
    (assert (Hne : raw_Payload raw <> "") by (intros E; rewrite E in El; discriminate));
    repeat match goal with
           | |- context [if case_of ?t ?l then _ else _] => destruct (case_of t l)
           end;
    cbn [fst snd ID Type_ Payload];
    (split; [reflexivity|split; [reflexivity|intros E; contradiction]]).
Qed.

End Receiver.

(** X2: decoding into a message that is not fresh.  On a JSON object
    whose members fit the envelope, [UnmarshalJSON] always overwrites the
    type (with the empty string when the object gives none), but it keeps
    the id of the receiver when no member selects the id, and the payload
    of the receiver when no member selects the payload; in that last case
    it returns no error. *)
Theorem UnmarshalJSON_keeps_receiver (m : operationMessage) (b : bytes)
    (ms : list (bytes * (bytes * GoJSON.json))) :
  GoJSON.parse b = Some (GoJSON.JObject ms) ->
  Forall fits_envelope ms ->
  Type_ (fst (UnmarshalJSON m b)) = decoded_type ms
  /\ (~ In "id" (fields_of ms) -> ID (fst (UnmarshalJSON m b)) = ID m)
  /\ (~ In "payload" (fields_of ms) ->
      Payload (fst (UnmarshalJSON m b)) = Payload m /\ snd (UnmarshalJSON m b) = None).
Proof.
  intros Hp Hok.
  pose proof (Unmarshal_rawMessage_object _ _ Hp) as Hraw.
  pose proof (raw_fold_no_error ms (new_rawMessage, None) Hok eq_refl) as Herr.
  pose proof (raw_fold_payload ms (new_rawMessage, None) (parse_raw_nonempty _ _ Hp)) as Hpay.
  pose proof (raw_fold_id ms (new_rawMessage, None)) as Hid.
  unfold decoded_type.
  destruct (fold_left raw_step ms (new_rawMessage, None)) as [raw e].
  cbn [fst snd] in *. subst e.
  destruct (UnmarshalJSON_fields m b raw Hraw) as (HI & HT & HP).
  split; [exact HT|]. split.
  - intros Hn. rewrite HI, (Hid Hn). reflexivity.
  - intros Hn. apply HP, Hpay. split; [reflexivity|exact Hn].
Qed.

Lemma UnmarshalJSON_keeps_receiver_witness :
  ID (fst (UnmarshalJSON
             {| ID := "7"; Type_ := gqlData;
                Payload := Some (PResponse {| Data := "1"; Errors := None |}) |}
             (bq "{'type':'complete'}")))
  = "7"
  /\ Payload (fst (UnmarshalJSON
                     {| ID := "7"; Type_ := gqlData;
                        Payload := Some (PResponse {| Data := "1"; Errors := None |}) |}
                     (bq "{'type':'complete'}")))
     = Some (PResponse {| Data := "1"; Errors := None |}).
Proof.
  assert (Hn : forall f, f <> "type" ->
                 ~ In f (fields_of [("type", (bq "'complete'", GoJSON.JString "complete"))])).
  { intros f Hf [E|[]]. apply Hf. vm_compute in E. now subst. }
  split.
  - refine (proj1 (proj2 (UnmarshalJSON_keeps_receiver
                            {| ID := "7"; Type_ := gqlData;
                               Payload := Some (PResponse {| Data := "1"; Errors := None |}) |}
                            (bq "{'type':'complete'}")
                            [("type", (bq "'complete'", GoJSON.JString "complete"))] _ _)) _).
    + vm_compute. reflexivity.
    + repeat (constructor; [vm_compute; auto|]). constructor.
    + apply Hn. discriminate.
  - refine (proj1 (proj2 (proj2 (UnmarshalJSON_keeps_receiver
                            {| ID := "7"; Type_ := gqlData;
                               Payload := Some (PResponse {| Data := "1"; Errors := None |}) |}
                            (bq "{'type':'complete'}")
                            [("type", (bq "'complete'", GoJSON.JString "complete"))] _ _)) _)).
    + vm_compute. reflexivity.
    + repeat (constructor; [vm_compute; auto|]). constructor.
    + apply Hn. discriminate.
Defined.

(** X3: on an object whose members for the id and the type give a
    string or null: when several members select the type and the last of
    them gives a string, that string is the Type of the decoded message,
    wherever the member stands among the other members.  A last such
    member that gives null is not covered. *)
Theorem UnmarshalJSON_last_type_wins (m : operationMessage) (b : bytes)
    (ms1 ms2 : list (bytes * (bytes * GoJSON.json))) (k raw t : bytes) :
  GoJSON.parse b
  = Some (GoJSON.JObject (ms1 ++ (k, (raw, GoJSON.JString t)) :: ms2)) ->
  Forall fits_envelope (ms1 ++ (k, (raw, GoJSON.JString t)) :: ms2) ->
  field_of (k, (raw, GoJSON.JString t)) = Some "type" ->
  ~ In "type" (fields_of ms2) ->
  Type_ (fst (UnmarshalJSON m b)) = t.
Proof.
  intros Hp Hok Hk Hn.
  pose proof (Unmarshal_rawMessage_object _ _ Hp) as Hraw.
  pose proof (raw_fold_no_error _ (new_rawMessage, None) Hok eq_refl) as Herr.
  pose proof (raw_fold_type ms1 ms2 k raw t (new_rawMessage, None) Hk Hn) as Ht.
  destruct (fold_left raw_step _ (new_rawMessage, None)) as [r e].
  cbn [fst snd] in *. subst e.
  now rewrite (proj1 (proj2 (UnmarshalJSON_fields m b r Hraw))).
Qed.

Lemma UnmarshalJSON_last_type_wins_witness :
  Type_ (fst (UnmarshalJSON new_operationMessage
                (bq "{'type':'start','TYPE':'stop','id':'1'}")))
  = gqlStop.
Proof.
  apply (UnmarshalJSON_last_type_wins new_operationMessage _
           [("type", (bq "'start'", GoJSON.JString "start"))]
           [("id", (bq "'1'", GoJSON.JString "1"))]
           "TYPE" (bq "'stop'") "stop").
  - vm_compute. reflexivity.
  - repeat (constructor; [vm_compute; auto|]). constructor.
  - vm_compute. reflexivity.
  - vm_compute. intros [E|[]]. discriminate E.
Defined.

Section EnvelopeErrors.
Import GoJSON.




End EnvelopeErrors.



(** ** Envelopes that are written without escaping or not in full *)

(** X5: the encoder is not injective.  It copies the strings between
    the quotes as they are, so a request with an operation name and the
    request without one whose query ends with the bytes of that member
    are written as the same bytes, in every envelope. *)
Theorem MarshalJSON_not_injective (i : opID) (t : reqType) (q o : string) :
  o <> "" ->
  {| Query := q; Variables := None; OperationName := o |}
  <> {| Query := q ++ bq "','operationName':'" ++ o; Variables := None;
        OperationName := "" |}
  /\ MarshalJSON
       {| ID := i; Type_ := t;
          Payload := Some (PRequest {| Query := q; Variables := None;
                                       OperationName := o |}) |}
     = MarshalJSON
         {| ID := i; Type_ := t;
            Payload := Some (PRequest {| Query := q ++ bq "','operationName':'" ++ o;
                                         Variables := None; OperationName := "" |}) |}.
Proof.
  intros Ho. split; [intros [= _ E]; now apply Ho|].
  apply injective_projections; [|reflexivity].
  rewrite !MarshalJSON_bytes. cbn [Payload]. rewrite !marshalPayload_Request.
  unfold envelope_head, Request_bytes, Request_tail.
  cbn [fst snd ID Type_ Query Variables OperationName String.eqb].
  destruct (String.eqb_spec o "") as [E|_]; [contradiction|].
  do 3 f_equal. norm_bytes. reflexivity.
Qed.

Lemma MarshalJSON_not_injective_witness :
  MarshalJSON
    {| ID := "1"; Type_ := gqlStart;
       Payload := Some (PRequest {| Query := "{ a }"; Variables := None;
                                    OperationName := "A" |}) |}
  = MarshalJSON
      {| ID := "1"; Type_ := gqlStart;
         Payload := Some (PRequest {| Query := bq "{ a }','operationName':'A";
                                      Variables := None; OperationName := "" |}) |}.
Proof.
  apply (proj2 (MarshalJSON_not_injective "1" gqlStart "{ a }" "A" ltac:(discriminate))).
Defined.

Section Truncated.
Import GoJSON.

(** The member [key : value] where both are plain strings, followed by
    a comma: whatever the scanner makes of what follows. *)
Lemma members_plain_then (f d : nat) (k x rest : bytes) (c : ascii) :
  plain k = true -> plain x = true -> isSpace c = false ->
  members (S (S f)) d (quoted k ++ ":" ++ quoted x ++ "," ++ String c rest)
  = match members (S f) d (String c rest) with
    | Scanned ms r => Scanned ((k, (quoted x, JString x)) :: ms) r
    | Invalid => Invalid
    | Starved => Starved
    end.
Proof.
  intros Hk Hx Hc.
  rewrite <- quoted_append, members_S, Ascii.eqb_refl, (string_body_plain _ _ Hk).
  rewrite append_cons, append_nil_l. cbn [skip_ws].
  change (isSpace ":") with false. cbv iota. rewrite Ascii.eqb_refl.
  rewrite !skip_ws_quoted, (value_plain_string f d x _ Hx), consumed_prefix.
  rewrite append_cons, append_nil_l. cbn [skip_ws].
  change (isSpace ",") with false. cbv iota. rewrite Ascii.eqb_refl.
  now rewrite (skip_ws_nonspace _ _ Hc).
Qed.

(** A member without a value. *)
Lemma members_no_value (f d : nat) (k rest : bytes) :
  plain k = true ->
  members (S (S f)) d (quoted k ++ ":" ++ "}" ++ rest) = Invalid.
Proof.
  intros Hk.
  rewrite <- quoted_append, members_S, Ascii.eqb_refl, (string_body_plain _ _ Hk).
  rewrite append_cons, append_nil_l. cbn [skip_ws].
  change (isSpace ":") with false. cbv iota. rewrite Ascii.eqb_refl.
  rewrite append_cons, append_nil_l. reflexivity.
Qed.

(** A member whose value the scanner rejects. *)
Lemma members_invalid_value (f d : nat) (k rest : bytes) (c : ascii) :
  plain k = true -> isSpace c = false ->
  value (S f) d (String c rest) = Invalid ->
  members (S (S f)) d (quoted k ++ ":" ++ String c rest) = Invalid.
Proof.
  intros Hk Hc Hv.
  rewrite <- quoted_append, members_S, Ascii.eqb_refl, (string_body_plain _ _ Hk).
  rewrite append_cons, append_nil_l. cbn [skip_ws].
  change (isSpace ":") with false. cbv iota. rewrite Ascii.eqb_refl.
  now rewrite (skip_ws_nonspace _ _ Hc), Hv.
Qed.

(** An object whose members the scanner rejects. *)
Lemma value_object_invalid (f d : nat) (k X : bytes) :
  Nat.ltb maxNestingDepth (S d) = false ->
  members f (S d) (quoted k ++ X) = Invalid ->
  value (S f) d ("{" ++ quoted k ++ X) = Invalid.
Proof.
  intros Hd Hm. rewrite <- quoted_append in *. rewrite append_cons, append_nil_l.
  cbn [value]. rewrite Ascii.eqb_refl, Hd.
  rewrite (skip_ws_nonspace dquote) by reflexivity.
  change (Ascii.eqb dquote "}") with false. cbv iota. now rewrite Hm.
Qed.

(** A text that the scanner rejects with some fuel is not a JSON text. *)
Lemma value_invalid_parse (f d : nat) (s : bytes) :
  value f d (skip_ws s) = Invalid -> parse_at d s = None.
Proof.
  intros Hv. unfold parse_at.
  assert (Hg : value (fuel_for (skip_ws s)) d (skip_ws s) = Invalid).
  { destruct (Nat.le_ge_cases f (fuel_for (skip_ws s))) as [Hle|Hle].
    - rewrite (value_fuel_le _ _ _ _ Hle); [exact Hv|]. now rewrite Hv.
    - rewrite <- Hv. symmetry. apply (value_fuel_le _ _ _ _ Hle), parse_not_starved. }
  now rewrite Hg.
Qed.

(** The bytes of a truncated payload, followed by the brace that
    [MarshalJSON] writes after it, are rejected where a value is read. *)
Lemma truncated_payload_invalid (p : payload) (d : nat) :
  d <= 2 -> truncated_payload p ->
  exists c rest,
    snd (marshalPayload p "") ++ "}" = String c rest
    /\ isSpace c = false
    /\ value 5 d (String c rest) = Invalid.
Proof.
  intros Hd Ht. destruct p as [v|v|v|v]; try contradiction.
  2:{ (* a response without data *)
      rewrite marshalPayload_Response. cbn [snd]. rewrite append_nil_l.
      cbn in Ht. unfold Response_bytes. rewrite Ht.
      destruct (Errors v) as [errs|].
      - exists "{"%char,
          (quoted "data" ++ ":" ++ "," ++ quoted "errors" ++ ":[" ++ join "," errs ++ "]}}").
        split; [norm_bytes; reflexivity|]. split; [reflexivity|].
        change (value 5 d ("{" ++ quoted "data" ++ ":" ++ ","
                           ++ quoted "errors" ++ ":[" ++ join "," errs ++ "]}}") = Invalid).
        apply value_object_invalid; [apply ltb_depth; lia|].
        now apply (members_invalid_value 2 (S d) "data" _ ","%char).
      - exists "{"%char, (quoted "data" ++ ":" ++ "}}").
        split; [norm_bytes; reflexivity|]. split; [reflexivity|].
        change (value 5 d ("{" ++ quoted "data" ++ ":" ++ "}}") = Invalid).
        apply value_object_invalid; [apply ltb_depth; lia|].
        now apply (members_invalid_value 2 (S d) "data" _ "}"%char). }
  - destruct Ht as (Hq & vars & e & Hv & He).
    rewrite marshalPayload_Request. cbn [snd]. rewrite append_nil_l.
    exists "{"%char, (quoted "query" ++ ":" ++ quoted (Query v) ++ ","
                 ++ quoted "variables" ++ ":" ++ "}" ++ "").
    split; [|split; [reflexivity|]].
    + unfold Request_bytes. rewrite Hv, He. norm_bytes. reflexivity.
    + change (value 5 d ("{" ++ quoted "query" ++ ":" ++ quoted (Query v) ++ ","
                         ++ quoted "variables" ++ ":" ++ "}" ++ "") = Invalid).
      apply value_object_invalid; [apply ltb_depth; lia|].
      rewrite <- (quoted_append "variables").
      rewrite (members_plain_then 2 (S d) "query" (Query v) _ dquote eq_refl Hq eq_refl).
      rewrite (quoted_append "variables").
      now rewrite (members_no_value 1 (S d) "variables" "" eq_refl).
  - exists "}"%char, "". repeat split; reflexivity.
Qed.

End Truncated.

(** X6: when [marshalPayload] stops before the end or leaves a value
    out (a payload of type [unknown], a request whose variables
    [json.Marshal] rejects, a response whose [Data] is empty),
    [MarshalJSON] still returns a nil error, and the bytes it returns are
    not a JSON text: [UnmarshalJSON] rejects them with a syntax error and
    leaves its receiver as it was.  Here for an id, a type and a query
    without bytes that need escaping. *)
Theorem MarshalJSON_truncated_payload (m : operationMessage) (p : payload) :
  plain (ID m) = true -> plain (Type_ m) = true ->
  Payload m = Some p -> truncated_payload p ->
  snd (MarshalJSON m) = None
  /\ GoJSON.parse (fst (MarshalJSON m)) = None
  /\ forall m', UnmarshalJSON m' (fst (MarshalJSON m)) = (m', Some SyntaxError).
Proof.
  intros Hid Hty Hp Ht.
  assert (Hparse : GoJSON.parse (fst (MarshalJSON m)) = None).
  { destruct (truncated_payload_invalid p 1 ltac:(lia) Ht) as (c & rest & E & Hc & Hv).
    assert (Hm : GoJSON.members 7 1
                   (quoted "type" ++ ":" ++ quoted (Type_ m) ++ ","
                    ++ quoted "payload" ++ ":" ++ String c rest)
                 = GoJSON.Invalid).
    { rewrite <- (quoted_append "payload").
      rewrite (members_plain_then 5 1 "type" (Type_ m) _ dquote eq_refl Hty eq_refl).
      rewrite (quoted_append "payload").
      now rewrite (members_invalid_value 4 1 "payload" rest c eq_refl Hc Hv). }
    apply (value_invalid_parse 9). rewrite skip_ws_MarshalJSON.
    rewrite MarshalJSON_members, Hp.
    replace (snd (marshalPayload p "") ++ "}" ++ "") with (String c rest)
      by (now rewrite append_nil_r).
    destruct (String.eqb (ID m) "").
    - rewrite append_nil_l.
      apply (value_object_invalid 8 0 "type"); [reflexivity|].
      rewrite (members_fuel_le 7 8 _ _ ltac:(lia)); [exact Hm|].
      rewrite Hm. discriminate.
    - rewrite !append_assoc.
      apply (value_object_invalid 8 0 "id"); [reflexivity|].
      rewrite <- (quoted_append "type").
      rewrite (members_plain_then 6 1 "id" (ID m) _ dquote eq_refl Hid eq_refl).
      rewrite (quoted_append "type").
      now rewrite Hm. }
  split; [reflexivity|]. split; [exact Hparse|].
  intros m'. unfold UnmarshalJSON, Unmarshal_rawMessage, GoJSON.Unmarshal.
  now rewrite Hparse.
Qed.

Lemma MarshalJSON_truncated_payload_witness :
  GoJSON.parse
    (fst (MarshalJSON {| ID := "1"; Type_ := gqlData;
                         Payload := Some (Punknown [("a", a_nil)]) |}))
  = None
  /\ GoJSON.parse
       (fst (MarshalJSON
               {| ID := "2"; Type_ := gqlStart;
                  Payload := Some (PRequest {| Query := "{ a }";
                                               Variables := Some [("c", a_chan)];
                                               OperationName := "A" |}) |}))
     = None
  /\ GoJSON.parse
       (fst (MarshalJSON
               {| ID := "3"; Type_ := gqlData;
                  Payload := Some (PResponse {| Data := EmptyString;
                                                Errors := Some [bq "{'msg':'x'}"] |}) |}))
     = None.
Proof.
  split; [|split].
  - refine (proj1 (proj2 (MarshalJSON_truncated_payload
                            {| ID := "1"; Type_ := gqlData;
                               Payload := Some (Punknown [("a", a_nil)]) |}
                            (Punknown [("a", a_nil)]) _ _ _ _)));
      first [reflexivity | exact I].
  - refine (proj1 (proj2 (MarshalJSON_truncated_payload
                            {| ID := "2"; Type_ := gqlStart;
                               Payload := Some (PRequest {| Query := "{ a }";
                                                            Variables := Some [("c", a_chan)];
                                                            OperationName := "A" |}) |}
                            (PRequest {| Query := "{ a }";
                                         Variables := Some [("c", a_chan)];
                                         OperationName := "A" |}) _ _ _ _)));
      try reflexivity.
    split; [reflexivity|]. exists [("c", a_chan)], (UnsupportedTypeError "chan").
    split; reflexivity.
  - refine (proj1 (proj2 (MarshalJSON_truncated_payload
                            {| ID := "3"; Type_ := gqlData;
                               Payload := Some (PResponse {| Data := EmptyString;
                                                             Errors := Some [bq "{'msg':'x'}"] |}) |}
                            (PResponse {| Data := EmptyString;
                                          Errors := Some [bq "{'msg':'x'}"] |}) _ _ _ _)));
      reflexivity.
Defined.

(** ** Dialing and closing *)

Section DialProperties.
Context {T : Type} `{Transport T}.
Variable http_Client : Type.
Variable DefaultClient : http_Client.
Variable server_rest : Type.
Variable websocket_Dial : string -> DialOptions http_Client -> T + error.

Lemma last_cons_default {A : Type} (a d : A) (l : list A) :
  List.last (a :: l) d = List.last l a.
Proof.
  revert a d. induction l as [|b l IH]; intros a d; [reflexivity|].
  change (List.last (a :: b :: l) d) with (List.last (b :: l) d).
  now rewrite (IH b d), (IH b a).
Qed.

(** What the options of the package leave in [dialOpts], whatever it
    held before. *)
Lemma SetDial_fold (specs : list (option_spec http_Client)) (d : dialOpts http_Client) :
  fold_left (fun d opt => SetDial opt d) (map to_option specs) d
  = {| client := List.last (clients specs) (client d);
       headers := List.last (header_sets specs) (headers d);
       compression := fst (List.last (compressions specs) (compression d, threshold d));
       threshold := snd (List.last (compressions specs) (compression d, threshold d)) |}.
Proof.
  revert d. induction specs as [|s specs IH]; intros d; [now destruct d|].
  cbn [map fold_left]. rewrite IH.
  destruct s as [c|h|mode thr]; cbn [to_option SetDial WithHTTPClient WithHeaders
    WithCompression clients header_sets compressions client headers compression threshold];
    now rewrite ?last_cons_default.
Qed.

(** X7: the options that [Dial] hands to [websocket.Dial], for a list of
    options made by [WithHTTPClient], [WithHeaders] and
    [WithCompression].  For each kind the last option given decides, and
    options of different kinds do not touch each other.  Without an
    option of a kind: [http.DefaultClient], nil headers, and the
    compression mode [CompressionNoContextTakeover] with threshold 0.  The
    subprotocol is always graphql-ws. *)
Theorem Dial_options_last_wins (specs : list (option_spec http_Client)) :
  dial_options DefaultClient (map to_option specs)
  = {| HTTPClient := List.last (clients specs) DefaultClient;
       HTTPHeader := List.last (header_sets specs) None;
       Subprotocols := ["graphql-ws"];
       DialOptions_CompressionMode :=
         fst (List.last (compressions specs) (CompressionNoContextTakeover, 0%Z));
       CompressionThreshold :=
         snd (List.last (compressions specs) (CompressionNoContextTakeover, 0%Z)) |}.
Proof. unfold dial_options. now rewrite SetDial_fold. Qed.

(** X8: [Dial] returns a connection exactly when [websocket.Dial]
    returns a transport, and then without an error: the connection holds
    that transport, and a first [Close] on it does not panic. *)
Theorem Dial_connection (endpoint : string) (opts : list (DialOption http_Client))
    (c : Conn T) (e : option error) :
  Dial DefaultClient websocket_Dial endpoint opts = (Some c, e) ->
  e = None
  /\ websocket_Dial endpoint (dial_options DefaultClient opts) = inl (wc c)
  /\ chan_closed (done c) = false
  /\ exists r, Close c = Return r.
Proof.
  unfold Dial. destruct (websocket_Dial _ _) as [w|err]; [|discriminate].
  intros [= <- <-]. repeat split.
  unfold Close, newConn, close, make_chan. cbn [done chan_closed wc].
  destruct (write _ _) as [c' [e'|]]; eauto.
Qed.

End DialProperties.

Lemma Dial_connection_witness :
  chan_closed (done (dial false)) = false /\ exists r, Close (dial false) = Return r.
Proof.
  refine (proj2 (proj2 (Dial_connection unit tt
                          (fun _ _ => inl {| sock_released := false; sock_peer_gone := false;
                                             sock_sent := [] |})
                          "ws://localhost:8080" [WithHeaders None; WithCompression 2%Z 512%Z]
                          (dial false) None _))).
  reflexivity.
Defined.

(** X9: [Close] on a connection whose channel is open and whose
    transport takes the write: it writes the [connection_terminate]
    envelope, without id or payload, as one binary message, then closes
    the transport that the write left, with the status of a normal
    closure and the reason closed, and returns the error of that close;
    the channel [done] is closed. *)
Theorem Close_terminates_then_releases {T : Type} `{Transport T}
    (c : Conn T) (w w' : T) (e : option error) :
  chan_closed (done c) = false ->
  ws_Write (wc c) MessageBinary (bq "{'type':'connection_terminate'}") = (w, None) ->
  ws_Close w StatusNormalClosure "closed" = (w', e) ->
  Close c
  = Return ({| wc := w';
               done := {| chan_cap := chan_cap (done c); chan_len := chan_len (done c);
                          chan_closed := true |} |}, e).
Proof.
  intros Hopen Hw Hc. unfold Close, close. rewrite Hopen.
  unfold write.
  change (MarshalJSON {| ID := ""; Type_ := gqlConnectionTerminate; Payload := None |})
    with (bq "{'type':'connection_terminate'}", @None error).
  cbn [wc done]. rewrite Hw. cbn [fst snd wc done]. rewrite Hc. reflexivity.
Qed.

Lemma Close_terminates_then_releases_witness :
  Close (dial false)
  = Return ({| wc := {| sock_released := true; sock_peer_gone := false;
                        sock_sent := [bq "{'type':'connection_terminate'}"] |};
               done := {| chan_cap := 1; chan_len := 0; chan_closed := true |} |}, None).
Proof.
  apply (Close_terminates_then_releases (dial false)
           {| sock_released := false; sock_peer_gone := false;
              sock_sent := [bq "{'type':'connection_terminate'}"] |}); reflexivity.
Defined.

(** ** The bytes of a value, cut out of the text around it *)

Section Truncation.
Import GoJSON.

(** White space at the head of the input, as a prefix. *)
Lemma skip_ws_split (s : bytes) :
  exists w, s = w ++ skip_ws s /\ skip_ws w = "".
Proof.
  induction s as [|c s (w & E & Hw)].
  - now exists "".
  - cbn [skip_ws]. destruct (isSpace c) eqn:Ec.
    + exists (String c w). split; [now rewrite append_cons, <- E|].
      cbn [skip_ws]. now rewrite Ec.
    + now exists "".
Qed.

Lemma skip_ws_head (s : bytes) (c : ascii) (r : bytes) :
  skip_ws s = String c r -> isSpace c = false.
Proof.
  induction s as [|a s IH]; [discriminate|]. cbn [skip_ws].
  destruct (isSpace a) eqn:Ea; [exact IH|]. now intros [= <- _].
Qed.

Lemma skip_ws_idem (s : bytes) : skip_ws (skip_ws s) = skip_ws s.
Proof.
  destruct (skip_ws s) as [|c r] eqn:E; [reflexivity|].
  apply skip_ws_nonspace. exact (skip_ws_head _ _ _ E).
Qed.

Lemma isSpace_ends_number (c : ascii) : isSpace c = true -> ends_number c = true.
Proof.
  destruct c as [[] [] [] [] [] [] [] []]; try discriminate; reflexivity.
Qed.

(** A prefix that is followed by its rest. *)
Lemma append_head (p r : bytes) (c : ascii) (s : bytes) :
  p ++ r = String c s -> p <> "" -> exists p', p = String c p' /\ s = p' ++ r.
Proof.
  destruct p as [|a p]; [contradiction|]. rewrite append_cons.
  intros [= -> <-] _. eauto.
Qed.

Lemma strip_prefix_split (lit s r : bytes) :
  strip_prefix lit s = Some r -> s = lit ++ r /\ strip_prefix lit lit = Some "".
Proof.
  revert s. induction lit as [|a lit IH]; intros s.
  - intros [= <-]. now rewrite append_nil_l.
  - destruct s as [|b s]; [discriminate|]. cbn [strip_prefix].
    destruct (Ascii.eqb_spec a b) as [<-|]; [|discriminate].
    intros [-> H]%IH. rewrite append_cons, Ascii.eqb_refl. auto.
Qed.

(** *** Numbers *)

Lemma skip_digits_split (s : bytes) :
  exists p, s = p ++ skip_digits s /\ skip_digits p = "".
Proof.
  induction s as [|c s (p & E & Hp)].
  - now exists "".
  - cbn [skip_digits]. destruct (isDigit c) eqn:Ec.
    + exists (String c p). split; [now rewrite append_cons, <- E|].
      cbn [skip_digits]. now rewrite Ec.
    + now exists "".
Qed.

Lemma digits1_split (s r : bytes) :
  digits1 s = Some r -> exists p, s = p ++ r /\ digits1 p = Some "".
Proof.
  destruct s as [|c s]; [discriminate|]. cbn [digits1].
  destruct (isDigit c) eqn:Ec; [|discriminate]. intros [= <-].
  destruct (skip_digits_split s) as (p & E & Hp).
  exists (String c p). split; [now rewrite append_cons, <- E|].
  cbn [digits1]. now rewrite Ec, Hp.
Qed.

Lemma number_rest_split (s r : bytes) :
  number_rest s = Some r -> exists p, s = p ++ r /\ number_rest p = Some "".
Proof.
  unfold number_rest.
  destruct (num_int (num_sign s)) as [s2|] eqn:E2; [|discriminate].
  destruct (num_frac s2) as [s3|] eqn:E3; [|discriminate].
  intros E4.
  (* the exponent *)
  assert (H4 : exists p4, s3 = p4 ++ r /\ num_exp p4 = Some ""
                          /\ (p4 = "" \/ exists c u, p4 = String c u
                                /\ (Ascii.eqb c "e" || Ascii.eqb c "E") = true)).
  { destruct s3 as [|c u]; [injection E4 as <-; exists ""; auto|].
    cbn [num_exp] in E4.
    destruct (Ascii.eqb c "e" || Ascii.eqb c "E") eqn:Ee.
    - destruct u as [|g u']; [discriminate|].
      destruct (Ascii.eqb g "+" || Ascii.eqb g "-") eqn:Eg.
      + apply digits1_split in E4 as (p & -> & Hp).
        exists (String c (String g p)). split; [now rewrite !append_cons|].
        split; [cbn [num_exp]; now rewrite Ee, Eg|]. right. eauto.
      + apply digits1_split in E4 as (p & Ep & Hp).
        destruct p as [|g' p']; [discriminate|].
        rewrite append_cons in Ep. injection Ep as <- ->.
        exists (String c (String g p')). split; [now rewrite !append_cons|].
        split; [cbn [num_exp]; now rewrite Ee, Eg|]. right. eauto.
    - injection E4 as <-. exists "". auto. }
  destruct H4 as (p4 & -> & Hp4 & Hh4).
  (* the fraction *)
  assert (H3 : exists p3, s2 = p3 ++ r /\ num_frac p3 = Some p4).
  { destruct s2 as [|c u].
    - injection E3 as E3. symmetry in E3.
      destruct p4; [|discriminate E3]. rewrite append_nil_l in E3. subst r.
      exists "". auto.
    - cbn [num_frac] in E3. destruct (Ascii.eqb c ".") eqn:Ed.
      + apply digits1_split in E3 as (p & -> & Hp).
        exists (String c (p ++ p4)).
        split; [now rewrite !append_cons, append_assoc|].
        assert (Hf : num_frac (String c (p ++ p4)) = Some p4).
        { cbn [num_frac]. rewrite Ed.
          destruct Hh4 as [->|(c4 & u4 & -> & Hc4)].
          - now rewrite append_nil_r.
          - rewrite (digits1_append_end p u4 "" c4); [now rewrite append_nil_l| |exact Hp].
            destruct (Ascii.eqb_spec c4 "e") as [->|]; [reflexivity|].
            destruct (Ascii.eqb_spec c4 "E") as [->|]; [reflexivity|discriminate]. }
        exact Hf.
      + injection E3 as E3. exists p4.
        assert (Hf : num_frac p4 = Some p4).
        { destruct Hh4 as [->|(c4 & u4 & -> & Hc4)]; [reflexivity|].
          cbn [num_frac].
          destruct (Ascii.eqb_spec c4 ".") as [->|]; [discriminate Hc4|reflexivity]. }
        split; [exact E3|exact Hf]. }
  destruct H3 as (p3 & -> & Hp3).
  (* the integer part *)
  assert (Hend : p3 = "" \/ exists c u, p3 = String c u /\ isDigit c = false).
  { destruct p3 as [|c u]; [now left|]. right. exists c, u. split; [reflexivity|].
    cbn [num_frac] in Hp3. destruct (Ascii.eqb_spec c ".") as [->|Hc]; [reflexivity|].
    injection Hp3 as <-.
    destruct Hh4 as [E|(c4 & u4 & E & Hc4)]; [discriminate E|].
    injection E as <- _.
    destruct (Ascii.eqb_spec c "e") as [->|]; [reflexivity|].
    destruct (Ascii.eqb_spec c "E") as [->|]; [reflexivity|discriminate]. }
  assert (H2 : exists p2, num_sign s = p2 ++ p3 ++ r /\ num_int (p2 ++ p3) = Some p3).
  { destruct (num_sign s) as [|c u]; [discriminate|]. cbn [num_int] in E2.
    destruct (Ascii.eqb c "0") eqn:E0.
    - injection E2 as <-. exists (String c ""). split; [reflexivity|].
      rewrite append_cons, append_nil_l. cbn [num_int]. now rewrite E0.
    - destruct (isDigit c) eqn:Ec; [|discriminate]. injection E2 as E2.
      destruct (skip_digits_split u) as (p & E & Hp). rewrite E2 in E.
      exists (String c p). split; [now rewrite append_cons, E|].
      rewrite append_cons. cbn [num_int]. rewrite E0, Ec. f_equal.
      destruct Hend as [->|(c3 & u3 & -> & Hc3)].
      + now rewrite append_nil_r.
      + rewrite skip_digits_append_end by exact Hc3. now rewrite Hp, append_nil_l. }
  destruct H2 as (p2 & E & Hp2).
  destruct s as [|c u]; [discriminate|]. cbn [num_sign] in E.
  destruct (Ascii.eqb c "-") eqn:Em.
  - exists (String c (p2 ++ p3)). split; [now rewrite append_cons, append_assoc, E|].
    cbn [num_sign]. now rewrite Em, Hp2, Hp3.
  - exists (p2 ++ p3). split; [now rewrite append_assoc|].
    assert (Hs : num_sign (p2 ++ p3) = p2 ++ p3).
    { destruct p2 as [|a p2']; [|rewrite append_cons in *; injection E as <- _;
                                  cbn [num_sign]; now rewrite Em].
      rewrite append_nil_l in *. destruct p3 as [|a p3']; [reflexivity|].
      rewrite append_cons in E. injection E as <- _. cbn [num_sign]. now rewrite Em. }
    now rewrite Hs, Hp2, Hp3.
Qed.

(** *** Strings *)

Lemma next_u4_truncate (p r : bytes) (d : nat) (x : bytes * bytes) :
  string_body 0 d p = Some x -> d = 0 \/ d = 6 -> next_u4 (p ++ r) = next_u4 p.
Proof.
  intros Hb [-> | ->].
  - destruct (next_u4 p) as [rr|] eqn:En.
    + now apply next_u4_append_Some.
    + now apply (next_u4_append_None p r x).
  - destruct p as [|a1 [|a2 [|a3 [|a4 [|a5 [|a6 p]]]]]]; try discriminate Hb.
    now rewrite !append_cons.
Qed.

(** A string literal ends at its closing quote: cut there, it is read in
    the same way. *)
Lemma string_body_split (n : nat) :
  forall (s : bytes) (skip drop : nat) (v r : bytes),
    String.length s <= n ->
    string_body skip drop s = Some (v, r) ->
    exists p, s = p ++ r /\ string_body skip drop p = Some (v, "").
Proof.
  induction n as [|n IH]; intros s skip drop v r Hn.
  - destruct s; [discriminate|cbn [String.length] in Hn; lia].
  - destruct s as [|c s']; [discriminate|].
    cbn [String.length] in Hn. rewrite string_body_cons.
    assert (Hrec : forall u k d o, String.length u <= String.length s' ->
                     emit o (string_body k d u) = Some (v, r) ->
                     exists p w, u = p ++ r /\ string_body k d p = Some (w, "")
                                 /\ emit o (Some (w, "")) = Some (v, "")).
    { intros u k d o Hu (w & Hb & ->)%emit_Some.
      destruct (IH u k d w r ltac:(lia) Hb) as (p & E & Hp). eauto. }
    destruct drop as [|drop'].
    2:{ intros Hb. destruct (IH s' skip drop' v r ltac:(lia) Hb) as (p & -> & Hp).
        exists (String c p). split; [now rewrite append_cons|].
        now rewrite string_body_cons. }
    destruct skip as [|skip'].
    2:{ intros Hb. destruct (Hrec s' skip' 0 _ ltac:(lia) Hb) as (p & w & -> & Hp & He).
        exists (String c p). split; [now rewrite append_cons|].
        now rewrite string_body_cons, Hp. }
    destruct (Ascii.eqb c dquote) eqn:Eq.
    { intros [= <- <-]. exists (String c ""). split; [reflexivity|].
      now rewrite string_body_cons, Eq. }
    destruct (Ascii.eqb c backslash) eqn:Eb.
    + destruct s' as [|e s'']; [discriminate|]. cbn [String.length] in *.
      destruct (Ascii.eqb e "u") eqn:Eu.
      * destruct s'' as [|h1 [|h2 [|h3 [|h4 s3]]]]; try discriminate.
        cbn [String.length] in *.
        destruct (getu4 h1 h2 h3 h4) as [rr|] eqn:Eg; [|discriminate].
        destruct (is_surrogate rr) eqn:Es.
        2:{ intros Hb. destruct (Hrec s3 0 0 _ ltac:(lia) Hb) as (p & w & -> & Hp & He).
            exists (String c (String e (String h1 (String h2 (String h3 (String h4 p)))))).
            split; [now rewrite !append_cons|].
            now rewrite string_body_cons, Eq, Eb, Eu, Eg, Es, Hp. }
        destruct (next_u4 s3) as [rr1|] eqn:En.
        -- cbv zeta. destruct (_ =? _)%N eqn:Ed; intros Hb.
           ++ destruct (Hrec s3 0 0 _ ltac:(lia) Hb) as (p & w & -> & Hp & He).
              exists (String c (String e (String h1 (String h2 (String h3 (String h4 p)))))).
              split; [now rewrite !append_cons|].
              rewrite (next_u4_truncate p r 0 _ Hp (or_introl eq_refl)) in En.
              rewrite string_body_cons, Eq, Eb, Eu, Eg, Es, En. cbv zeta.
              now rewrite Ed, Hp.
           ++ destruct (Hrec s3 0 6 _ ltac:(lia) Hb) as (p & w & -> & Hp & He).
              exists (String c (String e (String h1 (String h2 (String h3 (String h4 p)))))).
              split; [now rewrite !append_cons|].
              rewrite (next_u4_truncate p r 6 _ Hp (or_intror eq_refl)) in En.
              rewrite string_body_cons, Eq, Eb, Eu, Eg, Es, En. cbv zeta.
              now rewrite Ed, Hp.
        -- intros Hb. destruct (Hrec s3 0 0 _ ltac:(lia) Hb) as (p & w & -> & Hp & He).
           exists (String c (String e (String h1 (String h2 (String h3 (String h4 p)))))).
           split; [now rewrite !append_cons|].
           rewrite (next_u4_truncate p r 0 _ Hp (or_introl eq_refl)) in En.
           now rewrite string_body_cons, Eq, Eb, Eu, Eg, Es, En, Hp.
      * destruct (simple_escape e) as [d|] eqn:Ee; [|discriminate].
        intros Hb. destruct (Hrec s'' 0 0 _ ltac:(lia) Hb) as (p & w & -> & Hp & He).
        exists (String c (String e p)). split; [now rewrite !append_cons|].
        now rewrite string_body_cons, Eq, Eb, Eu, Ee, Hp.
    + destruct (byte c <? 32)%N eqn:E32; [discriminate|].
      destruct (byte c <? 128)%N eqn:E128.
      { intros Hb. destruct (Hrec s' 0 0 _ ltac:(lia) Hb) as (p & w & -> & Hp & He).
        exists (String c p). split; [now rewrite append_cons|].
        now rewrite string_body_cons, Eq, Eb, E32, E128, Hp. }
      destruct (DecodeRune (String c s')) as [rn size] eqn:ED.
      destruct (_ && _) eqn:Ev; intros Hb.
      * destruct (Hrec s' 0 0 _ ltac:(lia) Hb) as (p & w & -> & Hp & He).
        exists (String c p). split; [now rewrite append_cons|].
        rewrite (DecodeRune_append c p r _ _ Hp) in ED.
        now rewrite string_body_cons, Eq, Eb, E32, E128, ED, Ev, Hp.
      * destruct (Hrec s' (size - 1) 0 _ ltac:(lia) Hb) as (p & w & -> & Hp & He).
        exists (String c p). split; [now rewrite append_cons|].
        rewrite (DecodeRune_append c p r _ _ Hp) in ED.
        now rewrite string_body_cons, Eq, Eb, E32, E128, ED, Ev, Hp.
Qed.

(** *** Values *)

Lemma string_body_then (pk k R : bytes) :
  string_body 0 0 pk = Some (k, "") -> string_body 0 0 (pk ++ R) = Some (k, R).
Proof.
  intros Hb.
  rewrite (string_body_append (String.length pk) pk R 0 0 k "" (Nat.le_refl _) Hb).
  now rewrite append_nil_l.
Qed.

Lemma skip_ws_then (w R : bytes) (c : ascii) :
  skip_ws w = "" -> isSpace c = false -> skip_ws (w ++ String c R) = String c R.
Proof.
  intros Hw Hc. rewrite (skip_ws_append_all _ _ Hw). now apply skip_ws_nonspace.
Qed.

(** A complete value, then white space, then a byte that ends a number. *)
Lemma value_then (f d : nat) (pv w R : bytes) (c : ascii) (v : json) :
  value f d pv = Scanned v "" -> skip_ws w = "" -> ends_number c = true ->
  value f d (pv ++ w ++ String c R) = Scanned v (w ++ String c R).
Proof.
  intros Hv Hw Hc. destruct w as [|a w'].
  - rewrite append_nil_l. now apply value_append_end.
  - rewrite append_cons. apply value_append_end; [|exact Hv].
    apply isSpace_ends_number. cbn [skip_ws] in Hw.
    destruct (isSpace a); [reflexivity|discriminate].
Qed.

(** A value, the elements of an array and the members of an object end
    where the scanner stops: cut there, the text is read in the same
    way, to the same value and with the same bytes kept inside it. *)
Lemma scan_split (fuel : nat) :
  (forall d s v r,
      value fuel d s = Scanned v r ->
      exists p, s = p ++ r /\ value fuel d p = Scanned v "")
  /\ (forall d s es r,
         elems fuel d s = Scanned es r ->
         exists p, s = p ++ r /\ elems fuel d p = Scanned es "")
  /\ (forall d s ms r,
         members fuel d s = Scanned ms r ->
         exists p, s = p ++ r /\ members fuel d p = Scanned ms "").
Proof.
  induction fuel as [|fuel (IHv & IHe & IHm)]; [repeat split; discriminate|].
  repeat split.
  - (* value *)
    intros d s v r. destruct s as [|c s']; [discriminate|].
    intros Hv. cbn [value] in Hv. revert Hv.
    destruct (Ascii.eqb c "{") eqn:E1.
    { apply Ascii.eqb_eq in E1 as ->.
      destruct (Nat.ltb maxNestingDepth (S d)) eqn:Hd; [discriminate|].
      destruct (skip_ws_split s') as (w & Es & Hw).
      destruct (skip_ws s') as [|c1 r1] eqn:Ew; [discriminate|].
      pose proof (skip_ws_head _ _ _ Ew) as Hc1.
      destruct (Ascii.eqb c1 "}") eqn:Ec.
      - intros [= <- <-].
        exists (String "{" (w ++ String c1 "")). split.
        + rewrite Es at 1. now rewrite append_cons, append_assoc, append_cons, append_nil_l.
        + cbn [value]. rewrite Hd, (skip_ws_then w "" c1 Hw Hc1), Ec. reflexivity.
      - destruct (members fuel (S d) (String c1 r1)) as [ms r'| |] eqn:Em; try discriminate.
        intros [= <- <-].
        destruct (IHm _ _ _ _ Em) as (pm & Epm & Hpm).
        destruct (append_head pm r' c1 r1 (eq_sym Epm)) as (pm' & -> & ->).
        { intros ->. now apply members_nil in Hpm. }
        exists (String "{" (w ++ String c1 pm')). split.
        + rewrite Es at 1. now rewrite append_cons, append_assoc, append_cons.
        + cbn [value]. rewrite Hd, (skip_ws_then w pm' c1 Hw Hc1), Ec, Hpm. reflexivity. }
    destruct (Ascii.eqb c "[") eqn:E2.
    { apply Ascii.eqb_eq in E2 as ->.
      destruct (Nat.ltb maxNestingDepth (S d)) eqn:Hd; [discriminate|].
      destruct (skip_ws_split s') as (w & Es & Hw).
      destruct (skip_ws s') as [|c1 r1] eqn:Ew; [discriminate|].
      pose proof (skip_ws_head _ _ _ Ew) as Hc1.
      destruct (Ascii.eqb c1 "]") eqn:Ec.
      - intros [= <- <-].
        exists (String "[" (w ++ String c1 "")). split.
        + rewrite Es at 1. now rewrite append_cons, append_assoc, append_cons, append_nil_l.
        + cbn [value]. rewrite Hd, (skip_ws_then w "" c1 Hw Hc1), Ec. reflexivity.
      - destruct (elems fuel (S d) (String c1 r1)) as [es r'| |] eqn:Em; try discriminate.
        intros [= <- <-].
        destruct (IHe _ _ _ _ Em) as (pm & Epm & Hpm).
        destruct (append_head pm r' c1 r1 (eq_sym Epm)) as (pm' & -> & ->).
        { intros ->. now apply elems_nil in Hpm. }
        exists (String "[" (w ++ String c1 pm')). split.
        + rewrite Es at 1. now rewrite append_cons, append_assoc, append_cons.
        + cbn [value]. rewrite Hd, (skip_ws_then w pm' c1 Hw Hc1), Ec, Hpm. reflexivity. }
    destruct (Ascii.eqb c dquote) eqn:E3.
    { destruct (string_body 0 0 s') as [[k r1]|] eqn:Eb; [|discriminate].
      intros [= <- <-].
      destruct (string_body_split _ s' 0 0 k r1 (Nat.le_refl _) Eb) as (p & -> & Hp).
      exists (String c p). split; [now rewrite append_cons|].
      cbn [value]. now rewrite E1, E2, E3, Hp. }
    destruct (Ascii.eqb c "t") eqn:E4.
    { destruct (strip_prefix "true" (String c s')) as [r1|] eqn:Ep; [|discriminate].
      intros [= <- <-]. apply strip_prefix_split in Ep as [-> _].
      exists "true". split; reflexivity. }
    destruct (Ascii.eqb c "f") eqn:E5.
    { destruct (strip_prefix "false" (String c s')) as [r1|] eqn:Ep; [|discriminate].
      intros [= <- <-]. apply strip_prefix_split in Ep as [-> _].
      exists "false". split; reflexivity. }
    destruct (Ascii.eqb c "n") eqn:E6.
    { destruct (strip_prefix "null" (String c s')) as [r1|] eqn:Ep; [|discriminate].
      intros [= <- <-]. apply strip_prefix_split in Ep as [-> _].
      exists "null". split; reflexivity. }
    destruct (Ascii.eqb c "-" || isDigit c) eqn:E7; [|discriminate].
    destruct (number_rest (String c s')) as [r1|] eqn:En; [|discriminate].
    intros [= <- <-].
    destruct (number_rest_split _ _ En) as (p & Ep & Hp).
    destruct (append_head p r1 c s' (eq_sym Ep)) as (p' & -> & ->).
    { intros ->. discriminate Hp. }
    exists (String c p'). split; [now rewrite append_cons|].
    cbn [value]. rewrite E1, E2, E3, E4, E5, E6, E7, Hp.
    rewrite <- append_cons, consumed_prefix, consumed_nil. reflexivity.
  - (* elems *)
    intros d s es r. rewrite elems_S.
    destruct (value fuel d s) as [v r0| |] eqn:Ev; try discriminate.
    destruct (IHv _ _ _ _ Ev) as (pv & -> & Hpv).
    destruct (skip_ws_split r0) as (w & Er & Hw).
    destruct (skip_ws r0) as [|c r1] eqn:Ew; [discriminate|].
    pose proof (skip_ws_head _ _ _ Ew) as Hc.
    rewrite consumed_prefix.
    destruct (Ascii.eqb c ",") eqn:Ec.
    + apply Ascii.eqb_eq in Ec as ->.
      destruct (elems fuel d (skip_ws r1)) as [es' r2| |] eqn:Ee; try discriminate.
      intros [= <- <-].
      destruct (IHe _ _ _ _ Ee) as (pe & Epe & Hpe).
      destruct (skip_ws_split r1) as (w1 & Er1 & Hw1).
      destruct pe as [|ce pe']; [now apply elems_nil in Hpe|].
      assert (Hce : isSpace ce = false).
      { rewrite append_cons in Epe. exact (skip_ws_head _ _ _ Epe). }
      exists (pv ++ w ++ String "," (w1 ++ String ce pe')). split.
      * rewrite Er, Er1, Epe. now repeat (rewrite append_cons || rewrite append_assoc || rewrite append_nil_l).
      * rewrite elems_S, (value_then _ _ _ _ _ _ _ Hpv Hw comma_ends_number).
        rewrite (skip_ws_then w _ "," Hw eq_refl). cbv iota beta.
        change (Ascii.eqb "," ",") with true. cbv iota.
        rewrite (skip_ws_then w1 _ ce Hw1 Hce), Hpe, consumed_prefix. reflexivity.
    + destruct (Ascii.eqb c "]") eqn:Ec'; [|discriminate].
      apply Ascii.eqb_eq in Ec' as ->. intros [= <- <-].
      exists (pv ++ w ++ String "]" ""). split.
      * rewrite Er. now repeat (rewrite append_cons || rewrite append_assoc || rewrite append_nil_l).
      * rewrite elems_S, (value_then _ _ _ _ _ _ _ Hpv Hw bracket_ends_number).
        rewrite (skip_ws_then w _ "]" Hw eq_refl). cbv iota beta.
        change (Ascii.eqb "]" ",") with false. change (Ascii.eqb "]" "]") with true.
        cbv iota. now rewrite consumed_prefix.
  - (* members *)
    intros d s ms r. destruct s as [|q s1]; [discriminate|]. rewrite members_S.
    destruct (Ascii.eqb q dquote) eqn:Eq; [|discriminate].
    destruct (string_body 0 0 s1) as [[k r1]|] eqn:Eb; [|discriminate].
    destruct (string_body_split _ s1 0 0 k r1 (Nat.le_refl _) Eb) as (pk & -> & Hpk).
    destruct (skip_ws_split r1) as (w1 & Er1 & Hw1).
    destruct (skip_ws r1) as [|c r2] eqn:Ew1; [discriminate|].
    destruct (Ascii.eqb c ":") eqn:Ec; [|discriminate].
    apply Ascii.eqb_eq in Ec as ->.
    destruct (skip_ws_split r2) as (w2 & Er2 & Hw2).
    destruct (value fuel d (skip_ws r2)) as [v r4| |] eqn:Ev; try discriminate.
    destruct (IHv _ _ _ _ Ev) as (pv & Epv & Hpv).
    rewrite Epv, consumed_prefix.
    destruct pv as [|cv pv']; [now apply value_nil in Hpv|].
    pose proof (value_head_nonspace _ _ _ _ _ _ Hpv) as Hcv.
    destruct (skip_ws_split r4) as (w3 & Er4 & Hw3).
    destruct (skip_ws r4) as [|c' r5] eqn:Ew3; [discriminate|].
    destruct (Ascii.eqb c' ",") eqn:Ec1.
    + apply Ascii.eqb_eq in Ec1 as ->.
      destruct (members fuel d (skip_ws r5)) as [ms' r6| |] eqn:Em; try discriminate.
      intros [= <- <-].
      destruct (IHm _ _ _ _ Em) as (pm & Epm & Hpm).
      destruct (skip_ws_split r5) as (w4 & Er5 & Hw4).
      destruct pm as [|cm pm']; [now apply members_nil in Hpm|].
      assert (Hcm : isSpace cm = false).
      { rewrite append_cons in Epm. exact (skip_ws_head _ _ _ Epm). }
      exists (String q (pk ++ w1 ++ String ":" (w2 ++ String cv pv' ++ w3
                                                     ++ String "," (w4 ++ String cm pm')))).
      split.
      * rewrite Er1, Er2, Epv, Er4, Er5, Epm.
        now repeat (rewrite append_cons || rewrite append_assoc || rewrite append_nil_l).
      * rewrite members_S, Eq, (string_body_then _ _ _ Hpk).
        rewrite (skip_ws_then w1 _ ":" Hw1 eq_refl). cbv iota beta.
        change (Ascii.eqb ":" ":") with true. cbv iota.
        rewrite (append_cons cv), (skip_ws_then w2 _ cv Hw2 Hcv), <- (append_cons cv).
        rewrite (value_then _ _ _ _ _ _ _ Hpv Hw3 comma_ends_number).
        rewrite (skip_ws_then w3 _ "," Hw3 eq_refl). cbv iota beta.
        change (Ascii.eqb "," ",") with true. cbv iota.
        rewrite (skip_ws_then w4 _ cm Hw4 Hcm), Hpm, consumed_prefix. reflexivity.
    + destruct (Ascii.eqb c' "}") eqn:Ec2; [|discriminate].
      apply Ascii.eqb_eq in Ec2 as ->. intros [= <- <-].
      exists (String q (pk ++ w1 ++ String ":" (w2 ++ String cv pv' ++ w3 ++ String "}" ""))).
      split.
      * rewrite Er1, Er2, Epv, Er4.
        now repeat (rewrite append_cons || rewrite append_assoc || rewrite append_nil_l).
      * rewrite members_S, Eq, (string_body_then _ _ _ Hpk).
        rewrite (skip_ws_then w1 _ ":" Hw1 eq_refl). cbv iota beta.
        change (Ascii.eqb ":" ":") with true. cbv iota.
        rewrite (append_cons cv), (skip_ws_then w2 _ cv Hw2 Hcv), <- (append_cons cv).
        rewrite (value_then _ _ _ _ _ _ _ Hpv Hw3 brace_ends_number).
        rewrite (skip_ws_then w3 _ "}" Hw3 eq_refl). cbv iota beta.
        change (Ascii.eqb "}" ",") with false. change (Ascii.eqb "}" "}") with true.
        cbv iota. now rewrite consumed_prefix.
Qed.

End Truncation.

Section PayloadValue.
Import GoJSON.

(** The bytes kept with a member are a JSON text that denotes the value
    of the member. *)
Lemma members_raw_value (fuel : nat) :
  forall d s ms r,
    members fuel d s = Scanned ms r ->
    Forall (fun mem => value fuel d (fst (snd mem)) = Scanned (snd (snd mem)) "") ms.
Proof.
  induction fuel as [|fuel IH]; [discriminate|].
  intros d s ms r. destruct s as [|q s1]; [discriminate|]. rewrite members_S.
  destruct (Ascii.eqb q dquote); [|discriminate].
  destruct (string_body 0 0 s1) as [[k r1]|]; [|discriminate].
  destruct (skip_ws r1) as [|c r2]; [discriminate|].
  destruct (Ascii.eqb c ":"); [|discriminate].
  destruct (value fuel d (skip_ws r2)) as [v r4| |] eqn:Ev; try discriminate.
  destruct (proj1 (scan_split fuel) _ _ _ _ Ev) as (pv & Epv & Hpv).
  rewrite Epv, consumed_prefix.
  assert (Hv : value (S fuel) d pv = Scanned v "").
  { rewrite (proj1 (scan_fuel_S fuel)); [exact Hpv|now rewrite Hpv]. }
  assert (Hup : forall ms' : list (bytes * (bytes * json)),
                 Forall (fun mem => value fuel d (fst (snd mem))
                                    = Scanned (snd (snd mem)) "") ms' ->
                 Forall (fun mem => value (S fuel) d (fst (snd mem))
                                    = Scanned (snd (snd mem)) "") ms').
  { intros ms' Hf. eapply Forall_impl; [exact Hf|]. intros mem Hm.
    rewrite (proj1 (scan_fuel_S fuel)); [exact Hm|now rewrite Hm]. }
  destruct (skip_ws r4) as [|c' r5]; [discriminate|].
  destruct (Ascii.eqb c' ",").
  { destruct (members fuel d (skip_ws r5)) as [ms' r6| |] eqn:Em; try discriminate.
    intros [= <- _]. constructor; [exact Hv|]. apply Hup. exact (IH _ _ _ _ Em). }
  destruct (Ascii.eqb c' "}"); [|discriminate].
  intros [= <- _]. now constructor.
Qed.

(** The members of a scanned object were read by [members]. *)
Lemma value_object_members (f d : nat) (s : bytes)
    (ms : list (bytes * (bytes * json))) (r : bytes) :
  value f d s = Scanned (JObject ms) r ->
  ms = [] \/ exists f' s', members f' (S d) s' = Scanned ms r.
Proof.
  destruct f as [|f]; [discriminate|].
  destruct s as [|c s']; [discriminate|]. cbn [value].
  destruct (Ascii.eqb c "{").
  { destruct (Nat.ltb _ _); [discriminate|].
    destruct (skip_ws s') as [|c1 r1]; [discriminate|].
    destruct (Ascii.eqb c1 "}"); [intros [= <- _]; now left|].
    destruct (members _ _ _) as [ms' r'| |] eqn:Em; try discriminate.
    intros [= <- <-]. right. eauto. }
  destruct (Ascii.eqb c "[").
  { destruct (Nat.ltb _ _); [discriminate|].
    destruct (skip_ws s') as [|c1 r1]; [discriminate|].
    destruct (Ascii.eqb c1 "]"); [discriminate|].
    destruct (elems _ _ _); discriminate. }
  destruct (Ascii.eqb c dquote); [destruct (string_body _ _ _) as [[? ?]|]; discriminate|].
  destruct (Ascii.eqb c "t"); [destruct (strip_prefix _ _); discriminate|].
  destruct (Ascii.eqb c "f"); [destruct (strip_prefix _ _); discriminate|].
  destruct (Ascii.eqb c "n"); [destruct (strip_prefix _ _); discriminate|].
  destruct (_ || _); [destruct (number_rest _); discriminate|discriminate].
Qed.

(** A complete value read at some depth is a JSON text. *)
Lemma value_parse (f d : nat) (s : bytes) (v : json) :
  value f d s = Scanned v "" -> parse s = Some v.
Proof.
  intros Hv. destruct s as [|c s']; [now apply value_nil in Hv|].
  apply (value_parse_at f 0).
  rewrite (skip_ws_nonspace c s' (value_head_nonspace _ _ _ _ _ _ Hv)).
  apply (value_depth_le f 0 d); [lia|exact Hv].
Qed.

(** In a JSON text that is an object, the bytes kept with each member
    are a JSON text of their own, which denotes the value of the
    member. *)
Lemma parse_member_raw (b : bytes) (ms : list (bytes * (bytes * json))) :
  parse b = Some (JObject ms) ->
  Forall (fun mem => parse (fst (snd mem)) = Some (snd (snd mem))) ms.
Proof.
  unfold parse. intros (r & Hv & _)%parse_at_value.
  apply value_object_members in Hv as [->|(f' & s' & Hm)]; [constructor|].
  apply members_raw_value in Hm.
  eapply Forall_impl; [exact Hm|]. intros mem Hmem. exact (value_parse _ _ _ _ Hmem).
Qed.

(** The payload of [raw] is the bytes of the last member that selects
    the payload. *)
Lemma raw_fold_payload_last (ms1 ms2 : list (bytes * (bytes * json)))
    (k raw : bytes) (v : json) (acc : rawMessage * option error) :
  field_of (k, (raw, v)) = Some "payload" ->
  ~ In "payload" (fields_of ms2) ->
  raw_Payload (fst (fold_left raw_step (ms1 ++ (k, (raw, v)) :: ms2) acc)) = raw.
Proof.
  intros Hk Hn. rewrite fold_left_app. cbn [fold_left].
  set (acc1 := fold_left raw_step ms1 acc).
  assert (H1 : raw_Payload (fst (raw_step acc1 (k, (raw, v)))) = raw).
  { unfold raw_step. unfold field_of in Hk. fold envelope_fields. now rewrite Hk. }
  revert H1. generalize (raw_step acc1 (k, (raw, v))). clear acc1 Hk.
  induction ms2 as [|mem ms IH]; intros a Ha; [exact Ha|].
  cbn [fold_left fields_of] in *. unfold field_of in Hn.
  apply IH.
  - intros Hin. apply Hn.
    destruct (lookup_field envelope_fields (fst mem)); [now right|exact Hin].
  - unfold raw_step. fold envelope_fields.
    destruct (lookup_field envelope_fields (fst mem)) as [f|] eqn:Ef; [|exact Ha].
    apply lookup_field_envelope in Ef. unfold store_rawMessage.
    destruct Ef as [->|[->| ->]]; [exact Ha|exact Ha|exfalso; apply Hn; now left].
Qed.

End PayloadValue.

(** X10: on an object whose members for the id and the type give a
    string or null, the payload is decoded from the JSON value of the
    last member that selects it, into a fresh payload of the variant that
    goes with the type, whatever payload the receiver held: the payload
    and the
    error that [UnmarshalJSON] returns are those of [decode_payload] on
    that value.  So a payload given as null is a payload with empty
    fields, not an absent one, and a payload that is not an object is a
    type error next to such an empty payload. *)
Theorem UnmarshalJSON_payload_value (m : operationMessage) (b : bytes)
    (ms1 ms2 : list (bytes * (bytes * GoJSON.json))) (k raw : bytes)
    (v : GoJSON.json) (x : variant) :
  GoJSON.parse b = Some (GoJSON.JObject (ms1 ++ (k, (raw, v)) :: ms2)) ->
  Forall fits_envelope (ms1 ++ (k, (raw, v)) :: ms2) ->
  field_of (k, (raw, v)) = Some "payload" ->
  ~ In "payload" (fields_of ms2) ->
  variant_for (decoded_type (ms1 ++ (k, (raw, v)) :: ms2)) = Some x ->
  Payload (fst (UnmarshalJSON m b)) = Some (fst (decode_payload x v))
  /\ snd (UnmarshalJSON m b) = snd (decode_payload x v).
Proof.
  intros Hp Hok Hk Hn Hx.
  pose proof (Unmarshal_rawMessage_object _ _ Hp) as Hraw.
  pose proof (raw_fold_no_error _ (new_rawMessage, None) Hok eq_refl) as Herr.
  pose proof (raw_fold_payload_last ms1 ms2 k raw v (new_rawMessage, None) Hk Hn) as Hpay.
  assert (Hv : GoJSON.parse raw = Some v).
  { pose proof (parse_member_raw _ _ Hp) as Hf.
    apply Forall_app in Hf as [_ Hf]. now apply Forall_inv in Hf. }
  assert (Hne : Nat.eqb (String.length raw) 0 = false).
  { pose proof (parse_raw_nonempty _ _ Hp) as Hf.
    apply Forall_app in Hf as [_ Hf]. apply Forall_inv in Hf. cbn [fst snd] in Hf.
    destruct raw; [contradiction|reflexivity]. }
  unfold decoded_type in Hx.
  unfold UnmarshalJSON. rewrite Hraw.
  destruct (fold_left raw_step _ (new_rawMessage, None)) as [r e].
  cbn [fst snd] in *. subst e. rewrite Hpay, Hne. cbv zeta.
  unfold variant_for in Hx.
  unfold Unmarshal_Request, Unmarshal_Response, Unmarshal_ServerError, GoJSON.Unmarshal.
  rewrite Hv.
  destruct (case_of (raw_Type r) [gqlConnectionInit; _; _; _]);
    [injection Hx as <-; split; reflexivity|].
  destruct (case_of (raw_Type r) [gqlConnectionError; _; _; _; _]);
    [injection Hx as <-; split; reflexivity|].
  destruct (case_of (raw_Type r) [gqlError]); [|discriminate].
  injection Hx as <-. split; reflexivity.
Qed.

Lemma UnmarshalJSON_payload_value_witness :
  Payload (fst (UnmarshalJSON
                  {| ID := "7"; Type_ := gqlData;
                     Payload := Some (PResponse {| Data := "1"; Errors := None |}) |}
                  (bq "{'payload':null,'type':'start'}")))
  = Some (PRequest new_Request)
  /\ snd (UnmarshalJSON new_operationMessage (bq "{'type':'data','payload':[5]}"))
     = Some (UnmarshalTypeError "array" "").
Proof.
  split.
  - refine (proj1 (UnmarshalJSON_payload_value
                     {| ID := "7"; Type_ := gqlData;
                        Payload := Some (PResponse {| Data := "1"; Errors := None |}) |}
                     (bq "{'payload':null,'type':'start'}")
                     [] [("type", (bq "'start'", GoJSON.JString "start"))]
                     "payload" "null" GoJSON.JNull VRequest _ _ _ _ _)).
    + vm_compute. reflexivity.
    + repeat (constructor; [vm_compute; auto|]). constructor.
    + reflexivity.
    + vm_compute. intros [E|[]]. discriminate E.
    + reflexivity.
  - refine (proj2 (UnmarshalJSON_payload_value new_operationMessage
                     (bq "{'type':'data','payload':[5]}")
                     [("type", (bq "'data'", GoJSON.JString "data"))] []
                     "payload" "[5]" (GoJSON.JArray [("5", GoJSON.JNumber "5")])
                     VResponse _ _ _ _ _)).
    + vm_compute. reflexivity.
    + repeat (constructor; [vm_compute; auto|]). constructor.
    + reflexivity.
    + intros [].
    + reflexivity.
Defined.

Section SyntaxErrors.
Import GoJSON.

Lemma store_string_no_syntax (f : string) (v : json) (cur : string) :
  snd (store_string f v cur) <> Some SyntaxError.
Proof. destruct v; discriminate. Qed.

Lemma store_rawMessage_no_syntax (f : string) (rv : bytes * json) (s : rawMessage) :
  snd (store_rawMessage f rv s) <> Some SyntaxError.
Proof.
  unfold store_rawMessage.
  repeat match goal with
         | |- context [if ?c then _ else _] => destruct c
         end; cbn [snd]; try discriminate; apply store_string_no_syntax.
Qed.

Lemma store_Request_no_syntax (f : string) (rv : bytes * json) (s : Request) :
  snd (store_Request f rv s) <> Some SyntaxError.
Proof.
  unfold store_Request.
  repeat match goal with
         | |- context [if ?c then _ else _] => destruct c
         end; cbn [snd]; try discriminate; try apply store_string_no_syntax.
  unfold store_map. destruct (snd rv); discriminate.
Qed.

Lemma store_Response_no_syntax (f : string) (rv : bytes * json) (s : Response) :
  snd (store_Response f rv s) <> Some SyntaxError.
Proof.
  unfold store_Response.
  repeat match goal with
         | |- context [if ?c then _ else _] => destruct c
         end; cbn [snd]; try discriminate.
  unfold store_raw_slice. destruct (snd rv); discriminate.
Qed.

Lemma store_ServerError_no_syntax (f : string) (rv : bytes * json) (s : ServerError) :
  snd (store_ServerError f rv s) <> Some SyntaxError.
Proof.
  unfold store_ServerError.
  repeat match goal with
         | |- context [if ?c then _ else _] => destruct c
         end; cbn [snd]; try discriminate; apply store_string_no_syntax.
Qed.

(** Walking over a JSON value that was read never gives a syntax
    error. *)
Lemma unmarshal_struct_no_syntax {S : Type} (names : list string)
    (store : string -> bytes * json -> S -> S * option error) (v : json) (s : S) :
  (forall f rv s', snd (store f rv s') <> Some SyntaxError) ->
  snd (unmarshal_struct names store v s) <> Some SyntaxError.
Proof.
  intros Hstore. destruct v as [| | | | |ms]; try discriminate.
  unfold unmarshal_struct.
  assert (Hgen : forall acc : S * option error,
             snd acc <> Some SyntaxError ->
             snd (fold_left
                    (fun (acc : S * option error) (m : bytes * (bytes * json)) =>
                       match lookup_field names (fst m) with
                       | None => acc
                       | Some f =>
                         let r := store f (snd m) (fst acc) in
                         (fst r, saveError (snd acc) (snd r))
                       end) ms acc) <> Some SyntaxError).
  { induction ms as [|mem ms IH]; intros acc Ha; [exact Ha|].
    cbn [fold_left]. apply IH.
    destruct (lookup_field names (fst mem)); [|exact Ha].
    cbn [snd]. destruct (snd acc); [exact Ha|]. apply Hstore. }
  apply Hgen. discriminate.
Qed.

Lemma Unmarshal_no_syntax {S : Type} (names : list string)
    (store : string -> bytes * json -> S -> S * option error) (b : bytes) (s : S) :
  (forall f rv s', snd (store f rv s') <> Some SyntaxError) ->
  parse b <> None ->
  snd (Unmarshal names store b s) <> Some SyntaxError.
Proof.
  intros Hstore Hp. unfold Unmarshal.
  destruct (parse b) as [v|]; [|contradiction].
  now apply unmarshal_struct_no_syntax.
Qed.

(** The payload of [raw] is empty or a JSON text. *)
Lemma raw_fold_payload_parsed (ms : list (bytes * (bytes * json)))
    (acc : rawMessage * option error) :
  Forall (fun mem => parse (fst (snd mem)) = Some (snd (snd mem))) ms ->
  raw_Payload (fst acc) = "" \/ parse (raw_Payload (fst acc)) <> None ->
  raw_Payload (fst (fold_left raw_step ms acc)) = ""
  \/ parse (raw_Payload (fst (fold_left raw_step ms acc))) <> None.
Proof.
  revert acc. induction ms as [|mem ms IH]; intros acc Hf Ha; [exact Ha|].
  cbn [fold_left]. apply IH; [now apply Forall_inv_tail in Hf|].
  apply Forall_inv in Hf. unfold raw_step. fold envelope_fields.
  destruct (lookup_field envelope_fields (fst mem)) as [f|] eqn:Ef; [|exact Ha].
  apply lookup_field_envelope in Ef. unfold store_rawMessage.
  destruct Ef as [->|[->| ->]]; cbn [String.eqb Ascii.eqb Bool.eqb fst raw_Payload];
    [exact Ha|exact Ha|].
  right. rewrite Hf. discriminate.
Qed.

End SyntaxErrors.

(** X11: [UnmarshalJSON] returns a syntax error exactly when its input
    is not a JSON text.  The payload is decoded by a second call of
    [json.Unmarshal], on bytes cut out of the input; those bytes are
    always a JSON text of their own, so that the second call cannot fail
    on the syntax. *)
Theorem UnmarshalJSON_syntax_error (m : operationMessage) (b : bytes) :
  snd (UnmarshalJSON m b) = Some SyntaxError <-> GoJSON.parse b = None.
Proof.
  split.
  2:{ intros Hp. unfold UnmarshalJSON, Unmarshal_rawMessage, GoJSON.Unmarshal.
      now rewrite Hp. }
  intros He. destruct (GoJSON.parse b) as [v|] eqn:Hp; [exfalso|reflexivity].
  assert (Hraw : snd (Unmarshal_rawMessage b new_rawMessage) <> Some SyntaxError).
  { apply Unmarshal_no_syntax; [apply store_rawMessage_no_syntax|]. now rewrite Hp. }
  assert (Hpay : raw_Payload (fst (Unmarshal_rawMessage b new_rawMessage)) = ""
                 \/ GoJSON.parse (raw_Payload (fst (Unmarshal_rawMessage b new_rawMessage)))
                    <> None).
  { destruct v as [| | | | |ms];
      try (unfold Unmarshal_rawMessage, GoJSON.Unmarshal; rewrite Hp; now left).
    rewrite (Unmarshal_rawMessage_object _ _ Hp).
    apply raw_fold_payload_parsed; [exact (parse_member_raw _ _ Hp)|now left]. }
  revert He. unfold UnmarshalJSON.
  destruct (Unmarshal_rawMessage b new_rawMessage) as [raw [e|]]; cbn [fst snd] in *.
  { intros [= ->]. now apply Hraw. }
  cbv zeta.
  destruct (Nat.eqb (String.length (raw_Payload raw)) 0) eqn:El; [discriminate|].
  destruct Hpay as [E|Hpay]; [rewrite E in El; discriminate|].
  destruct (case_of (raw_Type raw) [gqlConnectionInit; _; _; _]).
  { cbn [snd]. apply Unmarshal_no_syntax; [apply store_Request_no_syntax|exact Hpay]. }
  destruct (case_of (raw_Type raw) [gqlConnectionError; _; _; _; _]).
  { cbn [snd]. apply Unmarshal_no_syntax; [apply store_Response_no_syntax|exact Hpay]. }
  destruct (case_of (raw_Type raw) [gqlError]).
  { cbn [snd]. apply Unmarshal_no_syntax; [apply store_ServerError_no_syntax|exact Hpay]. }
  discriminate.
Qed.

Lemma UnmarshalJSON_syntax_error_witness :
  snd (UnmarshalJSON new_operationMessage (bq "{'type':'start','payload':{'query':}}"))
  = Some SyntaxError.
Proof.
  apply (proj2 (UnmarshalJSON_syntax_error new_operationMessage
                  (bq "{'type':'start','payload':{'query':}}"))).
  vm_compute. reflexivity.
Defined.

Section EntryPoint.
Import GoJSON.

(** [UnmarshalJSON] looks at its input only through the JSON text that
    it denotes. *)
Lemma UnmarshalJSON_parse (m : operationMessage) (b1 b2 : bytes) :
  parse b1 = parse b2 -> UnmarshalJSON m b1 = UnmarshalJSON m b2.
Proof.
  intros E. unfold UnmarshalJSON, Unmarshal_rawMessage, Unmarshal. now rewrite E.
Qed.

End EntryPoint.

(** X12: decoding through [json.Unmarshal], as the tests of the package
    do, and calling [UnmarshalJSON] on the same bytes give the same
    message and the same error, on every input: the white space around
    the value, which [json.Unmarshal] cuts off before it calls the
    method, makes no difference. *)
Theorem json_Unmarshal_UnmarshalJSON (m : operationMessage) (b : bytes) :
  json_Unmarshal m b = UnmarshalJSON m b.
Proof.
  unfold json_Unmarshal.
  assert (Hnone : GoJSON.parse b = None -> (m, Some SyntaxError) = UnmarshalJSON m b).
  { intros Hp. unfold UnmarshalJSON, Unmarshal_rawMessage, GoJSON.Unmarshal.
    now rewrite Hp. }
  unfold GoJSON.parse, GoJSON.parse_at in Hnone. cbv zeta in Hnone.
  destruct (GoJSON.value _ 0 (GoJSON.skip_ws b)) as [v r| |] eqn:Ev;
    [|now apply Hnone..].
  destruct (String.eqb (GoJSON.skip_ws r) "") eqn:Er; [|now apply Hnone].
  destruct (proj1 (scan_split _) _ _ _ _ Ev) as (p & Ep & Hp).
  rewrite Ep, consumed_prefix.
  apply UnmarshalJSON_parse.
  rewrite (value_parse _ _ _ _ Hp).
  unfold GoJSON.parse, GoJSON.parse_at. cbv zeta. rewrite Ev, Er. reflexivity.
Qed.

(** ** Encoding, then decoding *)

(** What [UnmarshalJSON] reads in the bytes of a well-formed envelope. *)
Lemma UnmarshalJSON_MarshalJSON (m : operationMessage) :
  well_formed m ->
  UnmarshalJSON new_operationMessage (fst (MarshalJSON m)) = (m, None).
Proof.
  intros Hw. destruct (Payload m) as [p|] eqn:Hp.
  2:{ destruct Hw as [Hid Hty]. rewrite Hp in Hty.
      now apply round_trip_without_payload. }
  destruct (Unmarshal_rawMessage_MarshalJSON m p Hw Hp) as [Hraw [P' EP]].
  destruct Hw as [Hid Hw]. rewrite Hp in Hw. destruct Hw as [Hvar Hw].
  unfold UnmarshalJSON. rewrite Hraw.
  cbn [raw_ID raw_Type raw_Payload ID Type_ Payload new_operationMessage].
  rewrite EP. cbn [String.length Nat.eqb]. rewrite <- EP.
  assert (Hm : (if negb (String.eqb (ID m) "")
                then {| ID := ID m; Type_ := Type_ m; Payload := None |}
                else {| ID := ""; Type_ := Type_ m; Payload := None |})
               = {| ID := ID m; Type_ := Type_ m; Payload := None |}).
  { destruct (String.eqb_spec (ID m) "") as [->|]; reflexivity. }
  rewrite Hm. cbn [ID Type_ Payload].
  unfold variant_for in Hvar.
  destruct m as [i t pl]. cbn [ID Type_ Payload] in *. subst pl.
  destruct (case_of t [gqlConnectionInit; _; _; _]).
  { destruct p as [v|v|v|v]; try discriminate Hvar.
    rewrite marshalPayload_Request. cbn [snd]. rewrite append_nil_l.
    now rewrite (Unmarshal_Request_bytes v Hw). }
  destruct (case_of t [gqlConnectionError; _; _; _; _]).
  { destruct p as [v|v|v|v]; try discriminate Hvar.
    rewrite marshalPayload_Response. cbn [snd]. rewrite append_nil_l.
    now rewrite (Unmarshal_Response_bytes v Hw). }
  destruct (case_of t [gqlError]); [|discriminate].
  destruct p as [v|v|v|v]; try discriminate Hvar.
  rewrite marshalPayload_ServerError. cbn [snd]. rewrite append_nil_l.
  now rewrite (Unmarshal_ServerError_bytes v Hw).
Qed.

(** X13: two well-formed envelopes that differ are written as different
    bytes. *)
Theorem MarshalJSON_injective (m1 m2 : operationMessage) :
  well_formed m1 -> well_formed m2 -> m1 <> m2 ->
  fst (MarshalJSON m1) <> fst (MarshalJSON m2).
Proof.
  intros H1 H2 Hne E. apply Hne.
  pose proof (UnmarshalJSON_MarshalJSON m1 H1) as D1.
  pose proof (UnmarshalJSON_MarshalJSON m2 H2) as D2.
  rewrite E in D1. rewrite D1 in D2. now injection D2.
Qed.

Lemma MarshalJSON_injective_witness :
  fst (MarshalJSON {| ID := "1"; Type_ := gqlStop; Payload := None |})
  <> fst (MarshalJSON {| ID := ""; Type_ := gqlStop; Payload := None |}).
Proof.
  apply MarshalJSON_injective.
  - split; reflexivity.
  - split; reflexivity.
  - discriminate.
Defined.

(** ** Writing to the transport *)

(** X14: [write] hands the bytes of [MarshalJSON] to the transport as
    one binary message, for every message: its check of the error of
    [MarshalJSON] never fires, so the error of [write] is the error of
    the transport, also for an envelope whose bytes are not JSON.  It
    does not look at the channel [done], nor change it: a write after
    [Close] reaches the transport like any other. *)
Theorem write_sends_encoding {T : Type} `{Transport T} (c : Conn T)
    (msg : operationMessage) :
  write c msg
  = ({| wc := fst (ws_Write (wc c) MessageBinary (fst (MarshalJSON msg)));
        done := done c |},
     snd (ws_Write (wc c) MessageBinary (fst (MarshalJSON msg)))).
Proof.
  unfold write.
  assert (E : MarshalJSON msg = (fst (MarshalJSON msg), None)).
  { now apply injective_projections. }
  rewrite E at 1. reflexivity.
Qed.

(** ** The variables of a request, written and read back *)

Section Canonical.
Import GoJSON.

Lemma htmlSafe_plain (c : ascii) : htmlSafe c = true -> plain_char c = true.
Proof.
  destruct c as [[] [] [] [] [] [] [] []]; try discriminate; reflexivity.
Qed.

Lemma htmlSafe_ascii (c : ascii) : htmlSafe c = true -> (byte c <? 128)%N = true.
Proof.
  destruct c as [[] [] [] [] [] [] [] []]; try discriminate; reflexivity.
Qed.

Lemma safe_plain (s : string) : safe s = true -> plain s = true.
Proof.
  induction s as [|c s IH]; [reflexivity|]. cbn [safe plain].
  intros [Hc Hs]%andb_prop. now rewrite (htmlSafe_plain c Hc), (IH Hs).
Qed.

Lemma escape_safe (s : string) : safe s = true -> escape 0 0 s = s.
Proof.
  induction s as [|c s IH]; [reflexivity|]. cbn [safe escape].
  intros [Hc Hs]%andb_prop. now rewrite (htmlSafe_ascii c Hc), Hc, (IH Hs).
Qed.

Lemma appendString_safe (s : string) : safe s = true -> appendString s = quoted s.
Proof.
  intros Hs. unfold appendString, quoted. rewrite (escape_safe s Hs).
  now rewrite append_cons.
Qed.

Lemma number_head (c : ascii) :
  (Ascii.eqb c "-" || isDigit c) = true ->
  Ascii.eqb c "{" = false /\ Ascii.eqb c "[" = false /\ Ascii.eqb c dquote = false
  /\ Ascii.eqb c "t" = false /\ Ascii.eqb c "f" = false /\ Ascii.eqb c "n" = false.
Proof.
  destruct c as [[] [] [] [] [] [] [] []]; try discriminate; repeat split.
Qed.

Lemma number_literal_value (lit : bytes) (f d : nat) :
  number_literal lit = true -> value (S f) d lit = Scanned (JNumber lit) "".
Proof.
  destruct lit as [|c s']; [discriminate|]. unfold number_literal.
  intros [Hc Hn]%andb_prop.
  destruct (number_rest (String c s')) as [r|] eqn:En; [|discriminate].
  apply String.eqb_eq in Hn. subst r.
  destruct (number_head c Hc) as (E1 & E2 & E3 & E4 & E5 & E6).
  cbn [value]. rewrite E1, E2, E3, E4, E5, E6, Hc, En. now rewrite consumed_nil.
Qed.

Lemma sequence_Ok {A : Type} (l : list A) : sequence (map Ok l) = Ok l.
Proof. induction l as [|a l IH]; [reflexivity|]. cbn [map sequence]. now rewrite IH. Qed.

Lemma sort_keys_ascending {V : Type} (l : list (string * V)) :
  ascending (map fst l) = true -> sort_keys l = l.
Proof.
  unfold sort_keys. induction l as [|kv l IH]; [reflexivity|].
  cbn [map fold_right]. intros Ha.
  destruct l as [|kv' l'].
  - reflexivity.
  - cbn [ascending map] in Ha. apply andb_prop in Ha as [Hle Ha].
    rewrite (IH Ha). cbn [insert_sorted]. now rewrite Hle.
Qed.

Lemma map_set_new {V : Type} (k : string) (v : V) (acc : list (string * V)) :
  existsb (String.eqb k) (map fst acc) = false -> map_set k v acc = (acc ++ [(k, v)])%list.
Proof.
  induction acc as [|[k' v'] acc IH]; [reflexivity|].
  cbn [map fst existsb map_set]. intros [Hk Hacc]%orb_false_elim.
  rewrite Hk, (IH Hacc). reflexivity.
Qed.

(** Entries with distinct keys are set one after the other. *)
Lemma map_set_fold {X V : Type} (g : X -> V) (l : list (string * X))
    (acc : list (string * V)) :
  distinct (map fst acc ++ map fst l)%list = true ->
  fold_left (fun a kx => map_set (fst kx) (g (snd kx)) a) l acc
  = (acc ++ map (fun kx => (fst kx, g (snd kx))) l)%list.
Proof.
  revert acc. induction l as [|[k x] l IH]; intros acc Hd.
  - cbn. now rewrite app_nil_r.
  - cbn [fold_left map fst snd].
    assert (Hk : existsb (String.eqb k) (map fst acc) = false).
    { clear IH. induction acc as [|[k' v'] acc IHa]; [reflexivity|].
      cbn [map fst app distinct existsb] in *.
      apply andb_prop in Hd as [Hn Hd]. apply negb_true_iff in Hn.
      rewrite existsb_app in Hn. apply orb_false_elim in Hn as [_ Hn].
      cbn [existsb] in Hn. apply orb_false_elim in Hn as [Hn _].
      rewrite String.eqb_sym, Hn. cbn [orb]. now apply IHa. }
    rewrite (map_set_new k (g x) acc Hk), IH.
    + now rewrite <- app_assoc.
    + rewrite map_app. cbn [map fst]. now rewrite <- app_assoc.
Qed.

(** The elements of an array: their texts joined by commas are read as
    the list of the texts with their values. *)
Lemma elems_join_values (f d : nat) (e : bytes * json) (l : list (bytes * json))
    (rest : bytes) :
  Forall (fun tj => value f d (fst tj) = Scanned (snd tj) "") (e :: l) ->
  elems (S (length l) + f) d (join "," (map fst (e :: l)) ++ "]" ++ rest)
  = Scanned (e :: l) rest.
Proof.
  revert e. induction l as [|e' l IH]; intros [T j] HF.
  - apply Forall_inv in HF. cbn [fst snd] in HF.
    cbn [length plus map join fst]. rewrite elems_S, (append_cons "]"), append_nil_l.
    rewrite (value_append_end _ _ _ _ _ _ bracket_ends_number HF), consumed_prefix.
    cbn [skip_ws]. change (isSpace "]") with false. cbv iota.
    change (Ascii.eqb "]" ",") with false. cbv iota. now rewrite Ascii.eqb_refl.
  - pose proof (Forall_inv HF) as Hv. cbn [fst snd] in Hv.
    apply Forall_inv_tail in HF. specialize (IH e' HF).
    destruct e' as [T' j']. pose proof (Forall_inv HF) as Hv'. cbn [fst snd] in Hv'.
    destruct T' as [|c' T0']; [now apply value_nil in Hv'|].
    pose proof (value_head_nonspace _ _ _ _ _ _ Hv') as Hc'.
    change (join "," (map fst ((T, j) :: (String c' T0', j') :: l)))
      with (T ++ "," ++ join "," (map fst ((String c' T0', j') :: l))).
    cbn [length plus]. rewrite elems_S, !append_assoc, (append_cons ","), append_nil_l.
    assert (Hv2 : value (S (length l) + f) d T = Scanned j "").
    { rewrite (value_fuel_le f); [exact Hv|lia|now rewrite Hv]. }
    rewrite (value_append_end _ _ _ _ _ _ comma_ends_number Hv2), consumed_prefix.
    cbn [skip_ws]. change (isSpace ",") with false. cbv iota. rewrite Ascii.eqb_refl.
    assert (Hsk : skip_ws (join "," (map fst ((String c' T0', j') :: l)) ++ "]" ++ rest)
                  = join "," (map fst ((String c' T0', j') :: l)) ++ "]" ++ rest).
    { destruct l; cbn [map fst join]; rewrite ?append_assoc, append_cons;
        now apply skip_ws_nonspace. }
    rewrite Hsk. cbn [length plus] in IH. now rewrite IH.
Qed.

Lemma value_array_values (f d : nat) (l : list (bytes * json)) :
  Nat.ltb maxNestingDepth (S d) = false ->
  Forall (fun tj => value f (S d) (fst tj) = Scanned (snd tj) "") l ->
  value (S (S (length l)) + f) d ("[" ++ join "," (map fst l) ++ "]")
  = Scanned (JArray l) "".
Proof.
  intros Hd HF. destruct l as [|[T j] l].
  - cbn [map join length plus]. rewrite append_nil_l, !append_cons, append_nil_l.
    cbn [value]. change (Ascii.eqb "[" "{") with false. cbv iota.
    rewrite Ascii.eqb_refl, Hd. cbn [skip_ws]. change (isSpace "]") with false.
    cbv iota. now rewrite Ascii.eqb_refl.
  - pose proof (elems_join_values f (S d) (T, j) l "" HF) as He.
    rewrite (append_nil_r "]") in He.
    pose proof (Forall_inv HF) as Hv. cbn [fst snd] in Hv.
    destruct T as [|c T0]; [now apply value_nil in Hv|].
    pose proof (value_head_nonspace _ _ _ _ _ _ Hv) as Hc.
    assert (Hj : exists J, join "," (map fst ((String c T0, j) :: l)) ++ "]" = String c J).
    { destruct l; cbn [map fst join]; rewrite ?append_assoc, append_cons; eauto. }
    destruct Hj as [J HJ]. rewrite HJ in *.
    rewrite append_cons, append_nil_l.
    change (S (S (length ((String c T0, j) :: l))) + f)
      with (S (S (S (length l) + f))).
    cbn [value]. change (Ascii.eqb "[" "{") with false. cbv iota.
    rewrite Ascii.eqb_refl, Hd, (skip_ws_nonspace _ _ Hc).
    assert (Hb : Ascii.eqb c "]" = false).
    { destruct (Ascii.eqb c "]") eqn:Eb; [|reflexivity].
      apply Ascii.eqb_eq in Eb. subst c. destruct f; discriminate. }
    rewrite Hb.
    rewrite (proj1 (proj2 (scan_fuel_S _))); [now rewrite He|now rewrite He].
Qed.

(** The members of an object: their texts joined by commas are read as
    the list of the keys with the texts and the values. *)
Lemma members_join_values (f d : nat) (m : bytes * (bytes * json))
    (l : list (bytes * (bytes * json))) (rest : bytes) :
  Forall (fun m => plain (fst m) = true
                   /\ value f d (fst (snd m)) = Scanned (snd (snd m)) "") (m :: l) ->
  members (S (length l) + f) d (join "," (map member_text (m :: l)) ++ "}" ++ rest)
  = Scanned (m :: l) rest.
Proof.
  revert m. induction l as [|m' l IH]; intros [k [T j]] HF.
  - apply Forall_inv in HF as [Hk Hv]. cbn [fst snd] in Hk, Hv.
    cbn [length plus map join]. unfold member_text. cbn [fst snd].
    rewrite !append_assoc. now apply members_value_end.
  - pose proof (Forall_inv HF) as [Hk Hv]. cbn [fst snd] in Hk, Hv.
    apply Forall_inv_tail in HF. specialize (IH m' HF).
    destruct m' as [k' [T' j']].
    change (join "," (map member_text ((k, (T, j)) :: (k', (T', j')) :: l)))
      with (member_text (k, (T, j)) ++ ","
            ++ join "," (map member_text ((k', (T', j')) :: l))).
    assert (Hj : exists X, join "," (map member_text ((k', (T', j')) :: l)) ++ "}" ++ rest
                           = quoted k' ++ X).
    { destruct l; cbn [map join]; unfold member_text at 1; cbn [fst snd];
        rewrite !append_assoc; eauto. }
    destruct Hj as [X HX].
    unfold member_text at 1. cbn [fst snd]. rewrite !append_assoc, HX.
    cbn [length plus].
    apply members_value_more; [exact Hk| |now rewrite <- HX].
    rewrite (value_fuel_le f); [exact Hv|lia|now rewrite Hv].
Qed.

Lemma value_object_values (f d : nat) (l : list (bytes * (bytes * json))) :
  Nat.ltb maxNestingDepth (S d) = false ->
  Forall (fun m => plain (fst m) = true
                   /\ value f (S d) (fst (snd m)) = Scanned (snd (snd m)) "") l ->
  value (S (S (length l)) + f) d ("{" ++ join "," (map member_text l) ++ "}")
  = Scanned (JObject l) "".
Proof.
  intros Hd HF. destruct l as [|[k [T j]] l].
  - cbn [map join length plus]. rewrite append_nil_l, !append_cons, append_nil_l.
    cbn [value]. rewrite Ascii.eqb_refl, Hd. cbn [skip_ws].
    change (isSpace "}") with false. cbv iota. now rewrite Ascii.eqb_refl.
  - pose proof (members_join_values f (S d) (k, (T, j)) l "" HF) as Hm.
    rewrite (append_nil_r "}") in Hm.
    assert (Hj : exists X, join "," (map member_text ((k, (T, j)) :: l)) ++ "}"
                           = quoted k ++ X).
    { destruct l; cbn [map join]; unfold member_text at 1; cbn [fst snd];
        rewrite !append_assoc; eauto. }
    destruct Hj as [X HX]. rewrite HX in *.
    change (S (S (length ((k, (T, j)) :: l))) + f) with (S (S (S (length l) + f))).
    apply value_object_quoted; [exact Hd|].
    rewrite (proj2 (proj2 (scan_fuel_S _))); [exact Hm|now rewrite Hm].
Qed.

(** Induction on the values of an interface, through slices and maps. *)
Lemma any_induction (P : any -> Prop) :
  P a_nil -> (forall b, P (a_bool b)) -> (forall lit, P (a_float64 lit)) ->
  (forall n, P (a_int n)) -> (forall s, P (a_string s)) ->
  (forall l, Forall P l -> P (a_slice l)) ->
  (forall m, Forall (fun kv => P (snd kv)) m -> P (a_map m)) ->
  P a_chan ->
  forall v, P v.
Proof.
  intros Hnil Hbool Hfloat Hint Hstring Hslice Hmap Hchan.
  fix IH 1. intros [|b|lit|n|s|l|m|].
  - exact Hnil.
  - apply Hbool.
  - apply Hfloat.
  - apply Hint.
  - apply Hstring.
  - apply Hslice. induction l as [|x l IHl]; constructor; [apply IH|exact IHl].
  - apply Hmap. induction m as [|[k x] m IHm]; constructor; [apply IH|exact IHm].
  - exact Hchan.
Qed.

Lemma nesting_slice (x : any) (l : list any) :
  In x l -> S (nesting x) <= nesting (a_slice l).
Proof.
  cbn [nesting]. induction l as [|y l IH]; [contradiction|].
  cbn [fold_right]. intros [->|Hin]; [lia|]. specialize (IH Hin). lia.
Qed.

Lemma nesting_map (kv : string * any) (m : list (string * any)) :
  In kv m -> S (nesting (snd kv)) <= nesting (a_map m).
Proof.
  cbn [nesting]. induction m as [|y m IH]; [contradiction|].
  cbn [fold_right]. intros [->|Hin]; [lia|]. specialize (IH Hin). lia.
Qed.


(** A canonical value is written by [json.Marshal] as a JSON text that
    [valueInterface] turns back into the value. *)
Lemma canonical_reads (v : any) :
  canonical v = true ->
  forall d, d + nesting v <= maxNestingDepth ->
  exists T j f,
    encode_any v = Ok T /\ value f d T = Scanned j "" /\ valueInterface j = v.
Proof.
  induction v as [|b|lit|n|s|l IH|m IH|] using any_induction; intros Hc d Hd.
  - exists "null", JNull, 1. repeat split.
  - exists (if b then "true" else "false"), (JBool b), 1. destruct b; repeat split.
  - exists lit, (JNumber lit), 1. repeat split. now apply number_literal_value.
  - discriminate.
  - cbn [canonical] in Hc. exists (quoted s), (JString s), 1.
    split; [cbn [encode_any]; now rewrite (appendString_safe s Hc)|].
    split; [|reflexivity].
    rewrite <- (append_nil_r (quoted s)).
    apply value_plain_string. now apply safe_plain.
  - (* slices *)
    cbn [canonical] in Hc.
    assert (Hl : exists (l' : list (bytes * json)) F,
               map encode_any l = map Ok (map fst l')
               /\ Forall (fun tj => value F (S d) (fst tj) = Scanned (snd tj) "") l'
               /\ map (fun tj => valueInterface (snd tj)) l' = l).
    { assert (Hin : forall x, In x l -> S d + nesting x <= maxNestingDepth).
      { intros x Hx. pose proof (nesting_slice x l Hx). lia. }
      clear Hd. induction l as [|x l IHl]; [exists [], 0; repeat split; constructor|].
      cbn [forallb] in Hc. apply andb_prop in Hc as [Hx Hc].
      destruct (Forall_inv IH Hx (S d) (Hin x (or_introl eq_refl))) as (T & j & f & He & Hv & Hj).
      destruct (IHl (Forall_inv_tail IH) Hc (fun y Hy => Hin y (or_intror Hy)))
        as (l' & F & Hm & HF & Hl').
      exists ((T, j) :: l'), (Nat.max f F). split; [|split].
      - cbn [map fst]. now rewrite He, Hm.
      - constructor.
        + cbn [fst snd]. apply (value_lift f _ (S d) (S d)); [lia|lia|exact Hv].
        + eapply Forall_impl; [exact HF|]. intros tj Htj.
          apply (value_lift F _ (S d) (S d)); [lia|lia|exact Htj].
      - cbn [map snd]. now rewrite Hj, Hl'. }
    destruct Hl as (l' & F & Hm & HF & Hl').
    assert (Hlt : Nat.ltb maxNestingDepth (S d) = false).
    { apply Nat.ltb_ge. cbn [nesting] in Hd. lia. }
    exists ("[" ++ join "," (map fst l') ++ "]"), (JArray l'), (S (S (length l')) + F).
    split; [cbn [encode_any]; now rewrite Hm, sequence_Ok|].
    split; [now apply value_array_values|].
    cbn [valueInterface]. f_equal. rewrite <- Hl'. apply map_ext. now intros [T j].
  - (* maps *)
    cbn [canonical] in Hc. apply andb_prop in Hc as [Hc Hsafe].
    apply andb_prop in Hc as [Hasc Hdis].
    assert (Hl : exists (l' : list (bytes * (bytes * json))) F,
               map (fun kv => member_bytes (fst kv, encode_any (snd kv))) m
               = map Ok (map member_text l')
               /\ Forall (fun m' => plain (fst m') = true
                                    /\ value F (S d) (fst (snd m')) = Scanned (snd (snd m')) "") l'
               /\ map (fun m' => (fst m', valueInterface (snd (snd m')))) l' = m).
    { assert (Hin : forall kv, In kv m -> S d + nesting (snd kv) <= maxNestingDepth).
      { intros kv Hkv. pose proof (nesting_map kv m Hkv). lia. }
      clear Hd Hasc Hdis.
      induction m as [|[k x] m IHm]; [exists [], 0; repeat split; constructor|].
      cbn [forallb fst snd] in Hsafe. apply andb_prop in Hsafe as [Hkx Hsafe].
      apply andb_prop in Hkx as [Hk Hx].
      destruct (Forall_inv IH Hx (S d) (Hin (k, x) (or_introl eq_refl)))
        as (T & j & f & He & Hv & Hj).
      cbn [fst snd] in He, Hv, Hj.
      destruct (IHm (Forall_inv_tail IH) Hsafe (fun y Hy => Hin y (or_intror Hy)))
        as (l' & F & Hm & HF & Hl').
      exists ((k, (T, j)) :: l'), (Nat.max f F). split; [|split].
      - cbn [map fst snd]. rewrite He, Hm. unfold member_bytes, member_text.
        cbn [fst snd]. now rewrite (appendString_safe k Hk).
      - constructor.
        + cbn [fst snd]. split; [now apply safe_plain|].
          apply (value_lift f _ (S d) (S d)); [lia|lia|exact Hv].
        + eapply Forall_impl; [exact HF|]. intros m' [Hp Hm'].
          split; [exact Hp|]. apply (value_lift F _ (S d) (S d)); [lia|lia|exact Hm'].
      - cbn [map fst snd]. now rewrite Hj, Hl'. }
    destruct Hl as (l' & F & Hm & HF & Hl').
    assert (Hlt : Nat.ltb maxNestingDepth (S d) = false).
    { apply Nat.ltb_ge. cbn [nesting] in Hd. lia. }
    assert (Hkeys : map fst l' = map fst m).
    { rewrite <- Hl', map_map. reflexivity. }
    exists ("{" ++ join "," (map member_text l') ++ "}"), (JObject l'),
      (S (S (length l')) + F).
    split; [|split].
    + cbn [encode_any].
      rewrite sort_keys_ascending
        by (rewrite map_map; cbn [fst];
            erewrite map_ext; [exact Hasc|]; now intros [k x]).
      rewrite map_map.
      erewrite map_ext; [rewrite Hm|now intros [k x]].
      now rewrite sequence_Ok.
    + now apply value_object_values.
    + cbn [valueInterface]. f_equal.
      transitivity (fold_left (fun a (kx : bytes * (bytes * json)) =>
                                 map_set (fst kx) (valueInterface (snd (snd kx))) a) l' []).
      { generalize (@nil (string * any)). clear.
        induction l' as [|[k [T j]] l0 IHl0]; intros acc; [reflexivity|].
        cbn [fold_left fst snd]. apply IHl0. }
      rewrite (map_set_fold (fun tj => valueInterface (snd tj)) l' [])
        by (cbn [map app]; now rewrite Hkeys).
      exact Hl'.
  - discriminate.
Qed.

End Canonical.

(** Canonical variables survive [json.Marshal] and the decoding into a
    map. *)
Lemma canonical_variables (vars : list (string * any)) :
  canonical (a_map vars) = true ->
  2 + nesting (a_map vars) <= GoJSON.maxNestingDepth ->
  variables_round_trip vars.
Proof.
  intros Hc Hd.
  destruct (canonical_reads (a_map vars) Hc 2 Hd) as (T & j & f & He & Hv & Hj).
  exists T, f, j. split; [exact He|]. split; [exact Hv|].
  destruct j as [| | | | |ms]; try discriminate Hj.
  cbn [GoJSON.valueInterface] in Hj. injection Hj as Hj.
  cbn [GoJSON.store_map]. now rewrite Hj.
Qed.

(** X15: the round trip of a request with variables.  A request
    envelope whose id, query and operation name need no escaping and whose
    variables are canonical (nil, booleans, numbers, strings that need no
    escaping, slices and maps of such values, nested less deeply than the
    decoder allows) survives [MarshalJSON] followed by [UnmarshalJSON]:
    the message comes back field for field, with no error. *)
Theorem round_trip_canonical_variables (i : opID) (t : reqType) (q o : string)
    (vars : list (string * any)) :
  plain i = true -> plain q = true -> plain o = true ->
  variant_for t = Some VRequest ->
  canonical (a_map vars) = true ->
  2 + nesting (a_map vars) <= GoJSON.maxNestingDepth ->
  UnmarshalJSON new_operationMessage
    (fst (MarshalJSON
            {| ID := i; Type_ := t;
               Payload := Some (PRequest {| Query := q; Variables := Some vars;
                                            OperationName := o |}) |}))
  = ({| ID := i; Type_ := t;
        Payload := Some (PRequest {| Query := q; Variables := Some vars;
                                     OperationName := o |}) |}, None).
Proof.
  intros Hi Hq Ho Ht Hc Hd. apply UnmarshalJSON_MarshalJSON.
  split; [exact Hi|]. cbn [Payload Type_]. split; [exact Ht|].
  cbn [well_formed_payload Query OperationName Variables].
  split; [exact Hq|]. split; [exact Ho|]. now apply canonical_variables.
Qed.

Lemma round_trip_canonical_variables_witness :
  UnmarshalJSON new_operationMessage
    (bq "{'id':'1','type':'start','payload':{'query':'query($a: [Float], $b: In) { f }','variables':{'a':[1.5,null,true],'b':{'c':'x','d':{}}},'operationName':'Q'}}")
  = ({| ID := "1"; Type_ := gqlStart;
        Payload :=
          Some (PRequest
                  {| Query := "query($a: [Float], $b: In) { f }";
                     Variables :=
                       Some [("a", a_slice [a_float64 "1.5"; a_nil; a_bool true]);
                             ("b", a_map [("c", a_string "x"); ("d", a_map [])])];
                     OperationName := "Q" |}) |}, None).
Proof.
  apply (round_trip_canonical_variables "1" gqlStart
           "query($a: [Float], $b: In) { f }" "Q"
           [("a", a_slice [a_float64 "1.5"; a_nil; a_bool true]);
            ("b", a_map [("c", a_string "x"); ("d", a_map [])])]);
    try reflexivity.
  apply Nat.leb_le. vm_compute. reflexivity.
Defined.
